(** * AI-resume-sorter: the scoring and question-answering core

    A shallow embedding of [backend/processors/scorer.py],
    [backend/processors/resume_processor.py] and [backend/main.py],
    followed by the properties of the specification that are settled
    against it and by further properties of the code.

    Conventions of the embedding.
    - A Python [str] is a [text]: a list of characters, a character being
      a code point below 256 ([ascii]).  Character classes ([str.isspace],
      [str.lower], the classes of the [re] module) are the Unicode ones
      restricted to that range.
    - A Python [float] is an exact rational ([Q]); IEEE rounding is not
      modelled.  A Python [int] is a [Z].
    - The sentence-embedding model, the PDF reader and the enrichment
      pipeline are collaborators: they are parameters of the sections
      that use them, and those that the source guards with [try] may
      fail ([option]).  So are, in the model of the resume processor,
      the named-entity pipelines and the summarizer. *)

From Stdlib Require Import ZArith QArith Qround List Ascii String Bool Lia.
From Stdlib Require Import Permutation Sorting.Sorted DecimalString.
From stdpp Require Import gmap strings list.

(* ================================================================== *)
(** * Part I: the model *)
(* ================================================================== *)

(** ** Text *)

Definition text := list ascii.

Inductive text_lit := TNil | TCons (a : ascii) (t : text_lit).

Fixpoint lit_of_bytes (l : list Byte.byte) : text_lit :=
  match l with
  | [] => TNil
  | b :: l => TCons (ascii_of_byte b) (lit_of_bytes l)
  end.

Fixpoint bytes_of_lit (t : text_lit) : list Byte.byte :=
  match t with
  | TNil => []
  | TCons a t => byte_of_ascii a :: bytes_of_lit t
  end.

Declare Scope text_scope.
Delimit Scope text_scope with text.
#[warnings="-via-type-remapping,-via-type-mismatch"]
String Notation text lit_of_bytes bytes_of_lit
  (via text_lit mapping [[nil] => TNil, [cons] => TCons]) : text_scope.
Bind Scope text_scope with text.
Open Scope text_scope.

Definition code (c : ascii) : N := N_of_ascii c.

Definition between (lo hi : N) (c : ascii) : bool :=
  ((lo <=? code c) && (code c <=? hi))%N.

(** [str.isspace] below 256: TAB..CR, FS..US, SPACE, NEL, NBSP. *)
Definition py_isspace (c : ascii) : bool :=
  between 9 13 c || between 28 32 c || (code c =? 133)%N || (code c =? 160)%N.

Definition is_upper_ascii (c : ascii) : bool := between 65 90 c.
Definition is_lower_ascii (c : ascii) : bool := between 97 122 c.
Definition is_ascii_letter (c : ascii) : bool :=
  is_upper_ascii c || is_lower_ascii c.
Definition is_ascii_digit (c : ascii) : bool := between 48 57 c.

(** [str.isalpha] below 256. *)
Definition py_isalpha (c : ascii) : bool :=
  is_ascii_letter c || (code c =? 170)%N || (code c =? 181)%N
  || (code c =? 186)%N || between 192 214 c || between 216 246 c
  || between 248 255 c.

(** [str.isdigit] below 256: the decimal digits and the superscripts. *)
Definition py_isdigit (c : ascii) : bool :=
  is_ascii_digit c || (code c =? 178)%N || (code c =? 179)%N
  || (code c =? 185)%N.

(** [str.isalnum] below 256 adds the vulgar fractions. *)
Definition py_isalnum (c : ascii) : bool :=
  py_isalpha c || py_isdigit c || between 188 190 c.

(** [str.lower] on one character below 256. *)
Definition lower_char (c : ascii) : ascii :=
  if is_upper_ascii c || between 192 214 c || between 216 222 c
  then ascii_of_N (code c + 32) else c.

Definition lower (s : text) : text := List.map lower_char s.

Definition text_eqb (a b : text) : bool := bool_decide (a = b).

Definition is_empty {A} (l : list A) : bool :=
  match l with [] => true | _ => false end.

Fixpoint starts_with (p s : text) : bool :=
  match p, s with
  | [], _ => true
  | _ :: _, [] => false
  | a :: p', b :: s' => Ascii.eqb a b && starts_with p' s'
  end.

(** [needle in hay] on strings. *)
Fixpoint contains (hay needle : text) : bool :=
  starts_with needle hay
  || match hay with
     | [] => false
     | _ :: hay' => contains hay' needle
     end.

Definition contains_any_of (hay : text) (needles : list text) : bool :=
  existsb (contains hay) needles.

Fixpoint lstrip (s : text) : text :=
  match s with
  | c :: s' => if py_isspace c then lstrip s' else s
  | [] => []
  end.

Definition rstrip (s : text) : text := rev (lstrip (rev s)).

(** [str.strip()] *)
Definition strip (s : text) : text := rstrip (lstrip s).

(** [str.split(d)] for a one-character separator. *)
Fixpoint split_on (d : ascii) (s : text) : list text :=
  match s with
  | [] => [[]]
  | c :: s' =>
      if Ascii.eqb c d then [] :: split_on d s'
      else match split_on d s' with
           | w :: ws => (c :: w) :: ws
           | [] => [[c]]
           end
  end.

(** [sep.join(parts)] *)
Fixpoint join (sep : text) (parts : list text) : text :=
  match parts with
  | [] => []
  | [p] => p
  | p :: ps => p ++ sep ++ join sep ps
  end.

(** [s[:n]] for [n >= 0]. *)
Definition prefix_slice (n : nat) (s : text) : text := firstn n s.

(** [l[-n:]] for [n >= 0]; Python reads [-0] as [0], the whole list. *)
Definition last_n {A} (n : nat) (l : list A) : list A :=
  match n with
  | O => l
  | _ => skipn (length l - n) l
  end.

(** ** Chunker: [ResumeScorer._create_chunks] *)

Module Chunker.

(** The loop state: [chunks], [current_chunk], [current_length]. *)
Definition loop_state : Type := list text * list text * Z.

Definition close_chunk (current_chunk : list text) : text :=
  join ". " current_chunk ++ ".".

Definition chunk_step (chunk_size : Z) (st : loop_state) (raw : text)
  : loop_state :=
  let '(chunks, current_chunk, current_length) := st in
  let sentence := strip raw in
  if is_empty sentence then st
  else
    let sentence_len := Z.of_nat (length sentence) in
    if (current_length + sentence_len >? chunk_size)%Z
       && negb (is_empty current_chunk)
    then (chunks ++ [close_chunk current_chunk], [sentence], sentence_len)
    else (chunks, current_chunk ++ [sentence],
          (current_length + sentence_len)%Z).

Definition _create_chunks (txt : text) (chunk_size : Z) : list text :=
  let sentences := split_on "." txt in
  let '(chunks, current_chunk, _) :=
    fold_left (chunk_step chunk_size) sentences ([], [], 0%Z) in
  let chunks :=
    if is_empty current_chunk then chunks
    else chunks ++ [close_chunk current_chunk] in
  if is_empty chunks then [txt] else chunks.

(** The non-empty sentences of a text, as the loop sees them: split on
    the period, stripped, blanks skipped. *)
Definition sentences (txt : text) : list text :=
  List.filter (fun s => negb (is_empty s)) (List.map strip (split_on "." txt)).

Definition total_length (g : list text) : Z :=
  fold_right (fun s acc => (Z.of_nat (length s) + acc)%Z) 0%Z g.

(** Vocabulary of the loop invariant. *)

Definition dot_free (s : text) : Prop := Forall (fun c => c <> "."%char) s.

(** A sentence as the loop stores it. *)
Definition settled (s : text) : Prop :=
  strip s = s /\ s <> [] /\ dot_free s.

Definition within (chunk_size : Z) (g : list text) : Prop :=
  (2 <= length g)%nat -> (total_length g <= chunk_size)%Z.

(** What the loop maintains after reading the raw pieces [seen]. *)
Record loop_inv (chunk_size : Z) (seen : list text) (st : loop_state) : Prop :=
  { inv_content :
      flat_map sentences (fst (fst st)) ++ snd (fst st)
      = List.filter (fun s => negb (is_empty s)) (List.map strip seen);
    inv_current : Forall settled (snd (fst st));
    inv_length : snd st = total_length (snd (fst st));
    inv_current_fits : within chunk_size (snd (fst st));
    inv_closed :
      Forall (fun c => c <> [] /\ sentences c <> []
                       /\ within chunk_size (sentences c))
             (fst (fst st)) }.

End Chunker.

(** ** Numbers *)

Definition Qltb (x y : Q) : bool :=
  (Qnum x * Zpos (Qden y) <? Qnum y * Zpos (Qden x))%Z.

(** The builtin two-argument [max(a, b)]: [b] if [b > a], else [a]. *)
Definition py_max (a b : Q) : Q := if Qltb a b then b else a.

(** The builtin two-argument [min(a, b)]: [b] if [b < a], else [a]. *)
Definition py_min (a b : Q) : Q := if Qltb b a then b else a.

(** [int(x)]: truncation toward zero. *)
Definition py_int (x : Q) : Z := Z.quot (Qnum x) (Zpos (Qden x)).


Definition Qsum (l : list Q) : Q := fold_left Qplus l 0%Q.

(** [numpy.mean] of a non-empty list. *)
Definition np_mean (l : list Q) : Q :=
  (Qsum l / inject_Z (Z.of_nat (length l)))%Q.

(** [str(n)] for a natural number. *)
Definition text_of_nat (n : nat) : text :=
  list_ascii_of_string (NilEmpty.string_of_uint (Nat.to_uint n)).

(** ** Sorting *)

(** Insertion before the first element that [before] lets the new one
    precede; folding it from the right is a stable sort. *)
Fixpoint insert_by {A} (before : A -> A -> bool) (x : A) (l : list A)
  : list A :=
  match l with
  | [] => [x]
  | y :: l' => if before x y then x :: l else y :: insert_by before x l'
  end.

Definition stable_sort {A} (before : A -> A -> bool) (l : list A) : list A :=
  fold_right (insert_by before) [] l.

(** [list.sort(key=key, reverse=True)]: descending on the key, and stable,
    elements with equal keys keep their order. *)
Definition sort_desc {A} (key : A -> Z) (l : list A) : list A :=
  stable_sort (fun x y => (key y <=? key x)%Z) l.

(** Sortedness for an order given as a test, and for a descending key. *)
Definition ordered_by {A} (before : A -> A -> bool) (x y : A) : Prop :=
  before x y = true.

Definition descending {A} (key : A -> Z) (x y : A) : Prop :=
  (key y <= key x)%Z.

(** [numpy.argsort(scores)]: the indices in ascending order of score.
    NumPy documents its default sort kind as not stable, so the order it
    gives to equal scores is not specified.  The model fixes that order
    as a stable sort does, equal scores in ascending index order: this is
    what NumPy's generic introsort does on arrays of at most 16 elements,
    which it sorts by insertion. *)
Definition np_argsort (scores : list Q) : list nat :=
  List.map fst
    (stable_sort (fun x y : nat * Q => negb (Qltb (snd y) (snd x)))
                 (combine (seq 0 (length scores)) scores)).

(** ** Keyword extractor and scorer: [processors/scorer.py] *)

Module Scorer.

Definition keywords_db : list text :=
  [ "python"; "javascript"; "java"; "react"; "node"; "sql"; "cloud";
    "api"; "database"; "frontend"; "backend"; "fullstack"; "mobile";
    "devops"; "agile"; "testing"; "performance"; "security"; "scalability" ].

Definition aliases_table : list (text * list text) :=
  [ ("node", ["node.js"; "nodejs"; "express"]);
    ("react", ["react.js"; "reactjs"; "nextjs"; "next.js"]);
    ("sql", ["postgresql"; "mysql"; "psql"; "mssql"; "sqlite"]);
    ("cloud", ["aws"; "amazon web services"; "gcp"; "google cloud"; "azure"]);
    ("devops", ["ci/cd"; "cicd"; "pipeline"; "docker"; "kubernetes"]);
    ("testing", ["jest"; "pytest"; "unit testing"; "e2e"; "cypress"]);
    ("api", ["rest"; "graphql"; "restful"]) ].

(** [aliases.get(keyword, [])] *)
Definition aliases (keyword : text) : list text :=
  match List.find (fun kv => text_eqb (fst kv) keyword) aliases_table with
  | Some kv => snd kv
  | None => []
  end.

Definition mem (k : text) (l : list text) : bool := existsb (text_eqb k) l.

(** The "unique, preserve order" loop. *)
Fixpoint unique_from (seen : list text) (l : list text) : list text :=
  match l with
  | [] => []
  | k :: l' =>
      if mem k seen then unique_from seen l'
      else k :: unique_from (k :: seen) l'
  end.

Definition _extract_keywords (txt : text) : list text :=
  let text_lower := lower txt in
  let found_keywords :=
    List.filter
      (fun keyword =>
         contains text_lower keyword
         || existsb (contains text_lower) (aliases keyword))
      keywords_db in
  unique_from [] found_keywords.

Definition skills_db : list text :=
  [ "python"; "javascript"; "typescript"; "java"; "c++"; "c#"; "php";
    "ruby"; "go"; "rust";
    "sql"; "postgresql"; "mysql"; "mongodb"; "redis"; "elasticsearch";
    "react"; "vue"; "angular"; "nextjs"; "node.js"; "express"; "django";
    "flask";
    "aws"; "azure"; "gcp"; "docker"; "kubernetes"; "jenkins"; "git";
    "rest"; "graphql"; "api"; "microservices";
    "machine learning"; "deep learning"; "tensorflow"; "pytorch" ].

Definition upper_ascii (c : ascii) : ascii :=
  if is_lower_ascii c then ascii_of_N (code c - 32) else c.

(** [str.title()] on ASCII text, the only text it is applied to: a
    letter is upper-cased unless it follows a letter. *)
Fixpoint title_from (previous_is_cased : bool) (s : text) : text :=
  match s with
  | [] => []
  | c :: s' =>
      (if previous_is_cased then lower_char c else upper_ascii c)
      :: title_from (is_ascii_letter c) s'
  end.

Definition title (s : text) : text := title_from false s.

Definition _extract_matching_skills (resume_text job_description : text)
  : list text :=
  let resume_lower := lower resume_text in
  let job_lower := lower job_description in
  let matching_skills :=
    List.map title
      (List.filter
         (fun skill => contains resume_lower skill && contains job_lower skill)
         skills_db) in
  firstn 10 matching_skills.

(** [entities.get(label, [])] *)
Definition entity_list (entities : gmap string (list text)) (label : string)
  : list text :=
  default [] (entities !! label).

Definition _generate_feedback (semantic_score skill_match_ratio : Q)
    (skills : list text) (entities : gmap string (list text)) : text :=
  let semantic_part :=
    if Qltb (75 # 100) semantic_score
    then "Strong semantic match with job requirements."
    else if Qltb (5 # 10) semantic_score
    then "Good match with job requirements."
    else if Qltb (3 # 10) semantic_score
    then "Moderate match with job requirements."
    else "Limited semantic match with job requirements." in
  let count := text_of_nat (length skills) in
  let skill_part :=
    if Qltb (7 # 10) skill_match_ratio
    then "Excellent skill alignment with " ++ count
         ++ " relevant skills identified."
    else if Qltb (4 # 10) skill_match_ratio
    then "Good skill overlap with " ++ count ++ " relevant skills."
    else if Qltb (1 # 10) skill_match_ratio
    then "Some skill overlap with " ++ count ++ " relevant skills."
    else "Limited skill overlap with job requirements." in
  let organizations := entity_list entities "ORG" in
  let org_part :=
    if is_empty organizations then []
    else ["Candidate has experience at "
          ++ text_of_nat (length organizations) ++ " organizations."] in
  let education := entity_list entities "DATE" in
  let edu_part :=
    if is_empty education then []
    else ["Strong educational background indicated."] in
  join " " ([semantic_part; skill_part] ++ org_part ++ edu_part).

Definition _generate_improvements
    (job_keywords resume_keywords matched_skills : list text) : list text :=
  let gaps :=
    List.filter (fun kw => negb (mem kw resume_keywords)) job_keywords in
  let improvements :=
    List.map
      (fun g => "Strengthen experience with " ++ g
                ++ ": build a small project or certification.")
      (firstn 5 gaps) in
  let improvements :=
    if (length matched_skills <? Nat.max 3 (length job_keywords / 2))%nat
    then improvements
         ++ ["Highlight concrete achievements using metrics to improve semantic relevance."]
    else improvements in
  if is_empty improvements
  then ["Great alignment. Emphasize recent work matching the job requirements."]
  else improvements.

(** [str.splitlines()] below 256: LF, CR, CR LF, VT, FF, FS, GS, RS and
    NEL end a line; no empty last line. *)
Definition is_linebreak (c : ascii) : bool :=
  between 10 13 c || between 28 30 c || (code c =? 133)%N.

Fixpoint splitlines_from (current : text) (s : text) : list text :=
  match s with
  | [] => if is_empty current then [] else [current]
  | c :: s' =>
      if is_linebreak c then
        match s' with
        | c' :: s'' =>
            if (code c =? 13)%N && (code c' =? 10)%N
            then current :: splitlines_from [] s''
            else current :: splitlines_from [] s'
        | [] => current :: splitlines_from [] s'
        end
      else splitlines_from (current ++ [c]) s'
  end.

Definition splitlines (s : text) : list text := splitlines_from [] s.

Definition contact_tokens : list text :=
  ["email"; "phone"; "linkedin"; "github"; "http"; "@"].

(** The body of the evidence loop, with its [continue] and [break]. *)
Fixpoint collect_evidence (job_keywords : list text) (chunks : list text)
    (top_idx : list nat) (evidence : list text) : list text :=
  match top_idx with
  | [] => evidence
  | idx :: rest =>
      let raw_snippet := strip (prefix_slice 240 (nth idx chunks "")) in
      let low := lower raw_snippet in
      if contains_any_of low contact_tokens
      then collect_evidence job_keywords chunks rest evidence
      else
        let matched :=
          List.filter (fun k => mem k job_keywords)
                      (_extract_keywords raw_snippet) in
        let snippet :=
          if is_empty matched then raw_snippet
          else raw_snippet ++ "  | matched: " ++ join ", " matched in
        let evidence := evidence ++ [snippet] in
        if (3 <=? length evidence)%nat then evidence
        else collect_evidence job_keywords chunks rest evidence
  end.

(** [np.argsort(chunk_scores)[-5:][::-1]] *)
Definition top_indices (chunk_scores : list Q) : list nat :=
  rev (last_n 5 (np_argsort chunk_scores)).

(** The snippet recorded for one matched keyword. *)
Definition skill_snippet (raw_text : text) (chunks : list text) (k : text)
  : text :=
  let snippet :=
    match List.find (fun line => contains (lower line) k)
                    (splitlines raw_text) with
    | Some line => prefix_slice 200 (strip line)
    | None => ""
    end in
  let snippet :=
    if is_empty snippet && negb (is_empty chunks) then
      match List.find (fun ch => contains (lower ch) k) chunks with
      | Some ch => prefix_slice 200 (strip ch)
      | None => snippet
      end
    else snippet in
  if is_empty snippet then "found" else snippet.







(** [int(min(100, max(0, combined_score * 100)))] *)
Definition match_percentage_of (combined_score : Q) : Z :=
  py_int (py_min 100 (py_max 0 (combined_score * 100))).

Definition combined_score_of (semantic_score skill_match_ratio : Q) : Q :=
  ((85 # 100) * semantic_score + (15 # 100) * skill_match_ratio)%Q.

Definition clamp (lo hi x : Z) : Z := Z.max lo (Z.min hi x).


(** One processed resume, as [sort_resumes] builds it. *)
Record processed_resume := {
  pr_name : text;
  pr_filename : text;
  pr_raw_text : text;
  pr_entities : gmap string (list text);
  pr_summary : text;
  pr_skills : list text;
  pr_education : list text }.

(** One entry of the list that [score_resumes] returns. *)
Record scored_resume := {
  name : text;
  filename : text;
  score : Q;
  semantic_score : Q;
  skill_match_ratio : Q;
  match_percentage : Z;
  summary : text;
  skills : list text;
  experience : list text;
  education : list text;
  feedback : text;
  evidence : list text;
  improvements : list text;
  jd_skills : list text;
  missing_skills : list text;
  skill_evidence : gmap text text;
  experience_signal : Q;
  raw_text : text }.

Section WithModel.

(** The sentence-embedding model: [model.encode] may raise, the cosine
    similarity of two embeddings is a number. *)
Context {embedding : Type}.
Variable encode : text -> option embedding.
Variable cos_sim : embedding -> embedding -> Q.

(** The similarity loop over the chunks. *)
Definition chunk_similarities (job_embedding : embedding)
    (chunks : list text) : option (list Q) :=
  mapM (fun chunk =>
          chunk_embedding ← encode chunk;
          Some (cos_sim job_embedding chunk_embedding))
       chunks.

(** The body of the loop over [processed_resumes]. *)
Definition score_one (job_description : text) (job_embedding : embedding)
    (resume_data : processed_resume) : option scored_resume :=
  let raw_text := pr_raw_text resume_data in
  let chunks := Chunker._create_chunks raw_text 500 in
  chunk_scores ← chunk_similarities job_embedding chunks;
  let semantic_score :=
    if is_empty chunk_scores then 0%Q else np_mean chunk_scores in
  let evidence :=
    if is_empty chunk_scores then []
    else collect_evidence (_extract_keywords job_description) chunks
           (top_indices chunk_scores) [] in
  let skills :=
    if is_empty (pr_skills resume_data)
    then _extract_matching_skills raw_text job_description
    else pr_skills resume_data in
  let job_keywords := _extract_keywords job_description in
  let resume_keywords := _extract_keywords raw_text in
  let common := List.filter (fun k => mem k resume_keywords) job_keywords in
  let skill_match_count := length common in
  let skill_match_ratio :=
    if is_empty job_keywords then 0%Q
    else (inject_Z (Z.of_nat skill_match_count)
          / inject_Z (Z.of_nat (length job_keywords)))%Q in
  let missing_skills :=
    List.filter (fun k => negb (mem k resume_keywords)) job_keywords in
  let skill_evidence : gmap text text :=
    list_to_map (List.map (fun k => (k, skill_snippet raw_text chunks k)) common) in
  let combined_score := combined_score_of semantic_score skill_match_ratio in
  let organizations := entity_list (pr_entities resume_data) "ORG" in
  Some {|
    name := pr_name resume_data;
    filename := pr_filename resume_data;
    score := combined_score;
    semantic_score := semantic_score;
    skill_match_ratio := skill_match_ratio;
    match_percentage := match_percentage_of combined_score;
    summary := pr_summary resume_data;
    skills := skills;
    experience := firstn 5 organizations;
    education :=
      firstn 3 (if is_empty (pr_education resume_data)
                then entity_list (pr_entities resume_data) "EDUCATION"
                else pr_education resume_data);
    feedback :=
      _generate_feedback semantic_score skill_match_ratio skills
        (pr_entities resume_data);
    evidence := evidence;
    improvements :=
      _generate_improvements job_keywords resume_keywords skills;
    jd_skills := job_keywords;
    missing_skills := missing_skills;
    skill_evidence := skill_evidence;
    experience_signal :=
      py_min 1 (inject_Z (Z.of_nat (length organizations)) / 8);
    raw_text := raw_text |}.

(** [ResumeScorer.score_resumes]; [None] when the model raises. *)
Definition score_resumes (job_description : text)
    (processed_resumes : list processed_resume)
  : option (list scored_resume) :=
  job_embedding ← encode job_description;
  scored_resumes ← mapM (score_one job_description job_embedding)
                        processed_resumes;
  Some (sort_desc match_percentage scored_resumes).

End WithModel.

End Scorer.

(** ** Conversation cache: [ChatStore] in [main.py] *)

(** [l[start:]] for any integer [start]. *)
Definition slice_from {A} (start : Z) (l : list A) : list A :=
  if (start <? 0)%Z
  then skipn (Z.to_nat (Z.of_nat (length l) + start)) l
  else skipn (Z.to_nat start) l.

Module ChatStore.

Record message := { role : text; body : text; ts : Q }.

Record entry := { messages : list message; updated : Q }.

Record t := {
  ttl : Z;
  max_messages : Z;
  data : gmap text entry }.

(** [ChatStore()] with the defaults of [__init__]. *)
Definition create : t :=
  {| ttl := 86400; max_messages := 60; data := ∅ |}.

(** [add(cid, role, text)], with [now] the reading of [time.time()]. *)
Definition add (now : Q) (cid role text : text) (s : t) : t :=
  let entry := default {| messages := []; updated := 0 |} (data s !! cid) in
  let msgs := messages entry ++ [{| role := role; body := text; ts := now |}] in
  let msgs :=
    if (max_messages s <? Z.of_nat (length msgs))%Z
    then slice_from (- max_messages s) msgs
    else msgs in
  {| ttl := ttl s;
     max_messages := max_messages s;
     data := <[cid := {| messages := msgs; updated := now |}]> (data s) |}.

(** [get(cid)]: the transcript as (role, text) pairs, and the store
    after the read. *)
Definition get (now : Q) (cid : text) (s : t) : list (text * text) * t :=
  match data s !! cid with
  | None => ([], s)
  | Some entry =>
      if Qltb (inject_Z (ttl s)) (now - updated entry)
      then ([], {| ttl := ttl s;
                   max_messages := max_messages s;
                   data := delete cid (data s) |})
      else (List.map (fun m => (role m, body m)) (messages entry), s)
  end.

(** The messages kept by [add] for the conversation it writes to. *)
Definition kept (s : t) (old : list message) (m : message) : list message :=
  if (max_messages s <? Z.of_nat (length (old ++ [m])))%Z
  then slice_from (- max_messages s) (old ++ [m])
  else old ++ [m].

End ChatStore.

(** ** Ranking endpoint: [sort_resumes] in [main.py] *)

Module Api.

Record upload := { up_filename : text; up_content : list Byte.byte }.

(** A response, or the [HTTPException] that aborts the request. *)
Inductive response (A : Type) :=
| Ok (a : A)
| HttpError (status_code : Z) (detail : text).
Arguments Ok {A} a.
Arguments HttpError {A} status_code detail.

Record Candidate := {
  id : text;
  name : text;
  filename : text;
  score : Q;
  matchPercentage : Z;
  semanticScore : Q;
  skillMatchRatio : Q;
  experienceSignal : Q;
  summary : text;
  extractedSkills : list text;
  extractedExperience : list text;
  extractedEducation : list text;
  feedback : text;
  evidence : list text;
  improvements : list text;
  jdSkills : list text;
  missingSkills : list text;
  skillEvidence : gmap text text;
  rawText : text }.

Record SortResponse := {
  candidates : list Candidate;
  jobDescription : text;
  analysisTime : Q }.

(** What one request draws from its surroundings: the identifiers that
    [uuid.uuid4()] hands out, in order, and the two clock readings. *)
Record request_env := {
  uuid4 : nat -> text;
  start_time : Q;
  end_time : Q }.

Definition to_candidate (fresh_id : text) (score_data : Scorer.scored_resume)
  : Candidate :=
  {| id := fresh_id;
     name := Scorer.name score_data;
     filename := Scorer.filename score_data;
     score := Scorer.score score_data;
     matchPercentage := Scorer.match_percentage score_data;
     semanticScore := Scorer.semantic_score score_data;
     skillMatchRatio := Scorer.skill_match_ratio score_data;
     experienceSignal := Scorer.experience_signal score_data;
     summary := Scorer.summary score_data;
     extractedSkills := Scorer.skills score_data;
     extractedExperience := Scorer.experience score_data;
     extractedEducation := Scorer.education score_data;
     feedback := Scorer.feedback score_data;
     evidence := Scorer.evidence score_data;
     improvements := Scorer.improvements score_data;
     jdSkills := Scorer.jd_skills score_data;
     missingSkills := Scorer.missing_skills score_data;
     skillEvidence := Scorer.skill_evidence score_data;
     rawText := Scorer.raw_text score_data |}.

(** The score data that a candidate carries: every field but [id]. *)
Definition score_data_of (c : Candidate) : Scorer.scored_resume :=
  {| Scorer.name := name c;
     Scorer.filename := filename c;
     Scorer.score := score c;
     Scorer.semantic_score := semanticScore c;
     Scorer.skill_match_ratio := skillMatchRatio c;
     Scorer.match_percentage := matchPercentage c;
     Scorer.summary := summary c;
     Scorer.skills := extractedSkills c;
     Scorer.experience := extractedExperience c;
     Scorer.education := extractedEducation c;
     Scorer.feedback := feedback c;
     Scorer.evidence := evidence c;
     Scorer.improvements := improvements c;
     Scorer.jd_skills := jdSkills c;
     Scorer.missing_skills := missingSkills c;
     Scorer.skill_evidence := skillEvidence c;
     Scorer.experience_signal := experienceSignal c;
     Scorer.raw_text := rawText c |}.


Section WithServices.

Context {embedding : Type}.
Variable encode : text -> option embedding.
Variable cos_sim : embedding -> embedding -> Q.

(** [ResumeProcessor]: text extraction and enrichment.  Each call sits
    inside the per-file [try] and may raise ([None]). *)
Variable extract_text : list Byte.byte -> text -> option text.
Variable extract_entities : text -> option (gmap string (list text)).
Variable generate_summary : text -> option text.
Variable extract_skills : text -> option (list text).
Variable extract_education : text -> option (list text).

(** The display-name heuristic [_infer_name(entities, text, filename)]:
    a pure function that never raises; no property below depends on the
    name it picks. *)
Variable _infer_name : gmap string (list text) -> text -> text -> text.

(** The body of the loop over the uploaded files: [None] when the file
    is skipped by a [continue]. *)
Definition process_upload (resume_file : upload)
  : option Scorer.processed_resume :=
  if is_empty (up_filename resume_file) then None
  else
    let content := up_content resume_file in
    if is_empty content then None
    else
      resume_text ← extract_text content (up_filename resume_file);
      if is_empty resume_text then None
      else
        entities ← extract_entities resume_text;
        summary ← generate_summary resume_text;
        skills ← extract_skills resume_text;
        education ← extract_education resume_text;
        let name := _infer_name entities resume_text (up_filename resume_file) in
        Some {| Scorer.pr_name := name;
                Scorer.pr_filename := up_filename resume_file;
                Scorer.pr_raw_text := resume_text;
                Scorer.pr_entities := entities;
                Scorer.pr_summary := summary;
                Scorer.pr_skills := skills;
                Scorer.pr_education := education |}.

(** [sort_resumes(job_description, resumes)].  The detail of the 500
    response carries the text of the exception, which is not
    modelled. *)
Definition sort_resumes (env : request_env) (job_description : text)
    (resumes : list upload) : response SortResponse :=
  if is_empty job_description || is_empty (strip job_description)
  then HttpError 400 "Job description cannot be empty"
  else if is_empty resumes
  then HttpError 400 "At least one resume must be provided"
  else
    let processed_resumes := omap process_upload resumes in
    if is_empty processed_resumes
    then HttpError 400 "No valid resumes could be processed"
    else
      match Scorer.score_resumes encode cos_sim job_description
              processed_resumes with
      | None => HttpError 500 "Internal server error"
      | Some scores_data =>
          let candidates :=
            imap (fun idx score_data => to_candidate (uuid4 env idx) score_data)
                 scores_data in
          Ok {| candidates := sort_desc matchPercentage candidates;
                jobDescription := job_description;
                analysisTime := (end_time env - start_time env)%Q |}
      end.

End WithServices.

End Api.

(** ** Regular expressions: the fragment of Python's [re] used by [main.py] *)

Module Re.

(** Patterns.  [Rep lo hi r] is the greedy [r{lo,hi}] ([hi = None] for
    no upper bound), [Alt] tries its left branch first, [Grp n r] is the
    [n]-th capturing group, [WordB] is [\b] and [Bol] is [^]. *)
Inductive re :=
| Eps
| Chr (p : ascii -> bool)
| Seq (r1 r2 : re)
| Alt (r1 r2 : re)
| Rep (lo : nat) (hi : option nat) (r : re)
| WordB
| Bol
| Grp (n : nat) (r : re).

(** A position in the subject: the character before it ([None] at the
    start), what is left to read, and the groups captured so far. *)
Record mstate := {
  prev : option ascii;
  rest : text;
  groups : list (nat * text) }.

(** [\w] *)
Definition is_word (c : ascii) : bool := py_isalnum c || Ascii.eqb c "_".

Definition at_boundary (st : mstate) : bool :=
  xorb (match prev st with Some c => is_word c | None => false end)
       (match rest st with c :: _ => is_word c | [] => false end).

Definition consumed (st st' : mstate) : text :=
  firstn (length (rest st) - length (rest st')) (rest st).

Definition below (n : nat) (hi : option nat) : bool :=
  match hi with
  | None => true
  | Some h => (n <? h)%nat
  end.

(** The greedy repetition of [body], [n] iterations done: one more
    iteration if the bound allows and [body] matches, else (or if what
    follows fails) stop here.  The repeated patterns of the source never
    match the empty string, so an iteration that reads nothing ends the
    repetition, and [fuel], the length of what is left, is never short. *)
Fixpoint rep_loop {R} (body : mstate -> (mstate -> option R) -> option R)
    (lo : nat) (hi : option nat) (k : mstate -> option R)
    (fuel n : nat) (st : mstate) {struct fuel} : option R :=
  let stop := if (lo <=? n)%nat then k st else None in
  match fuel with
  | O => stop
  | S fuel' =>
      if below n hi then
        match body st
                (fun st' =>
                   if (length (rest st') <? length (rest st))%nat
                   then rep_loop body lo hi k fuel' (S n) st' else None) with
        | Some x => Some x
        | None => stop
        end
      else stop
  end.

(** Backtracking matcher: [k] is what remains to be matched. *)
Fixpoint run {R} (r : re) (st : mstate) (k : mstate -> option R) : option R :=
  match r with
  | Eps => k st
  | Chr p =>
      match rest st with
      | c :: cs =>
          if p c then k {| prev := Some c; rest := cs; groups := groups st |}
          else None
      | [] => None
      end
  | Seq r1 r2 => run r1 st (fun st' => run r2 st' k)
  | Alt r1 r2 =>
      match run r1 st k with
      | Some x => Some x
      | None => run r2 st k
      end
  | Rep lo hi r1 => rep_loop (run r1) lo hi k (length (rest st)) 0%nat st
  | WordB => if at_boundary st then k st else None
  | Bol => match prev st with None => k st | Some _ => None end
  | Grp n r1 =>
      run r1 st
        (fun st' =>
           k {| prev := prev st'; rest := rest st';
                groups := (n, consumed st st') :: groups st' |})
  end.

(** Moving forward: what a successful run hands to its continuation is a
    position further in the subject. *)
Definition forward {R}
    (body : mstate -> (mstate -> option R) -> option R) : Prop :=
  forall st k x,
    body st k = Some x ->
    exists st', rest st' `suffix_of` rest st /\ k st' = Some x.

(** A match starting exactly at [st]. *)
Definition match_at (r : re) (st : mstate) : option mstate :=
  run r st Some.

(** [m.group(n)], the empty text when the group took no part. *)
Definition group (n : nat) (st : mstate) : text :=
  match List.find (fun g => (fst g =? n)%nat) (groups st) with
  | Some g => snd g
  | None => ""
  end.

(** The subject cut into the characters outside any match and the
    successive non-overlapping matches, left to right.  No pattern of the
    source matches the empty string; an empty match is passed over. *)
Inductive piece :=
| Skip (c : ascii)
| Hit (matched : text) (final : mstate).

Fixpoint scan (fuel : nat) (r : re) (before : option ascii) (s : text)
  : list piece :=
  match fuel with
  | O => []
  | S fuel' =>
      let st := {| prev := before; rest := s; groups := [] |} in
      match match_at r st with
      | Some st' =>
          if (length (rest st') <? length s)%nat
          then Hit (consumed st st') st' :: scan fuel' r (prev st') (rest st')
          else match s with
               | [] => []
               | c :: s' => Skip c :: scan fuel' r (Some c) s'
               end
      | None =>
          match s with
          | [] => []
          | c :: s' => Skip c :: scan fuel' r (Some c) s'
          end
      end
  end.

Definition pieces (r : re) (s : text) : list piece :=
  scan (S (length s)) r None s.

(** The text that a list of pieces was cut from. *)
Definition source_of (ps : list piece) : text :=
  flat_map (fun p => match p with Skip c => [c] | Hit m _ => m end) ps.

(** [re.sub(r, repl, s)] for a replacement without group references. *)
Definition sub (r : re) (repl : text) (s : text) : text :=
  flat_map (fun p => match p with Skip c => [c] | Hit _ _ => repl end)
           (pieces r s).

(** The final states of [re.finditer(r, s)] with the matched texts. *)
Definition finditer (r : re) (s : text) : list (text * mstate) :=
  omap (fun p => match p with Skip _ => None | Hit m st => Some (m, st) end)
       (pieces r s).

(** [re.search(r, s)] as a truth value. *)
Definition search (r : re) (s : text) : bool :=
  negb (is_empty (finditer r s)).

(** [re.split(r, s)] for a pattern without groups. *)
Fixpoint split_pieces (current : text) (ps : list piece) : list text :=
  match ps with
  | [] => [current]
  | Skip c :: ps' => split_pieces (current ++ [c]) ps'
  | Hit _ _ :: ps' => current :: split_pieces [] ps'
  end.

Definition split (r : re) (s : text) : list text :=
  split_pieces [] (pieces r s).

(** [re.fullmatch(r, s)] as a truth value. *)
Definition fullmatch (r : re) (s : text) : bool :=
  match run r {| prev := None; rest := s; groups := [] |}
            (fun st' => if is_empty (rest st') then Some st' else None) with
  | Some _ => true
  | None => false
  end.

(** Pattern syntax. *)
Definition chr (c : ascii) : re := Chr (Ascii.eqb c).
Definition chr_i (c : ascii) : re :=
  Chr (fun x => Ascii.eqb (lower_char x) (lower_char c)).
Definition one_of (cs : text) : ascii -> bool :=
  fun x => existsb (Ascii.eqb x) cs.
Fixpoint lit (s : text) : re :=
  match s with
  | [] => Eps
  | [c] => chr c
  | c :: s' => Seq (chr c) (lit s')
  end.
Fixpoint lit_i (s : text) : re :=
  match s with
  | [] => Eps
  | [c] => chr_i c
  | c :: s' => Seq (chr_i c) (lit_i s')
  end.
Definition star (r : re) : re := Rep 0 None r.
Definition plus (r : re) : re := Rep 1 None r.
Definition opt (r : re) : re := Rep 0 (Some 1%nat) r.
Definition digit : re := Chr is_ascii_digit.
Definition space : re := Chr py_isspace.
Definition nonspace : re := Chr (fun c => negb (py_isspace c)).
Definition word : re := Chr is_word.
Fixpoint seq_of (rs : list re) : re :=
  match rs with
  | [] => Eps
  | [r] => r
  | r :: rs' => Seq r (seq_of rs')
  end.
Fixpoint alt_of (rs : list re) : re :=
  match rs with
  | [] => Eps
  | [r] => r
  | r :: rs' => Alt r (alt_of rs')
  end.

End Re.

(** ** Question answering endpoint: [candidate_ask] in [main.py] *)

Module Ask.
Import Re.

(** The patterns, in the order the source uses them. *)

(** [\(cid:\d+\)], ignoring case *)
Definition p_cid_paren : re :=
  seq_of [lit_i "(cid:"; plus digit; chr ")"].

(** [\bcid:\d+\b], ignoring case *)
Definition p_cid : re := seq_of [WordB; lit_i "cid:"; plus digit; WordB].

(** [https?://\S+|www\.\S+], ignoring case *)
Definition p_url_i : re :=
  Alt (seq_of [lit_i "http"; opt (chr_i "s"); lit "://"; plus nonspace])
      (seq_of [lit_i "www."; plus nonspace]).

(** [https?://\S+|www\.\S+] *)
Definition p_url : re :=
  Alt (seq_of [lit "http"; opt (chr "s"); lit "://"; plus nonspace])
      (seq_of [lit "www."; plus nonspace]).

Definition word_dot_dash : re :=
  Chr (fun c => is_word c || Ascii.eqb c "." || Ascii.eqb c "-").

(** [\b[\w\.-]+@[\w\.-]+\.\w+\b] *)
Definition p_email : re :=
  seq_of [WordB; plus word_dot_dash; chr "@"; plus word_dot_dash; chr ".";
          plus word; WordB].

(** [\+?\d[\d\-\s]{7,}\d] *)
Definition p_phone : re :=
  seq_of [opt (chr "+"); digit;
          Rep 7 None (Chr (fun c => is_ascii_digit c || Ascii.eqb c "-"
                                    || py_isspace c));
          digit].

(** [\s{2,}] *)
Definition p_spaces : re := Rep 2 None space.

(** [[\n\r]+] *)
Definition p_newlines : re :=
  plus (Chr (fun c => (code c =? 10)%N || (code c =? 13)%N)).

(** [^\s*[-*\d]+[.)]?\s*] *)
Definition p_bullet : re :=
  seq_of [Bol; star space;
          plus (Chr (fun c => Ascii.eqb c "-" || Ascii.eqb c "*"
                              || is_ascii_digit c));
          opt (Chr (one_of ".)")); star space].

(** [(?i)(projects?|experience|work experience|education|skills|achievements|certifications)\b[:\-]?] *)
Definition p_heading : re :=
  seq_of [Grp 1 (alt_of [Seq (lit_i "project") (opt (chr_i "s"));
                         lit_i "experience"; lit_i "work experience";
                         lit_i "education"; lit_i "skills";
                         lit_i "achievements"; lit_i "certifications"]);
          WordB; opt (Chr (one_of ":-"))].

(** [[A-Za-z]{4,}] *)
Definition p_token : re := Rep 4 None (Chr is_ascii_letter).

(** [[\.!\?]\s+] *)
Definition p_sentence_end : re := Seq (Chr (one_of ".!?")) (plus space).

(** [\b(\d{1,2})\s*\+?\s*years?\b], ignoring case *)
Definition p_years : re :=
  seq_of [WordB; Grp 1 (Rep 1 (Some 2%nat) digit); star space;
          opt (chr "+"); star space; lit_i "year"; opt (chr_i "s"); WordB].

Definition gpa_word : re := Grp 1 (Alt (lit_i "CGPA") (lit_i "GPA")).

(** [\b(CGPA|GPA)\s*[:\-]?\s*(\d+(?:\.\d+)?)], ignoring case *)
Definition p_gpa_value : re :=
  seq_of [WordB; gpa_word; star space; opt (Chr (one_of ":-")); star space;
          Grp 2 (Seq (plus digit) (opt (Seq (chr ".") (plus digit))))].

(** [\b(CGPA|GPA)\b], ignoring case *)
Definition p_gpa_word : re := seq_of [WordB; gpa_word; WordB].

(** The cleanup of the resume text at the head of [candidate_ask]. *)
Definition clean_text (resume_text : text) : text :=
  let txt := sub p_cid_paren "" resume_text in
  let txt := sub p_cid "" txt in
  let txt := sub p_url_i "" txt in
  let txt := sub p_email "" txt in
  let txt := sub p_phone "" txt in
  sub p_spaces " " txt.

Definition count_if {A} (p : A -> bool) (l : list A) : nat :=
  length (List.filter p l).

(** The local helper [is_noise]. *)
Definition is_noise (s : text) : bool :=
  let l := lower s in
  if contains_any_of l ["email"; "phone"; "linkedin"; "github"; "http";
                        "https"; "@"; "+91"; "+1 "; "www."] then true
  else if contains_any_of l [".com"; ".net"; ".org"; ".in/"; ".io"] then true
  else if (length s <? 25)%nat then true
  else if (3 <=? count_if (one_of "|:/@") s)%nat then true
  else
    let letters := count_if py_isalpha s in
    let digits := count_if py_isdigit s in
    negb (letters =? 0)%nat
    && Qltb (7 # 10)
            (inject_Z (Z.of_nat digits)
             / inject_Z (Z.of_nat (Nat.max 1 letters))).

Definition nonblank (s : text) : bool := negb (is_empty (strip s)).

(** [raw_lines] and [lines]. *)
Definition raw_lines_of (txt : text) : list text :=
  List.map strip (List.filter nonblank (split p_newlines txt)).

Definition lines_of (txt : text) : list text :=
  List.filter (fun l => negb (is_empty l) && negb (is_noise l))
    (List.map (fun ln => strip (sub p_bullet "" ln)) (raw_lines_of txt)).

(** [headings]: the indexed lines that are section headings. *)
Definition headings_of (lines : list text) : list (nat * text) :=
  List.map (fun il => (fst il, lower (snd il)))
    (List.filter (fun il => fullmatch p_heading (snd il))
                 (combine (seq 0 (length lines)) lines)).

(** [lines[start:stop]] for in-range bounds. *)
Definition slice {A} (start stop : nat) (l : list A) : list A :=
  firstn (stop - start) (skipn start l).

(** The local helper [section_slice(name, max_len)]. *)
Definition section_slice (lines : list text) (headings : list (nat * text))
    (name : text) (max_len : nat) : list text :=
  let targets := List.filter (fun ih => contains (snd ih) name) headings in
  match targets with
  | [] => []
  | first :: _ =>
      let start := S (fst first) in
      let stop := List.find (fun ih => (start <? fst ih)%nat) headings in
      let seg :=
        match stop with
        | Some ih => slice start (fst ih) lines
        | None => slice start (start + max_len) lines
        end in
      let cleaned :=
        List.filter (fun s2 => negb (is_empty s2) && negb (is_noise s2))
          (List.map (fun s => strip (sub p_email "" (sub p_url "" s))) seg) in
      firstn max_len cleaned
  end.

(** The [history] form field after [json.loads]: absent or empty, not
    a list of objects (any exception inside the [try]), or the list of
    its (role, text) pairs. *)
Inductive history_field :=
| NoHistory
| Malformed
| Items (items : list (text * text)).

(** The conversation context [ctx]. *)
Definition context_of (server_hist : list (text * text))
    (history : history_field) : text :=
  match history with
  | NoHistory => ""
  | Malformed => ""
  | Items items =>
      let merged := last_n 10 server_hist ++ last_n 10 items in
      let pairs :=
        flat_map
          (fun it =>
             let r := fst it in
             let t := strip (snd it) in
             if is_empty t then []
             else if is_noise t then []
             else [(if text_eqb r "user" then "User:" else "Assistant:")
                   ++ " " ++ t])
          (last_n 10 merged) in
      join " | " pairs
  end.

Definition query_of (ctx q : text) : text :=
  (if is_empty ctx then "" else ctx ++ " | ") ++ q.

(** [kw]: the lower-cased words of four letters or more of the query. *)
Definition keywords_of (q_query : text) : gset text :=
  list_to_set (List.map (fun m => lower (fst m)) (finditer p_token q_query)).

Definition sentences_of_chunk (ch : text) : list text :=
  List.map strip (List.filter nonblank (split p_sentence_end ch)).

(** The sentences of one chunk with their boosted scores. *)
Definition score_sentences (kw : gset text) (sim : Q) (ch : text)
  : list (Q * text) :=
  List.map
    (fun sent =>
       let sl := lower sent in
       let hits := count_if (fun t => contains sl t) (elements kw) in
       let boost :=
         if (hits =? 0)%nat then 0%Q
         else py_min (1 # 10) ((2 # 100) * inject_Z (Z.of_nat hits)) in
       ((sim + boost)%Q, sent))
    (List.filter (fun sent => negb (is_noise sent)) (sentences_of_chunk ch)).

(** [scored.sort(key=lambda x: x[0], reverse=True)] *)
Definition sort_scored (scored : list (Q * text)) : list (Q * text) :=
  stable_sort (fun x y => negb (Qltb (fst x) (fst y))) scored.

(** The loop keeping the three best distinct sentences. *)
Fixpoint top_unique (scored : list (Q * text)) (seen : list text)
    (top_sents : list (Q * text)) : list (Q * text) :=
  match scored with
  | [] => top_sents
  | (sim, sent) :: scored' =>
      let s := prefix_slice 250 sent in
      if Scorer.mem (lower s) seen then top_unique scored' seen top_sents
      else
        let top_sents := top_sents ++ [(sim, s)] in
        if (3 <=? length top_sents)%nat then top_sents
        else top_unique scored' (lower s :: seen) top_sents
  end.

(** The local helper [contains_any(text, words)]. *)
Definition contains_any (t : text) (words : list text) : bool :=
  contains_any_of (lower t) words.

(** Collect [f s] for the [s] satisfying [p] until [limit] are found. *)
Fixpoint take_matching {A B} (p : A -> bool) (f : A -> B) (limit : nat)
    (l : list A) (acc : list B) : list B :=
  match l with
  | [] => acc
  | x :: l' =>
      if p x then
        let acc := acc ++ [f x] in
        if (limit <=? length acc)%nat then acc
        else take_matching p f limit l' acc
      else take_matching p f limit l' acc
  end.

Definition leadership_terms : list text :=
  ["lead"; "leader"; "managed"; "manage"; "team lead"; "leadership";
   "supervis"; "responsib"; "owned"; "ownership"; "accountable";
   "coordinated"; "organized"].

Definition leadership_evidence_terms : list text :=
  ["led"; "managed"; "team lead"; "leadership"; "supervised"; "mentored";
   "responsible for"; "owned"; "coordinated"; "organized"].

Definition experience_terms : list text := ["year"; "experience"; "exp"].

Definition gpa_terms : list text := ["cgpa"; "gpa"].

Definition education_terms : list text :=
  ["education"; "college"; "university"; "degree"; "btech"; "b.tech";
   "b sc"; "bsc"; "mtech"; "m.tech"; "msc"; "b.e"; "be"].

Definition education_line_terms : list text :=
  ["university"; "college"; "institute"; "school"; "b.tech"; "btech";
   "b.e"; "be"; "m.tech"; "mtech"; "m.sc"; "msc"; "b.sc"; "bsc"; "cgpa";
   "gpa"].

Definition institution_terms : list text :=
  ["university"; "college"; "institute"; "school"].

Definition project_terms : list text :=
  ["project"; "projects"; "web"; "website"; "frontend"; "backend";
   "full stack"; "fullstack"; "react"; "node"; "django"; "flask"; "html";
   "css"; "javascript"; "typescript"; "api"; "machine learning"; "ml";
   "deep learning"; "cnn"; "lstm"; "pytorch"; "tensorflow"].

Definition web_kw : list text :=
  ["web"; "website"; "frontend"; "backend"; "full stack"; "fullstack";
   "react"; "next"; "node"; "express"; "django"; "flask"; "html"; "css";
   "javascript"; "typescript"; "api"].

Definition ml_kw : list text :=
  ["machine learning"; "ml"; "deep learning"; "cnn"; "lstm"; "pytorch";
   "tensorflow"; "model"; "classification"; "prediction"].

Definition action_terms : list text :=
  ["built"; "developed"; "implemented"; "designed"; "created";
   "classification"; "prediction"; "api"; "app"; "web"; "model"].

(** [int(y)] for a text of decimal digits. *)
Definition int_of_digits (y : text) : Z :=
  fold_left (fun acc c => (acc * 10 + (Z.of_N (code c) - 48))%Z) y 0%Z.

Definition max_of (l : list Z) : Z :=
  match l with
  | [] => 0%Z
  | x :: l' => fold_left Z.max l' x
  end.

(** [str(n)] for an integer that is not negative. *)
Definition text_of_Z (n : Z) : text := text_of_nat (Z.to_nat n).

(** The JSON object that the endpoint returns. *)
Record result := {
  answer : text;
  snippets : list text;
  scores : list Q }.

Definition make_result (answer : text) (top_sents : list (Q * text)) : result :=
  {| answer := strip answer;
     snippets := List.map (fun p => strip (snd p)) top_sents;
     scores := List.map fst top_sents |}.

Definition with_score_one (l : list text) : list (Q * text) :=
  List.map (fun e => (1%Q, e)) l.

(** The intent chain: the answer and the final [top_sents].  The two
    leadership answers hold an em dash (U+2014), which is beyond the
    characters of the model: it is written as its three UTF-8 bytes. *)
Definition dispatch (q txt : text) (lines : list text)
    (headings : list (nat * text)) (kw : gset text)
    (scored top_sents : list (Q * text)) : text * list (Q * text) :=
  let ql := lower q in
  if contains_any ql leadership_terms then
    let evidence :=
      List.map snd
        (List.filter (fun p => contains_any (snd p) leadership_evidence_terms)
                     top_sents) in
    let evidence :=
      if is_empty evidence
      then take_matching
             (fun p : Q * text => contains_any (snd p) leadership_evidence_terms)
             (fun p => prefix_slice 250 (snd p)) 2 (firstn 50 scored) []
      else evidence in
    let answer :=
      if is_empty evidence
      then "Not explicitly mentioned " ++ ["226"; "128"; "148"]%char
           ++ " no clear leadership evidence found."
      else "Yes " ++ ["226"; "128"; "148"]%char
           ++ " shows leadership experience." in
    (answer, with_score_one (firstn 3 evidence))
  else if contains_any ql experience_terms then
    let years := List.map (fun m => group 1 (snd m)) (finditer p_years txt) in
    let answer :=
      if is_empty years
      then "Years of experience are not clearly quantified."
      else "Approximately "
           ++ text_of_Z (max_of (List.map int_of_digits years))
           ++ " years of experience mentioned." in
    let exp_sents :=
      take_matching (fun p : Q * text => search p_years (snd p))
                    (fun p => prefix_slice 250 (snd p)) 3 scored [] in
    (answer, if is_empty exp_sents then top_sents else with_score_one exp_sents)
  else if contains_any ql gpa_terms then
    match finditer p_gpa_value txt with
    | first :: _ =>
        let val := group 2 (snd first) in
        let src := List.find (fun l => search p_gpa_word l) lines in
        ("CGPA/GPA: " ++ val,
         match src with
         | Some l => if is_empty l then [] else [(1%Q, prefix_slice 200 l)]
         | None => []
         end)
    | [] => ("CGPA/GPA not explicitly mentioned.", [])
    end
  else if contains_any ql education_terms then
    let edu_lines := section_slice lines headings "education" 12 in
    let edu_lines :=
      if is_empty edu_lines
      then take_matching
             (fun line => contains_any_of (lower line) education_line_terms)
             (prefix_slice 200) 3 lines []
      else edu_lines in
    match edu_lines with
    | [] => ("Education details not clearly found.", top_sents)
    | first :: _ =>
        let inst :=
          List.filter (fun e => contains_any_of (lower e) institution_terms)
                      edu_lines in
        ("Education: " ++ match inst with i :: _ => i | [] => first end,
         with_score_one (firstn 3 edu_lines))
    end
  else if contains_any ql project_terms then
    let want_web := contains_any ql web_kw in
    let want_ml := contains_any ql ml_kw in
    let proj_lines := section_slice lines headings "project" 18 in
    let proj_lines :=
      if is_empty proj_lines
      then take_matching
             (fun line =>
                let ll := lower line in
                contains ll "project" || contains_any_of ll (web_kw ++ ml_kw))
             (prefix_slice 200) 8 lines []
      else proj_lines in
    let filtered :=
      take_matching
        (fun pl =>
           let pll := lower pl in
           negb (want_web && negb (contains_any_of pll web_kw))
           && negb (want_ml && negb (contains_any_of pll ml_kw))
           && negb (negb (contains pll "project")
                    && negb (contains_any_of pll action_terms)))
        (fun pl => pl) 3 proj_lines [] in
    match proj_lines with
    | [] => ("No explicit projects matching that topic were found.", top_sents)
    | _ :: _ =>
        let use := if is_empty filtered then firstn 3 proj_lines else filtered in
        let head := match use with u :: _ => u | [] => "" end in
        ((if want_web then "Web projects: "
          else if want_ml then "ML projects: " else "Projects: ") ++ head,
         with_score_one use)
    end
  else
    let filtered :=
      List.filter
        (fun p => existsb (fun k => contains (lower (snd p)) k) (elements kw))
        top_sents in
    if is_empty filtered
    then ("I couldn't find specific information related to your question.", [])
    else ("From the resume: " ++ join "; " (List.map snd (firstn 2 filtered)),
          top_sents).

(** The clock readings of one request: at the cache read and at the two
    cache writes. *)
Record ask_env := {
  now_read : Q;
  now_user : Q;
  now_assistant : Q }.

Section WithModel.

Context {embedding : Type}.
Variable encode : text -> option embedding.
Variable cos_sim : embedding -> embedding -> Q.

(** The loop over the chunks that fills [scored]. *)
Definition score_chunks (q_emb : embedding) (kw : gset text)
    (chunks : list text) : option (list (Q * text)) :=
  per_chunk ← mapM (fun ch =>
                      ch_emb ← encode ch;
                      Some (score_sentences kw (cos_sim q_emb ch_emb) ch))
                   chunks;
  Some (concat per_chunk).

(** [candidate_ask(question, resume_text, candidate_id, history)] on
    the store [chat_store]: the response ([None] when the model
    raises, which no handler catches) and the store afterwards. *)
Definition candidate_ask (env : ask_env) (chat_store : ChatStore.t)
    (question resume_text : text) (candidate_id : option text)
    (history : history_field) : option result * ChatStore.t :=
  let q := strip question in
  let txt := clean_text resume_text in
  let lines := lines_of txt in
  let headings := headings_of lines in
  let chunks := Chunker._create_chunks txt 400 in
  let has_id :=
    match candidate_id with Some cid => negb (is_empty cid) | None => false end in
  let cid := default "" candidate_id in
  let '(server_hist, chat_store) :=
    if has_id then ChatStore.get (now_read env) cid chat_store
    else ([], chat_store) in
  let ctx := context_of server_hist history in
  let q_query := query_of ctx q in
  match encode q_query with
  | None => (None, chat_store)
  | Some q_emb =>
      let kw := keywords_of q_query in
      match score_chunks q_emb kw chunks with
      | None => (None, chat_store)
      | Some scored =>
          let scored := sort_scored scored in
          let top_sents := top_unique scored [] [] in
          let '(answer, top_sents) :=
            dispatch q txt lines headings kw scored top_sents in
          let result := make_result answer top_sents in
          let chat_store :=
            if has_id then
              ChatStore.add (now_assistant env) cid "assistant" (strip answer)
                (ChatStore.add (now_user env) cid "user" q chat_store)
            else chat_store in
          (Some result, chat_store)
      end
  end.

(** The response as a function of the transcript read from the cache:
    what [candidate_ask] computes between its read and its writes. *)
Definition respond (server_hist : list (text * text))
    (question resume_text : text) (history : history_field)
  : option (text * result) :=
  let q := strip question in
  let txt := clean_text resume_text in
  let lines := lines_of txt in
  let headings := headings_of lines in
  let chunks := Chunker._create_chunks txt 400 in
  let q_query := query_of (context_of server_hist history) q in
  q_emb ← encode q_query;
  let kw := keywords_of q_query in
  scored ← score_chunks q_emb kw chunks;
  let scored := sort_scored scored in
  let '(answer, top_sents) :=
    dispatch q txt lines headings kw scored (top_unique scored [] []) in
  Some (strip answer, make_result answer top_sents).

End WithModel.

(** The cache read at the head of a request: the transcript and the store
    after the read. *)
Definition cache_read (env : ask_env) (chat_store : ChatStore.t)
    (candidate_id : option text) : list (text * text) * ChatStore.t :=
  match candidate_id with
  | Some cid =>
      if is_empty cid then ([], chat_store)
      else ChatStore.get (now_read env) cid chat_store
  | None => ([], chat_store)
  end.

Definition transcript_read (env : ask_env) (chat_store : ChatStore.t)
    (candidate_id : option text) : list (text * text) :=
  fst (cache_read env chat_store candidate_id).

(** The two cache writes at the end of a request. *)
Definition cache_write (env : ask_env) (candidate_id : option text)
    (q answer : text) (chat_store : ChatStore.t) : ChatStore.t :=
  match candidate_id with
  | Some cid =>
      if is_empty cid then chat_store
      else ChatStore.add (now_assistant env) cid "assistant" answer
             (ChatStore.add (now_user env) cid "user" q chat_store)
  | None => chat_store
  end.


(** A question that reaches the CGPA/GPA rule: it names neither a
    leadership term nor an experience term, and names "cgpa" or "gpa". *)
Definition asks_gpa (question : text) : bool :=
  let ql := lower (strip question) in
  negb (contains_any ql leadership_terms)
  && negb (contains_any ql experience_terms)
  && contains_any ql gpa_terms.

(** The CGPA/GPA values that the rule finds in the cleaned text. *)
Definition gpa_values (resume_text : text) : list text :=
  List.map (fun m => group 2 (snd m))
           (finditer p_gpa_value (clean_text resume_text)).

(** The line that the rule shows: the first kept line naming CGPA or GPA. *)
Definition gpa_line (resume_text : text) : option text :=
  List.find (fun l => search p_gpa_word l) (lines_of (clean_text resume_text)).




(** The letters at the head of a text, and what follows them. *)
Fixpoint split_run (s : text) : text * text :=
  match s with
  | c :: s' =>
      if is_ascii_letter c
      then (c :: fst (split_run s'), snd (split_run s'))
      else ([], s)
  | [] => ([], [])
  end.

(** The matched texts of a scan. *)
Definition hits (ps : list piece) : list text :=
  omap (fun p => match p with Skip _ => None | Hit m _ => Some m end) ps.

End Ask.

(** ** Concrete collaborators and inputs for the examples *)

Module Fixtures.

(** An embedding model that never raises and sees every pair of texts
    as equally similar. *)
Definition encode_text (t : text) : option text := Some t.

Definition flat_similarity (q : Q) (a b : text) : Q := q.

Definition plain_resume (file body : text) : Scorer.processed_resume :=
  {| Scorer.pr_name := file;
     Scorer.pr_filename := file;
     Scorer.pr_raw_text := body;
     Scorer.pr_entities := ∅;
     Scorer.pr_summary := body;
     Scorer.pr_skills := [];
     Scorer.pr_education := [] |}.

(** An embedding model that raises on every text containing [bad]. *)
Definition encode_unless (bad : text) (t : text) : option text :=
  if contains t bad then None else Some t.

(** An extractor that reads the bytes as text and raises on the files
    whose name starts with "corrupt". *)
Definition read_bytes (content : list Byte.byte) (file : text) : option text :=
  if starts_with "corrupt" file then None
  else Some (List.map ascii_of_byte content).

Definition no_entities (t : text) : option (gmap string (list text)) :=
  Some ∅.
Definition no_list (t : text) : option (list text) := Some [].
Definition first_words (t : text) : option text := Some (prefix_slice 20 t).
Definition name_of_file (entities : gmap string (list text)) (t file : text)
  : text := file.

Definition upload_of (file body : text) : Api.upload :=
  {| Api.up_filename := file;
     Api.up_content := List.map byte_of_ascii body |}.

Definition counting_ids (n : nat) : text := "id-" ++ text_of_nat n.

Definition env_at (t0 t1 : Q) : Api.request_env :=
  {| Api.uuid4 := counting_ids; Api.start_time := t0; Api.end_time := t1 |}.

(** [sort_resumes] with these collaborators. *)
Definition sort_resumes_with (encode : text -> option text) (similarity : Q)
    (env : Api.request_env) (job_description : text)
    (resumes : list Api.upload) : Api.response Api.SortResponse :=
  Api.sort_resumes encode (flat_similarity similarity) read_bytes no_entities
    first_words no_list no_list name_of_file env job_description resumes.


(** The default store after [n] user messages "msg-0", "msg-1", ... of
    conversation "c1", all written at time 0. *)
Definition filled_store (n : nat) : ChatStore.t :=
  fold_left
    (fun s i => ChatStore.add 0 "c1" "user" ("msg-" ++ text_of_nat i) s)
    (seq 0 n) ChatStore.create.

Definition bodies (e : ChatStore.entry) : list text :=
  List.map ChatStore.body (ChatStore.messages e).




End Fixtures.

(** ** The conversation cache in use *)

Module Cache.
Import ChatStore.

(** The two operations of the store, as calls. *)
Inductive call :=
| Add (now : Q) (cid role text : text)
| Get (now : Q) (cid : text).

Definition after_call (s : t) (c : call) : t :=
  match c with
  | Add now cid role text => add now cid role text s
  | Get now cid => snd (get now cid s)
  end.

(** The store after a sequence of calls. *)
Definition after_calls (s : t) (calls : list call) : t :=
  fold_left after_call calls s.

(** No conversation holds more messages than the window allows. *)
Definition windowed (s : t) : Prop :=
  forall cid e,
    data s !! cid = Some e ->
    (Z.of_nat (length (messages e)) <= max_messages s)%Z.

End Cache.

(** ** Display names: [_infer_name] in [main.py] *)

Module Naming.

(** [str.isupper] on one character below 256. *)
Definition py_isupper (c : ascii) : bool :=
  is_upper_ascii c || between 192 214 c || between 216 222 c.

(** [str.split()]: the maximal runs of characters that are not white
    space; [current] holds the run being read. *)
Fixpoint words_from (current : text) (s : text) : list text :=
  match s with
  | [] => if is_empty current then [] else [current]
  | c :: s' =>
      if py_isspace c
      then (if is_empty current then [] else [current]) ++ words_from [] s'
      else words_from (current ++ [c]) s'
  end.

Definition words (s : text) : list text := words_from [] s.

(** [max(persons, key=len)] on [first :: others]: the first of the
    longest. *)
Definition longest (first : text) (others : list text) : text :=
  fold_left (fun best p => if (length best <? length p)%nat then p else best)
            others first.

(** [s.replace(a, b)] for two characters. *)
Definition replace_char (a b : ascii) (s : text) : text :=
  List.map (fun c => if Ascii.eqb c a then b else c) s.

(** [s.rfind(c)]: the index of the last [c]. *)
Fixpoint rfind_from (c : ascii) (s : text) (i : nat) (found : option nat)
  : option nat :=
  match s with
  | [] => found
  | x :: s' => rfind_from c s' (S i) (if Ascii.eqb x c then Some i else found)
  end.

Definition rfind (c : ascii) (s : text) : option nat := rfind_from c s 0 None.

(** [os.path.basename] of [posixpath]: what follows the last slash. *)
Definition basename (p : text) : text :=
  match rfind "/" p with
  | Some i => skipn (S i) p
  | None => p
  end.

(** [os.path.splitext(p)[0]] of [posixpath]: [p] up to its last dot,
    when that dot lies in the file name and a character other than a dot
    precedes it there; else [p]. *)
Definition splitext_root (p : text) : text :=
  match rfind "." p with
  | None => p
  | Some dot =>
      let name_start := match rfind "/" p with Some i => S i | None => 0%nat end in
      if (name_start <=? dot)%nat then
        if forallb (Ascii.eqb ".") (Ask.slice name_start dot p) then p
        else firstn dot p
      else p
  end.

Definition header_words : list text :=
  ["resume"; "curriculum"; "profile"; "summary"].

(** "2-5 words, mostly letters, starts with capital". *)
Definition name_like (clean : text) : bool :=
  let parts := words clean in
  (2 <=? length parts)%nat && (length parts <=? 5)%nat
  && match parts with
     | (c :: _) :: _ => py_isalpha c && py_isupper c
     | _ => false
     end.

(** The loop over the first lines of the text. *)
Fixpoint first_name_line (lines : list text) : option text :=
  match lines with
  | [] => None
  | line :: lines' =>
      let clean := strip line in
      if is_empty clean then first_name_line lines'
      else if contains_any_of (lower clean) header_words
      then first_name_line lines'
      else if name_like clean then Some clean
      else first_name_line lines'
  end.

(** The name taken from the [PERSON] entities, if they give one. *)
Definition person_name (entities : gmap string (list text)) : option text :=
  match Scorer.entity_list entities "PERSON" with
  | [] => None
  | p :: ps =>
      let candidate_name := longest p ps in
      let n := length (words candidate_name) in
      if (2 <=? n)%nat && (n <=? 5)%nat then Some (strip candidate_name)
      else None
  end.

(** The name taken from the file name. *)
Definition file_name (filename : text) : text :=
  let base := splitext_root (basename filename) in
  strip (replace_char "-" " " (replace_char "_" " " base)).

Definition _infer_name (entities : gmap string (list text))
    (txt filename : text) : text :=
  match person_name entities with
  | Some name => name
  | None =>
      match first_name_line (firstn 8 (Scorer.splitlines txt)) with
      | Some clean => clean
      | None => file_name filename
      end
  end.

End Naming.

(** ** Resume processing: [processors/resume_processor.py] *)

Module Processor.
Import Re.

Definition newline : ascii := "010"%char.

(** [l.append(x)] under the guard [x not in l]. *)
Definition append_new (l : list text) (x : text) : list text :=
  if Scorer.mem x l then l else l ++ [x].

(** The character limit [text[:500000]]. *)
Definition trimmed (txt : text) : text := firstn (N.to_nat 500000) txt.

(** *** [generate_summary] *)

(** [s.find(c)]: the index of the first [c]. *)
Fixpoint find_char (c : ascii) (s : text) : option nat :=
  match s with
  | [] => None
  | x :: s' => if Ascii.eqb x c then Some 0%nat else option_map S (find_char c s')
  end.

(** The heuristic fallback. *)
Definition heuristic_summary (txt : text) : text :=
  let txt := strip txt in
  if (300 <? length txt)%nat then
    match find_char "." txt with
    | Some period_index =>
        if (50 <? period_index)%nat && (period_index <? 300)%nat
        then firstn (period_index + 1) txt
        else firstn 300 txt ++ "..."
    | None => firstn 300 txt ++ "..."
    end
  else txt.

(** [generate_summary(text)].  The summarizer, when one was loaded, is a
    collaborator: it answers the [summary_text] of its first output, or
    nothing (it raised, or gave no such output). *)
Definition generate_summary (summarizer : option (text -> option text))
    (txt : text) : text :=
  match summarizer with
  | Some summarize =>
      let chunk := firstn 1500 (strip txt) in
      if (100 <? length chunk)%nat then
        match summarize chunk with
        | Some summary_text =>
            if is_empty summary_text then heuristic_summary txt
            else strip summary_text
        | None => heuristic_summary txt
        end
      else heuristic_summary txt
  | None => heuristic_summary txt
  end.

(** *** [extract_skills] *)

Definition technical_skills : list text :=
  [ "python"; "javascript"; "typescript"; "java"; "c++"; "c#"; "php";
    "ruby"; "go"; "rust";
    "sql"; "postgresql"; "mysql"; "mongodb"; "redis"; "elasticsearch";
    "react"; "vue"; "angular"; "nextjs"; "svelte"; "node.js"; "express";
    "django"; "flask";
    "aws"; "azure"; "gcp"; "docker"; "kubernetes"; "jenkins"; "git";
    "gitlab"; "github";
    "html"; "css"; "scss"; "tailwind"; "bootstrap"; "webpack"; "vite";
    "rest"; "graphql"; "api"; "microservices"; "serverless";
    "machine learning"; "deep learning"; "nlp"; "computer vision";
    "tensorflow"; "pytorch";
    "agile"; "scrum"; "jira"; "figma"; "adobe"; "sketch";
    "linux"; "windows"; "macos"; "devops"; "ci/cd" ].

(** [r'\b' + re.escape(skill) + r'\b'] *)
Definition p_skill (skill : text) : re := seq_of [WordB; lit skill; WordB].

Definition extract_skills (txt : text) : list text :=
  let text_lower := lower txt in
  let found_skills :=
    Scorer.unique_from []
      (List.filter (fun skill => search (p_skill skill) text_lower)
                   technical_skills) in
  firstn 20 found_skills.

(** *** [extract_experience] *)

Definition job_titles : list text :=
  [ "engineer"; "developer"; "designer"; "manager"; "director"; "analyst";
    "architect"; "consultant"; "specialist"; "coordinator"; "lead";
    "principal" ].

(** The body of the loop over the lines: the first job title found in
    the line decides, and ends the inner loop. *)
Definition experience_step (experience : list text) (line : text)
  : list text :=
  let line_lower := lower line in
  if existsb (fun title => contains line_lower title
                           && (5 <? length (strip line))%nat)
             job_titles
  then
    if negb (Scorer.mem (strip line) experience)
       && (length experience <? 10)%nat
    then experience ++ [firstn 100 (strip line)]
    else experience
  else experience.

(** The organizations that spaCy names, each once. *)
Definition organizations_of (ents : list (string * text)) : list text :=
  fold_left
    (fun experience ent =>
       if String.eqb (fst ent) "ORG" then append_new experience (snd ent)
       else experience)
    ents [].

(** [extract_experience(text)].  The spaCy pipeline, when one was
    loaded, is a collaborator: it answers the entities of a text as
    (label, text) pairs, or raises. *)
Definition extract_experience
    (nlp : option (text -> option (list (string * text)))) (txt : text)
  : list text :=
  let lines := split_on newline txt in
  let experience :=
    match nlp with
    | Some parse =>
        match parse (trimmed txt) with
        | Some ents => organizations_of ents
        | None => []
        end
    | None => []
    end in
  firstn 10 (fold_left experience_step lines experience).

(** *** [extract_education] *)

(** [b\.?s\.?] and its like. *)
Definition p_initials (a b : ascii) : re :=
  seq_of [chr a; opt (chr "."); chr b; opt (chr ".")].

Definition degree_patterns : list re :=
  [ lit "bachelor"; lit "master"; lit "phd"; lit "diploma";
    lit "certificate";
    p_initials "b" "s"; p_initials "m" "s";
    p_initials "b" "a"; p_initials "m" "a" ].

Definition education_step (education : list text) (line : text) : list text :=
  let line_lower := strip (lower line) in
  if (5 <? length line)%nat then
    if existsb (fun pattern => search pattern line_lower) degree_patterns
    then append_new education (strip line)
    else education
  else education.

Definition extract_education (txt : text) : list text :=
  firstn 5 (fold_left education_step (split_on newline txt) []).

(** *** [extract_entities] *)

Definition labels : list string :=
  ["PERSON"; "ORG"; "GPE"; "DATE"; "PRODUCT"]%string.

Definition no_entities : gmap string (list text) :=
  list_to_map (List.map (fun label => (label, [])) labels).

(** [entities[label].append(val)] unless [val] is there already. *)
Definition add_entity (label : string) (val : text)
    (entities : gmap string (list text)) : gmap string (list text) :=
  <[label := append_new (Scorer.entity_list entities label) val]> entities.

(** One entity of the Hugging Face pipeline: its [entity_group] and its
    [word]. *)
Definition hf_step (entities : gmap string (list text))
    (ent : string * text) : gmap string (list text) :=
  let label := fst ent in
  let val := strip (snd ent) in
  if is_empty val then entities
  else if String.eqb label "PER" then add_entity "PERSON" val entities
  else if String.eqb label "ORG" then add_entity "ORG" val entities
  else if String.eqb label "LOC" then add_entity "GPE" val entities
  else entities.

(** One entity of spaCy: its [label_] and its [text]. *)
Definition spacy_step (entities : gmap string (list text))
    (ent : string * text) : gmap string (list text) :=
  match entities !! fst ent with
  | Some _ => add_entity (fst ent) (snd ent) entities
  | None => entities
  end.

Definition org_char (c : ascii) : bool :=
  is_ascii_letter c || is_ascii_digit c || one_of "&-., " c.

(** [\b[A-Z][A-Za-z0-9&\-\., ]+(?:Inc|LLC|Ltd|Corporation|Corp|Technologies|Systems|Labs|Solutions)\b] *)
Definition p_org_suffix : re :=
  seq_of [WordB; Chr is_upper_ascii; plus (Chr org_char);
          alt_of [lit "Inc"; lit "LLC"; lit "Ltd"; lit "Corporation";
                  lit "Corp"; lit "Technologies"; lit "Systems"; lit "Labs";
                  lit "Solutions"];
          WordB].

Definition capitalized : re :=
  Seq (Chr is_upper_ascii) (plus (Chr is_ascii_letter)).

(** [\b[A-Z][A-Za-z]+(?:\s[A-Z][A-Za-z]+){0,3}\s(?:Company|Organization|University)\b] *)
Definition p_org_kind : re :=
  seq_of [WordB; capitalized; Rep 0 (Some 3%nat) (Seq space capitalized);
          space;
          alt_of [lit "Company"; lit "Organization"; lit "University"];
          WordB].

Definition org_patterns : list re := [p_org_suffix; p_org_kind].

Definition century : re := Alt (lit "19") (lit "20").

(** [\b(19|20)\d{2}\b] *)
Definition p_year : re :=
  seq_of [WordB; Grp 1 century; Rep 2 (Some 2%nat) digit; WordB].

(** [\b(Jan|Feb|Mar|Apr|May|Jun|Jul|Aug|Sep|Sept|Oct|Nov|Dec)[a-z]*\s+(19|20)\d{2}\b],
    ignoring case *)
Definition p_month_year : re :=
  seq_of [WordB;
          Grp 1 (alt_of [lit_i "Jan"; lit_i "Feb"; lit_i "Mar"; lit_i "Apr";
                         lit_i "May"; lit_i "Jun"; lit_i "Jul"; lit_i "Aug";
                         lit_i "Sep"; lit_i "Sept"; lit_i "Oct"; lit_i "Nov";
                         lit_i "Dec"]);
          star (Chr is_ascii_letter); plus space;
          Grp 2 century; Rep 2 (Some 2%nat) digit; WordB].

Definition date_patterns : list re := [p_year; p_month_year].

(** The regex fallback for one label: every match of every pattern,
    stripped, each once. *)
Definition add_matches (label : string) (patterns : list re) (txt : text)
    (entities : gmap string (list text)) : gmap string (list text) :=
  fold_left
    (fun entities pat =>
       fold_left
         (fun entities m => add_entity label (strip (fst m)) entities)
         (finditer pat txt) entities)
    patterns entities.

(** [extract_entities(text)].  The two pipelines are collaborators: a
    failure of the Hugging Face one is caught, a failure of spaCy is
    not. *)
Definition extract_entities
    (hf_ner : option (text -> option (list (string * text))))
    (nlp : option (text -> option (list (string * text)))) (txt : text)
  : option (gmap string (list text)) :=
  let trimmed := trimmed txt in
  let entities :=
    match hf_ner with
    | Some recognize =>
        match recognize trimmed with
        | Some hf_entities => fold_left hf_step hf_entities no_entities
        | None => no_entities
        end
    | None => no_entities
    end in
  entities ←
    match nlp with
    | Some parse =>
        ents ← parse trimmed;
        Some (fold_left spacy_step ents entities)
    | None => Some entities
    end;
  let entities := add_matches "ORG" org_patterns trimmed entities in
  Some (add_matches "DATE" date_patterns trimmed entities).

(** The shape of the dictionary of entities: its five keys, and lists
    that repeat no value. *)
Definition well_formed (entities : gmap string (list text)) : Prop :=
  (forall label, is_Some (entities !! label) <-> In label labels)
  /\ (forall label l, entities !! label = Some l -> NoDup l).

(** *** [extract_text] *)

(** [re.sub(r, repl, s)] for a replacement computed from the match. *)
Definition sub_with (r : re) (repl : mstate -> text) (s : text) : text :=
  flat_map (fun p => match p with Skip c => [c] | Hit _ st => repl st end)
           (pieces r s).

(** [^\s*\d{1,3}[\.\)]?\s+] *)
Definition p_page_number : re :=
  seq_of [Bol; star space; Rep 1 (Some 3%nat) digit; opt (Chr (one_of ".)"));
          plus space].

(** [[\d\W_]+] *)
Definition symbol_char (c : ascii) : bool :=
  is_ascii_digit c || negb (is_word c) || Ascii.eqb c "_".

Definition p_symbols : re := plus (Chr symbol_char).

(** [(https?://|www\.|\.com|\.net|\.org|linkedin\.|github\.|mailto:)],
    ignoring case *)
Definition p_link : re :=
  Grp 1 (alt_of [seq_of [lit_i "http"; opt (chr_i "s"); lit "://"];
                 lit_i "www."; lit_i ".com"; lit_i ".net"; lit_i ".org";
                 lit_i "linkedin."; lit_i "github."; lit_i "mailto:"]).

(** [\s*\|\s*] *)
Definition p_pipe : re := seq_of [star space; chr "|"; star space].

(** [\s*(Education|Skills|Projects|Experience|Achievements)\s*],
    ignoring case *)
Definition p_section : re :=
  seq_of [star space;
          Grp 1 (alt_of [lit_i "Education"; lit_i "Skills"; lit_i "Projects";
                         lit_i "Experience"; lit_i "Achievements"]);
          star space].

(** The body of the loop over the lines: the cleaned line, or nothing
    when the line is skipped. *)
Definition clean_line (line : text) : option text :=
  let l := strip (sub Ask.p_spaces " " line) in
  let l := sub p_page_number "" l in
  if fullmatch p_symbols l then None
  else if search p_link l
          && (length (finditer Ask.p_token l) <? 2)%nat then None
  else Some l.

(** The cleanup of the text read from the pages. *)
Definition cleanup (raw : text) : text :=
  let raw := sub Ask.p_cid_paren "" raw in
  let raw := sub Ask.p_cid "" raw in
  let lines := omap clean_line (Scorer.splitlines raw) in
  let raw := join [newline] lines in
  let raw := sub p_pipe " | " raw in
  sub_with p_section (fun m => [newline] ++ group 1 m ++ [newline]) raw.

Section WithReader.

(** The PDF reader: the texts of the pages of a document, or nothing
    when [pdfplumber] raises. *)
Variable read_pages : list Byte.byte -> option (list text).

Definition extract_text (pdf_content : list Byte.byte) (filename : text)
  : text :=
  match read_pages pdf_content with
  | Some pages =>
      let text_content :=
        List.filter (fun page_text => negb (is_empty page_text)) pages in
      cleanup (strip (join [newline] text_content))
  | None => ""
  end.

End WithReader.

End Processor.

(** ** The ranking endpoint on the processor *)

Module Pipeline.

Section WithServices.

Context {embedding : Type}.
Variable encode : text -> option embedding.
Variable cos_sim : embedding -> embedding -> Q.
Variable read_pages : list Byte.byte -> option (list text).
Variable hf_ner : option (text -> option (list (string * text))).
Variable nlp : option (text -> option (list (string * text))).
Variable summarizer : option (text -> option text).

(** [sort_resumes] with [resume_processor] the [ResumeProcessor] above:
    [extract_text] catches its own failures. *)
Definition sort_resumes : Api.request_env -> text -> list Api.upload
                          -> Api.response Api.SortResponse :=
  Api.sort_resumes encode cos_sim
    (fun content filename =>
       Some (Processor.extract_text read_pages content filename))
    (Processor.extract_entities hf_ner nlp)
    (fun txt => Some (Processor.generate_summary summarizer txt))
    (fun txt => Some (Processor.extract_skills txt))
    (fun txt => Some (Processor.extract_education txt))
    Naming._infer_name.

(** [semantic_search(query, resumes)] *)
Definition semantic_search (env : Api.request_env) (query : text)
    (resumes : list Api.upload) : Api.response Api.SortResponse :=
  sort_resumes env query resumes.

End WithServices.

End Pipeline.

(** ** Regular expressions: positions and widths *)

Module Matching.
Import Re.

(** The character before the position reached by reading [read] from a
    position that [before] precedes. *)
Definition prev_after (before : option ascii) (read : text) : option ascii :=
  fold_left (fun _ c => Some c) read before.

(** The position in a subject reached after [pre], with [post] left. *)
Definition position (pre post : text) : mstate :=
  {| prev := prev_after None pre; rest := post; groups := [] |}.

(** A matcher that hands to its continuation a position further in the
    subject, with the character before it. *)
Definition advances {R}
    (body : mstate -> (mstate -> option R) -> option R) : Prop :=
  forall st k x,
    body st k = Some x ->
    exists st' read,
      k st' = Some x
      /\ rest st = read ++ rest st'
      /\ prev st' = prev_after (prev st) read.

(** The greatest number of characters that a pattern can match, when
    there is one. *)
Fixpoint max_width (r : re) : option nat :=
  match r with
  | Eps => Some 0%nat
  | Chr _ => Some 1%nat
  | Seq r1 r2 =>
      match max_width r1, max_width r2 with
      | Some w1, Some w2 => Some (w1 + w2)%nat
      | _, _ => None
      end
  | Alt r1 r2 =>
      match max_width r1, max_width r2 with
      | Some w1, Some w2 => Some (Nat.max w1 w2)
      | _, _ => None
      end
  | Rep _ (Some hi) r1 =>
      match max_width r1 with
      | Some w => Some (hi * w)%nat
      | None => None
      end
  | Rep _ None _ => None
  | WordB => Some 0%nat
  | Bol => Some 0%nat
  | Grp _ r1 => max_width r1
  end.

(** A matcher that reads at most [w] characters. *)
Definition within {R} (w : nat)
    (body : mstate -> (mstate -> option R) -> option R) : Prop :=
  forall st k x,
    body st k = Some x ->
    exists st', k st' = Some x
                /\ (length (rest st) <= length (rest st') + w)%nat.

(** The characters at the head of a text that satisfy [p], and what
    follows them. *)
Fixpoint run_of (p : ascii -> bool) (s : text) : text :=
  match s with
  | c :: s' => if p c then c :: run_of p s' else []
  | [] => []
  end.

Fixpoint after_run (p : ascii -> bool) (s : text) : text :=
  match s with
  | c :: s' => if p c then after_run p s' else s
  | [] => []
  end.

(** No two white-space characters in a row. *)
Fixpoint squeezed (s : text) : bool :=
  match s with
  | a :: s' =>
      match s' with
      | b :: _ => negb (py_isspace a && py_isspace b) && squeezed s'
      | [] => true
      end
  | [] => true
  end.

End Matching.

(* ================================================================== *)
(** * Part II: properties *)
(* ================================================================== *)

Example chunks_small :
  Chunker._create_chunks "Alpha beta. Gamma.  Delta epsilon" 12
  = ["Alpha beta."; "Gamma."; "Delta epsilon."]%text.
Proof. reflexivity. Qed.

(** ** Text lemmas *)

Section TextFacts.

Lemma is_empty_true {A} (l : list A) : is_empty l = true <-> l = [].
Proof. destruct l; simpl; split; congruence. Qed.

Lemma is_empty_false {A} (l : list A) : is_empty l = false <-> l <> [].
Proof. destruct l; simpl; split; congruence. Qed.

Lemma lstrip_idem s : lstrip (lstrip s) = lstrip s.
Proof.
  induction s as [|c s IH]; simpl; [reflexivity|].
  destruct (py_isspace c) eqn:E; [exact IH|].
  simpl. now rewrite E.
Qed.

Lemma lstrip_snoc_nonspace l c :
  py_isspace c = false -> lstrip (l ++ [c]) = lstrip l ++ [c].
Proof.
  intros Hc. induction l as [|x l IH]; simpl.
  - now rewrite Hc.
  - destruct (py_isspace x); [exact IH|reflexivity].
Qed.

Lemma rstrip_cons_nonspace c s :
  py_isspace c = false -> rstrip (c :: s) = c :: rstrip s.
Proof.
  intros Hc. unfold rstrip. simpl.
  rewrite lstrip_snoc_nonspace by exact Hc.
  now rewrite rev_app_distr.
Qed.

Lemma rstrip_idem s : rstrip (rstrip s) = rstrip s.
Proof. unfold rstrip. now rewrite rev_involutive, lstrip_idem. Qed.

Lemma lstrip_rstrip_fixed s : lstrip s = s -> lstrip (rstrip s) = rstrip s.
Proof.
  destruct s as [|c s]; [reflexivity|].
  simpl. destruct (py_isspace c) eqn:E.
  - intros H. exfalso.
    assert (Hlen : length (lstrip s) <= length s).
    { clear. induction s as [|x s IH]; simpl; [lia|].
      destruct (py_isspace x); simpl; lia. }
    rewrite H in Hlen. simpl in Hlen. lia.
  - intros _. rewrite rstrip_cons_nonspace by exact E.
    simpl. now rewrite E.
Qed.

Lemma strip_idem s : strip (strip s) = strip s.
Proof.
  unfold strip.
  rewrite (lstrip_rstrip_fixed (lstrip s)) by apply lstrip_idem.
  apply rstrip_idem.
Qed.

Lemma strip_space_cons s : strip (" "%char :: s) = strip s.
Proof. reflexivity. Qed.

Lemma Forall_lstrip (P : ascii -> Prop) s : Forall P s -> Forall P (lstrip s).
Proof.
  induction 1 as [|c s Hc Hs IH]; simpl; [constructor|].
  destruct (py_isspace c); [exact IH|now constructor].
Qed.

Lemma Forall_strip (P : ascii -> Prop) s : Forall P s -> Forall P (strip s).
Proof.
  intros H. unfold strip, rstrip.
  apply Forall_rev, Forall_lstrip, Forall_rev, Forall_lstrip, H.
Qed.

Lemma split_on_not_nil d s : split_on d s <> [].
Proof.
  destruct s as [|c s]; simpl; [discriminate|].
  destruct (Ascii.eqb c d); [discriminate|].
  destruct (split_on d s); discriminate.
Qed.

Lemma split_on_free d s :
  Forall (fun piece => Forall (fun c => c <> d) piece) (split_on d s).
Proof.
  induction s as [|c s IH]; simpl.
  - repeat constructor.
  - destruct (Ascii.eqb c d) eqn:E.
    + constructor; [constructor|exact IH].
    + apply Ascii.eqb_neq in E.
      destruct (split_on d s) as [|w ws]; [repeat constructor; exact E|].
      inversion IH; subst. constructor; [|assumption].
      now constructor.
Qed.

Lemma split_on_app_sep d a b :
  Forall (fun c => c <> d) a ->
  split_on d (a ++ d :: b) = a :: split_on d b.
Proof.
  induction 1 as [|c a Hc Ha IH]; simpl.
  - now rewrite Ascii.eqb_refl.
  - apply Ascii.eqb_neq in Hc. now rewrite Hc, IH.
Qed.

End TextFacts.

(** ** Sorting lemmas *)

Section SortFacts.

Context {A : Type}.
Variable before : A -> A -> bool.

Lemma insert_by_perm x l : Permutation (insert_by before x l) (x :: l).
Proof.
  induction l as [|y l IH]; simpl; [reflexivity|].
  destruct (before x y); [reflexivity|].
  rewrite IH. apply perm_swap.
Qed.

Lemma stable_sort_perm l : Permutation (stable_sort before l) l.
Proof.
  induction l as [|x l IH]; simpl; [reflexivity|].
  fold (stable_sort before l). rewrite insert_by_perm. now constructor.
Qed.

Lemma stable_sort_length l : length (stable_sort before l) = length l.
Proof. apply Permutation_length, stable_sort_perm. Qed.


(** Elements that the order lets pass one another freely keep their
    relative order: this is stability. *)
Lemma filter_insert_by (P : A -> bool) x l :
  (forall y, P x = true -> P y = true -> before x y = true) ->
  List.filter P (insert_by before x l)
  = (if P x then [x] else []) ++ List.filter P l.
Proof.
  intros Hpass. induction l as [|y l IH]; simpl.
  - now destruct (P x).
  - destruct (before x y) eqn:Hxy; simpl.
    + now destruct (P x).
    + rewrite IH. destruct (P y) eqn:Hy; [|reflexivity].
      destruct (P x) eqn:Hx; [|reflexivity].
      rewrite (Hpass y eq_refl Hy) in Hxy. discriminate.
Qed.

Lemma stable_sort_stable (P : A -> bool) l :
  (forall x y, P x = true -> P y = true -> before x y = true) ->
  List.filter P (stable_sort before l) = List.filter P l.
Proof.
  intros Hpass. induction l as [|x l IH]; simpl; [reflexivity|].
  fold (stable_sort before l).
  rewrite filter_insert_by by (intros y; apply Hpass).
  rewrite IH. now destruct (P x).
Qed.

Lemma stable_sort_fixed l :
  StronglySorted (ordered_by before) l -> stable_sort before l = l.
Proof.
  induction 1 as [|x l Hl IH Hx]; simpl; [reflexivity|].
  fold (stable_sort before l). rewrite IH.
  destruct l as [|y l]; [reflexivity|]. simpl.
  inversion Hx as [|? ? Hxy _]; subst. now rewrite Hxy.
Qed.

Hypothesis before_total : forall x y, before x y = false -> before y x = true.
Hypothesis before_trans :
  forall x y z, before x y = true -> before y z = true -> before x z = true.

Lemma insert_by_sorted x l :
  StronglySorted (ordered_by before) l ->
  StronglySorted (ordered_by before) (insert_by before x l).
Proof.
  induction 1 as [|y l Hl IH Hy]; simpl.
  - repeat constructor.
  - destruct (before x y) eqn:Hxy.
    + constructor; [now constructor|].
      constructor; [exact Hxy|].
      rewrite List.Forall_forall in Hy |- *.
      intros z Hz. eapply before_trans; [exact Hxy|now apply Hy].
    + constructor; [exact IH|].
      rewrite List.Forall_forall in Hy |- *.
      intros z Hz.
      apply (Permutation_in _ (insert_by_perm x l)) in Hz.
      destruct Hz as [<-|Hz]; [now apply before_total|now apply Hy].
Qed.

Lemma stable_sort_sorted l : StronglySorted (ordered_by before) (stable_sort before l).
Proof.
  induction l as [|x l IH]; simpl; [constructor|].
  now apply insert_by_sorted.
Qed.

End SortFacts.


Lemma StronglySorted_unmap {A B} (f : A -> B) (R : B -> B -> Prop) l :
  StronglySorted R (List.map f l) ->
  StronglySorted (fun x y => R (f x) (f y)) l.
Proof.
  induction l as [|x l IH]; simpl; intros H; [constructor|].
  inversion H as [|? ? Hl Hx]; subst. constructor; [now apply IH|].
  rewrite List.Forall_forall in Hx |- *.
  intros y Hy. apply Hx. now apply List.in_map.
Qed.

Lemma StronglySorted_weaken {A} (R R' : A -> A -> Prop) l :
  (forall x y, R x y -> R' x y) ->
  StronglySorted R l -> StronglySorted R' l.
Proof.
  intros Himp. induction 1 as [|x l Hl IH Hx]; constructor; [exact IH|].
  rewrite List.Forall_forall in Hx |- *. intros y Hy. now apply Himp, Hx.
Qed.

Section SortDesc.

Context {A : Type}.
Variable key : A -> Z.

Lemma sort_desc_sorted l : StronglySorted (descending key) (sort_desc key l).
Proof.
  unfold sort_desc.
  eapply StronglySorted_weaken; [|apply stable_sort_sorted].
  - intros x y H. unfold ordered_by in H. unfold descending. lia.
  - intros x y H. lia.
  - intros x y z H1 H2. lia.
Qed.

Lemma sort_desc_perm l : Permutation (sort_desc key l) l.
Proof. apply stable_sort_perm. Qed.

Lemma sort_desc_stable p l :
  List.filter (fun x => (key x =? p)%Z) (sort_desc key l)
  = List.filter (fun x => (key x =? p)%Z) l.
Proof. apply stable_sort_stable. intros x y Hx Hy. lia. Qed.

Lemma sort_desc_fixed l :
  StronglySorted (descending key) l -> sort_desc key l = l.
Proof.
  intros H. apply stable_sort_fixed.
  eapply StronglySorted_weaken; [|exact H].
  intros x y Hxy. unfold descending in Hxy. unfold ordered_by. lia.
Qed.

End SortDesc.

(** ** Chunker lemmas *)

Module ChunkerFacts.
Import Chunker.

Lemma sentences_nil : sentences [] = [].
Proof. reflexivity. Qed.

Lemma sentences_sep s t :
  dot_free s ->
  sentences (s ++ "."%char :: t)
  = (if is_empty (strip s) then [] else [strip s]) ++ sentences t.
Proof.
  intros Hs. unfold sentences.
  rewrite split_on_app_sep by exact Hs. simpl.
  now destruct (is_empty (strip s)).
Qed.

Lemma sentences_space t : sentences (" "%char :: t) = sentences t.
Proof.
  unfold sentences. simpl.
  pose proof (split_on_not_nil "." t) as Hne.
  destruct (split_on "." t) as [|w ws]; [congruence|].
  reflexivity.
Qed.

Lemma settled_strip raw :
  dot_free raw -> strip raw <> [] -> settled (strip raw).
Proof.
  intros Hd Hne. repeat split; [apply strip_idem|exact Hne|].
  now apply Forall_strip.
Qed.

Lemma sentences_close_chunk g :
  g <> [] -> Forall settled g -> sentences (close_chunk g) = g.
Proof.
  unfold close_chunk.
  induction g as [|s g IH]; [congruence|].
  intros _ Hall. inversion Hall as [|? ? [Hs [Hne Hd]] Hg]; subst.
  destruct g as [|s2 g].
  - simpl. rewrite sentences_sep by exact Hd.
    rewrite Hs. apply is_empty_false in Hne. now rewrite Hne.
  - change (join ". " (s :: s2 :: g)) with (s ++ ". " ++ join ". " (s2 :: g)).
    rewrite <- !app_assoc.
    change (". " ++ ?x) with ("."%char :: " "%char :: x).
    rewrite sentences_sep by exact Hd.
    rewrite Hs. apply is_empty_false in Hne. rewrite Hne.
    rewrite sentences_space. simpl app at 1.
    f_equal. apply IH; [discriminate|exact Hg].
Qed.

Lemma close_chunk_not_nil g : close_chunk g <> [].
Proof. unfold close_chunk. destruct (join ". " g); discriminate. Qed.

Lemma total_length_snoc g s :
  total_length (g ++ [s]) = (total_length g + Z.of_nat (length s))%Z.
Proof. induction g as [|x g IH]; simpl; [lia|]. rewrite IH. lia. Qed.

Lemma total_length_nonneg g : (0 <= total_length g)%Z.
Proof. induction g; simpl; lia. Qed.

Lemma loop_inv_init chunk_size : loop_inv chunk_size [] ([], [], 0%Z).
Proof.
  split; simpl; try reflexivity; try constructor.
  unfold within; simpl; lia.
Qed.

Lemma flat_map_snoc {A B} (f : A -> list B) l x :
  flat_map f (l ++ [x]) = flat_map f l ++ f x.
Proof. rewrite flat_map_app. simpl. now rewrite app_nil_r. Qed.

Lemma loop_inv_step chunk_size seen st raw :
  dot_free raw ->
  loop_inv chunk_size seen st ->
  loop_inv chunk_size (seen ++ [raw]) (chunk_step chunk_size st raw).
Proof.
  intros Hraw [Hc Hcur Hlen Hfit Hclosed].
  destruct st as [[chunks cur] len]. simpl in *.
  assert (Hseen :
    List.filter (fun s => negb (is_empty s)) (List.map strip (seen ++ [raw]))
    = List.filter (fun s => negb (is_empty s)) (List.map strip seen)
      ++ (if is_empty (strip raw) then [] else [strip raw])).
  { rewrite List.map_app, List.filter_app. simpl.
    now destruct (is_empty (strip raw)). }
  unfold chunk_step.
  destruct (is_empty (strip raw)) eqn:Hempty.
  - split; simpl; try assumption.
    rewrite Hseen, app_nil_r. exact Hc.
  - apply is_empty_false in Hempty.
    pose proof (settled_strip raw Hraw Hempty) as Hset.
    destruct ((len + Z.of_nat (length (strip raw)) >? chunk_size)%Z
              && negb (is_empty cur)) eqn:Hflush.
    + apply andb_true_iff in Hflush as [_ Hne].
      apply negb_true_iff, is_empty_false in Hne.
      pose proof (sentences_close_chunk cur Hne Hcur) as Hsc.
      split; simpl.
      * rewrite flat_map_snoc, Hsc, Hseen, <- Hc. reflexivity.
      * now constructor.
      * lia.
      * unfold within; simpl; lia.
      * apply Forall_app; split; [exact Hclosed|].
        constructor; [|constructor].
        rewrite Hsc. split; [apply close_chunk_not_nil|]. now split.
    + split; simpl.
      * rewrite Hseen, <- Hc. now rewrite app_assoc.
      * apply Forall_app; split; [exact Hcur|now constructor].
      * rewrite total_length_snoc. lia.
      * unfold within. rewrite total_length_snoc, length_app. simpl.
        intros Hlen2.
        apply andb_false_iff in Hflush as [Hle|Hnil].
        -- rewrite Z.gtb_ltb, Z.ltb_ge in Hle. lia.
        -- apply negb_false_iff, is_empty_true in Hnil. subst cur.
           simpl in Hlen2. lia.
      * exact Hclosed.
Qed.

Lemma loop_inv_fold chunk_size raws :
  forall seen st,
    Forall dot_free raws ->
    loop_inv chunk_size seen st ->
    loop_inv chunk_size (seen ++ raws)
             (fold_left (chunk_step chunk_size) raws st).
Proof.
  induction raws as [|raw raws IH]; intros seen st Hfree Hinv; simpl.
  - now rewrite app_nil_r.
  - inversion Hfree; subst.
    replace (seen ++ raw :: raws) with ((seen ++ [raw]) ++ raws)
      by now rewrite <- app_assoc.
    apply IH; [assumption|]. now apply loop_inv_step.
Qed.

(** The loop on a whole text. *)
Lemma loop_inv_text txt chunk_size :
  loop_inv chunk_size (split_on "." txt)
    (fold_left (chunk_step chunk_size) (split_on "." txt) ([], [], 0%Z)).
Proof.
  apply (loop_inv_fold chunk_size (split_on "." txt) []).
  - apply split_on_free.
  - apply loop_inv_init.
Qed.

(** The chunks as groups of sentences: every chunk that the loop closes
    holds at least one sentence, respects the budget as soon as it holds
    two, and the groups concatenate to the sentences of the text. *)
Lemma create_chunks_groups txt chunk_size :
  flat_map sentences (_create_chunks txt chunk_size) = sentences txt
  /\ (sentences txt = [] -> _create_chunks txt chunk_size = [txt])
  /\ (sentences txt <> [] ->
      Forall (fun c => c <> [] /\ sentences c <> []
                       /\ within chunk_size (sentences c))
             (_create_chunks txt chunk_size)).
Proof.
  pose proof (loop_inv_text txt chunk_size) as Hinv.
  unfold _create_chunks.
  destruct (fold_left (chunk_step chunk_size) (split_on "." txt) ([], [], 0%Z))
    as [[chunks cur] len].
  destruct Hinv as [Hc Hcur Hlen Hfit Hclosed]. simpl in *.
  fold (sentences txt) in Hc.
  destruct cur as [|s cur]; simpl.
  - rewrite app_nil_r in Hc.
    destruct chunks as [|c chunks]; simpl in *.
    + rewrite <- Hc. repeat split; simpl; congruence.
    + repeat split; [exact Hc| |intros _; exact Hclosed].
      intros Hnil. rewrite Hnil in Hc.
      inversion Hclosed as [|? ? [_ [Hs _]] _]; subst.
      destruct (sentences c); [congruence|discriminate].
  - assert (Hsc : sentences (close_chunk (s :: cur)) = s :: cur)
      by (apply sentences_close_chunk; [discriminate|exact Hcur]).
    assert (Hall :
      Forall (fun c => c <> [] /\ sentences c <> []
                       /\ within chunk_size (sentences c))
             (chunks ++ [close_chunk (s :: cur)])).
    { apply Forall_app; split; [exact Hclosed|].
      constructor; [|constructor]. rewrite Hsc.
      split; [apply close_chunk_not_nil|]. split; [discriminate|exact Hfit]. }
    assert (Hout :
      (if is_empty (chunks ++ [close_chunk (s :: cur)]) then [txt]
       else chunks ++ [close_chunk (s :: cur)])
      = chunks ++ [close_chunk (s :: cur)])
      by (destruct chunks; reflexivity).
    rewrite Hout, flat_map_snoc, Hsc. repeat split.
    + exact Hc.
    + intros Hnil. rewrite Hnil in Hc. destruct (flat_map sentences chunks); discriminate.
    + intros _. exact Hall.
Qed.

End ChunkerFacts.

(** ** Chunker: claims C4 and C10 *)

(** C4, as stated, fails on the empty text: with no sentence to keep the
    chunker falls back to [[text]], and for the empty text that single
    chunk is empty. *)
Lemma create_chunks_empty_chunk :
  ~ Forall (fun c : text => c <> "") (Chunker._create_chunks "" 500).
Proof.
  intros H. inversion H as [|? ? Hne _]; subst. now apply Hne.
Qed.

(** C4 (amended): for every text and size, reading the sentences of the
    chunks in order gives back exactly the sentences of the text (each
    non-empty sentence once, in source order); a text without sentences
    comes back as the single chunk [[text]]; and every chunk is non-empty
    as soon as the text is. *)
Theorem create_chunks_partitions_sentences (txt : text) (chunk_size : Z) :
  flat_map Chunker.sentences (Chunker._create_chunks txt chunk_size)
  = Chunker.sentences txt
  /\ (Chunker.sentences txt = [] ->
      Chunker._create_chunks txt chunk_size = [txt])
  /\ (txt <> "" ->
      Forall (fun c : text => c <> "") (Chunker._create_chunks txt chunk_size)).
Proof.
  destruct (ChunkerFacts.create_chunks_groups txt chunk_size)
    as (Hflat & Hnone & Hsome).
  split; [exact Hflat|]. split; [exact Hnone|].
  intros Htxt.
  destruct (Chunker.sentences txt) as [|s ss] eqn:Hs.
  - rewrite Hnone by reflexivity. now repeat constructor.
  - assert (Hall := Hsome ltac:(discriminate)).
    rewrite List.Forall_forall in Hall |- *.
    intros c Hin. now destruct (Hall c Hin).
Qed.

Lemma create_chunks_partitions_sentences_witness :
  flat_map Chunker.sentences
    (Chunker._create_chunks "Alpha beta. Gamma.  Delta epsilon" 12)
  = ["Alpha beta"; "Gamma"; "Delta epsilon"]
  /\ Chunker._create_chunks " . " 12 = [" . "]
  /\ Forall (fun c : text => c <> "")
       (Chunker._create_chunks "Alpha beta. Gamma.  Delta epsilon" 12).
Proof.
  split; [|split].
  - exact (proj1 (create_chunks_partitions_sentences
                    "Alpha beta. Gamma.  Delta epsilon" 12)).
  - apply (proj1 (proj2 (create_chunks_partitions_sentences " . " 12))).
    reflexivity.
  - apply (proj2 (proj2 (create_chunks_partitions_sentences
                           "Alpha beta. Gamma.  Delta epsilon" 12))).
    discriminate.
Defined.

(** C10: in every chunk that holds two or more sentences the stripped
    sentence lengths add up to at most the size (joiners and the closing
    period are not counted); a chunk over the size holds exactly one
    sentence, itself longer than the size. *)
Theorem create_chunks_budget (txt : text) (chunk_size : Z) (c : text) :
  In c (Chunker._create_chunks txt chunk_size) ->
  ((2 <= length (Chunker.sentences c))%nat ->
   (Chunker.total_length (Chunker.sentences c) <= chunk_size)%Z)
  /\ ((0 <= chunk_size)%Z ->
      (chunk_size < Chunker.total_length (Chunker.sentences c))%Z ->
      exists s, Chunker.sentences c = [s]
                /\ (chunk_size < Z.of_nat (length s))%Z).
Proof.
  intros Hin.
  destruct (ChunkerFacts.create_chunks_groups txt chunk_size)
    as (_ & Hnone & Hsome).
  destruct (Chunker.sentences txt) as [|s0 ss] eqn:Hs.
  - rewrite Hnone in Hin by reflexivity.
    destruct Hin as [<-|[]]. rewrite Hs. simpl. split; intros; lia.
  - assert (Hall := Hsome ltac:(discriminate)).
    rewrite List.Forall_forall in Hall.
    destruct (Hall c Hin) as (_ & Hne & Hfit).
    split; [exact Hfit|].
    intros _ Hover.
    destruct (Chunker.sentences c) as [|s [|s' g]]; [congruence| |].
    + exists s. split; [reflexivity|]. simpl in Hover. lia.
    + unfold Chunker.within in Hfit. simpl length in Hfit. lia.
Qed.

Lemma create_chunks_budget_witness :
  (Chunker.total_length (Chunker.sentences "Alpha beta. Gamma.") <= 15)%Z
  /\ exists s, Chunker.sentences "Delta epsilon zeta." = [s]
               /\ (15 < Z.of_nat (length s))%Z.
Proof.
  split.
  - apply (create_chunks_budget
             "Alpha beta. Gamma. Delta epsilon zeta" 15 "Alpha beta. Gamma.").
    + left. reflexivity.
    + simpl. lia.
  - apply (create_chunks_budget
             "Alpha beta. Gamma. Delta epsilon zeta" 15 "Delta epsilon zeta.").
    + right. left. reflexivity.
    + lia.
    + vm_compute. reflexivity.
Defined.

(** ** Scorer lemmas *)

Lemma Qltb_lt x y : Qltb x y = true <-> (x < y)%Q.
Proof. unfold Qltb, Qlt. apply Z.ltb_lt. Qed.

Lemma Qltb_ge x y : Qltb x y = false <-> (y <= x)%Q.
Proof. unfold Qltb, Qle. apply Z.ltb_ge. Qed.

Lemma py_int_floor x : (0 <= x)%Q -> py_int x = Qfloor x.
Proof.
  destruct x as [n d]. unfold py_int, Qfloor, Qle. simpl.
  intros H. apply Z.quot_div_nonneg; lia.
Qed.

Lemma Forall2_In_r {A B} (R : A -> B -> Prop) l k y :
  Forall2 R l k -> In y k -> exists x, In x l /\ R x y.
Proof.
  induction 1 as [|x y' l k Hxy Hlk IH]; simpl; [contradiction|].
  intros [<-|Hin].
  - exists x. now split; [left|].
  - destruct (IH Hin) as (x' & Hx' & HR). exists x'. now split; [right|].
Qed.

Module ScorerFacts.
Import Scorer.

Lemma match_percentage_of_floor c :
  match_percentage_of c = clamp 0 100 (Qfloor (100 * c)).
Proof.
  unfold match_percentage_of, clamp.
  assert (Hx : Qfloor (100 * c) = Qfloor (c * 100))
    by (apply Qfloor_comp; ring).
  rewrite Hx. set (x := (c * 100)%Q).
  unfold py_max. destruct (Qltb 0 x) eqn:H0.
  - apply Qltb_lt in H0. unfold py_min.
    destruct (Qltb x 100) eqn:H100.
    + apply Qltb_lt in H100.
      rewrite py_int_floor by now apply Qlt_le_weak.
      assert (0 <= Qfloor x)%Z
        by (change 0%Z with (Qfloor 0); apply Qfloor_resp_le; now apply Qlt_le_weak).
      assert (Qfloor x <= 100)%Z
        by (change 100%Z with (Qfloor 100); apply Qfloor_resp_le; now apply Qlt_le_weak).
      lia.
    + apply Qltb_ge in H100.
      assert (100 <= Qfloor x)%Z
        by (change 100%Z with (Qfloor 100); now apply Qfloor_resp_le).
      change (py_int 100) with 100%Z. lia.
  - apply Qltb_ge in H0.
    assert (Qfloor x <= 0)%Z
      by (change 0%Z with (Qfloor 0); now apply Qfloor_resp_le).
    change (py_int (py_min 100 0)) with 0%Z. lia.
Qed.

Section WithModel.

Context {embedding : Type}.
Variable encode : text -> option embedding.
Variable cos_sim : embedding -> embedding -> Q.

Lemma score_resumes_inv jd docs rs :
  score_resumes encode cos_sim jd docs = Some rs ->
  exists job_embedding scored,
    encode jd = Some job_embedding
    /\ Forall2 (fun d r => score_one encode cos_sim jd job_embedding d = Some r)
               docs scored
    /\ rs = sort_desc match_percentage scored.
Proof.
  unfold score_resumes. intros H.
  destruct (encode jd) as [e|] eqn:He; [|discriminate]. simpl in H.
  destruct (mapM (score_one encode cos_sim jd e) docs) as [scored|] eqn:Hm;
    [|discriminate].
  simpl in H. injection H as <-.
  exists e, scored. split; [reflexivity|]. split; [|reflexivity].
  now apply mapM_Some.
Qed.

Lemma score_one_inv jd e d r :
  score_one encode cos_sim jd e d = Some r ->
  exists chunk_scores,
    chunk_similarities encode cos_sim e
      (Chunker._create_chunks (pr_raw_text d) 500) = Some chunk_scores
    /\ score r = combined_score_of (semantic_score r) (skill_match_ratio r)
    /\ match_percentage r = match_percentage_of (score r)
    /\ evidence r
       = (if is_empty chunk_scores then []
          else collect_evidence (_extract_keywords jd)
                 (Chunker._create_chunks (pr_raw_text d) 500)
                 (top_indices chunk_scores) [])
    /\ filename r = pr_filename d
    /\ raw_text r = pr_raw_text d.
Proof.
  unfold score_one. intros H.
  destruct (chunk_similarities encode cos_sim e
              (Chunker._create_chunks (pr_raw_text d) 500))
    as [chunk_scores|] eqn:Hs; [|discriminate].
  simpl in H. injection H as <-. simpl.
  exists chunk_scores. repeat split; reflexivity.
Qed.

(** Every entry of the ranking comes from one of the documents. *)
Lemma score_resumes_entry jd docs rs r :
  score_resumes encode cos_sim jd docs = Some rs -> In r rs ->
  exists job_embedding d,
    In d docs /\ score_one encode cos_sim jd job_embedding d = Some r.
Proof.
  intros H Hin.
  apply score_resumes_inv in H as (e & scored & _ & Hall & ->).
  apply (Permutation_in _ (sort_desc_perm _ _)) in Hin.
  destruct (Forall2_In_r _ _ _ _ Hall Hin) as (d & Hd & Hscore).
  now exists e, d.
Qed.

(** With a model that never raises, scoring returns a ranking. *)
Lemma chunk_similarities_total e chunks :
  (forall t, is_Some (encode t)) ->
  is_Some (chunk_similarities encode cos_sim e chunks).
Proof.
  intros Htotal. apply mapM_is_Some_2, List.Forall_forall.
  intros c _. simpl. destruct (Htotal c) as [ce ->]. now eexists.
Qed.

Lemma score_one_total jd e d :
  (forall t, is_Some (encode t)) ->
  is_Some (score_one encode cos_sim jd e d).
Proof.
  intros Htotal. unfold score_one.
  destruct (chunk_similarities_total e
              (Chunker._create_chunks (pr_raw_text d) 500) Htotal)
    as [ss ->].
  simpl. now eexists.
Qed.

Lemma score_resumes_total jd docs :
  (forall t, is_Some (encode t)) ->
  is_Some (score_resumes encode cos_sim jd docs).
Proof.
  intros Htotal. unfold score_resumes.
  destruct (Htotal jd) as [e ->]. simpl.
  assert (Hall : is_Some (mapM (score_one encode cos_sim jd e) docs)).
  { apply mapM_is_Some_2, List.Forall_forall.
    intros d _. now apply score_one_total. }
  destruct Hall as [scored ->]. simpl. now eexists.
Qed.

End WithModel.

End ScorerFacts.

(** ** Scorer: claim C1 *)




(** ** Ranking endpoint lemmas *)

Module ApiFacts.
Import Api.

Lemma score_data_of_to_candidate fresh_id r :
  score_data_of (to_candidate fresh_id r) = r.
Proof. now destruct r. Qed.

Lemma score_data_of_imap (ids : nat -> text) l :
  List.map score_data_of
    (imap (fun idx score_data => to_candidate (ids idx) score_data) l) = l.
Proof.
  revert ids. induction l as [|r l IH]; intros ids; [reflexivity|].
  simpl. rewrite score_data_of_to_candidate. f_equal.
  apply (IH (fun i => ids (S i))).
Qed.

Section WithServices.

Context {embedding : Type}.
Variable encode : text -> option embedding.
Variable cos_sim : embedding -> embedding -> Q.
Variable extract_text : list Byte.byte -> text -> option text.
Variable extract_entities : text -> option (gmap string (list text)).
Variable generate_summary : text -> option text.
Variable extract_skills : text -> option (list text).
Variable extract_education : text -> option (list text).
Variable _infer_name : gmap string (list text) -> text -> text -> text.

Local Abbreviation process_upload :=
  (process_upload extract_text extract_entities generate_summary
     extract_skills extract_education _infer_name).
Local Abbreviation sort_resumes :=
  (sort_resumes encode cos_sim extract_text extract_entities
     generate_summary extract_skills extract_education _infer_name).

(** The four ways a request ends. *)
Lemma sort_resumes_cases env jd resumes :
  sort_resumes env jd resumes
  = if is_empty jd || is_empty (strip jd)
    then HttpError 400 "Job description cannot be empty"
    else if is_empty resumes
    then HttpError 400 "At least one resume must be provided"
    else if is_empty (omap process_upload resumes)
    then HttpError 400 "No valid resumes could be processed"
    else match Scorer.score_resumes encode cos_sim jd
                 (omap process_upload resumes) with
         | None => HttpError 500 "Internal server error"
         | Some scores_data =>
             Ok {| candidates :=
                     imap (fun idx score_data =>
                             to_candidate (uuid4 env idx) score_data)
                          scores_data;
                   jobDescription := jd;
                   analysisTime := (end_time env - start_time env)%Q |}
         end.
Proof.
  unfold Api.sort_resumes.
  destruct (is_empty jd || is_empty (strip jd)); [reflexivity|].
  destruct (is_empty resumes); [reflexivity|].
  destruct (is_empty (omap process_upload resumes)); [reflexivity|].
  destruct (Scorer.score_resumes encode cos_sim jd
              (omap process_upload resumes)) as [scores_data|] eqn:Hs;
    [|reflexivity].
  do 2 f_equal.
  apply sort_desc_fixed.
  apply ScorerFacts.score_resumes_inv in Hs as (e & scored & _ & _ & ->).
  apply (StronglySorted_unmap score_data_of
           (descending Scorer.match_percentage)).
  rewrite score_data_of_imap. apply sort_desc_sorted.
Qed.

End WithServices.

End ApiFacts.

(** ** Ranking endpoint: claims C3 and C9 *)

Section RankingClaims.

Context {embedding : Type}.
Variable encode : text -> option embedding.
Variable cos_sim : embedding -> embedding -> Q.
Variable extract_text : list Byte.byte -> text -> option text.
Variable extract_entities : text -> option (gmap string (list text)).
Variable generate_summary : text -> option text.
Variable extract_skills : text -> option (list text).
Variable extract_education : text -> option (list text).
Variable _infer_name : gmap string (list text) -> text -> text -> text.

Local Abbreviation process_upload :=
  (Api.process_upload extract_text extract_entities generate_summary
     extract_skills extract_education _infer_name).
Local Abbreviation sort_resumes :=
  (Api.sort_resumes encode cos_sim extract_text extract_entities
     generate_summary extract_skills extract_education _infer_name).

(** C3: the ranking that [sort_resumes] returns is in descending order of
    match percentage, and documents with the same match percentage stand
    in it in the order in which they were read: for every percentage, the
    candidates holding it are, in order, the score data of the surviving
    uploads holding it.  A ranking is returned whenever the job
    description is not blank, a document survives and the model does not
    raise. *)
Theorem ranking_sorted_and_stable (env : Api.request_env)
    (job_description : text) (resumes : list Api.upload) :
  ((forall t, is_Some (encode t)) ->
   is_empty (strip job_description) = false ->
   omap process_upload resumes <> [] ->
   exists resp, sort_resumes env job_description resumes = Api.Ok resp)
  /\ forall resp,
       sort_resumes env job_description resumes = Api.Ok resp ->
       exists job_embedding scored,
         Forall2
           (fun d r =>
              Scorer.score_one encode cos_sim job_description job_embedding d
              = Some r)
           (omap process_upload resumes) scored
         /\ StronglySorted
              (fun a b => (Api.matchPercentage b <= Api.matchPercentage a)%Z)
              (Api.candidates resp)
         /\ forall p : Z,
              List.filter (fun r => (Scorer.match_percentage r =? p)%Z)
                          (List.map Api.score_data_of (Api.candidates resp))
              = List.filter (fun r => (Scorer.match_percentage r =? p)%Z)
                            scored.
Proof.
  rewrite ApiFacts.sort_resumes_cases. split.
  - intros Htotal Hjd Hsome.
    assert (Hblank : is_empty job_description
                     || is_empty (strip job_description) = false)
      by (destruct job_description; [discriminate Hjd|exact Hjd]).
    rewrite Hblank.
    apply is_empty_false in Hsome. rewrite Hsome.
    assert (Hres : is_empty resumes = false)
      by (destruct resumes; [discriminate Hsome|reflexivity]).
    rewrite Hres.
    destruct (ScorerFacts.score_resumes_total encode cos_sim job_description
                (omap process_upload resumes) Htotal) as [scores_data ->].
    eexists. reflexivity.
  - intros resp H.
    destruct (is_empty job_description || is_empty (strip job_description));
      [discriminate|].
    destruct (is_empty resumes); [discriminate|].
    destruct (is_empty (omap process_upload resumes)); [discriminate|].
    destruct (Scorer.score_resumes encode cos_sim job_description
                (omap process_upload resumes)) as [scores_data|] eqn:Hs;
      [|discriminate].
    injection H as <-. simpl.
    apply ScorerFacts.score_resumes_inv in Hs as (e & scored & _ & Hall & ->).
    exists e, scored. split; [exact Hall|]. split.
    + apply (StronglySorted_unmap Api.score_data_of
               (descending Scorer.match_percentage)).
      rewrite ApiFacts.score_data_of_imap. apply sort_desc_sorted.
    + intros p. rewrite ApiFacts.score_data_of_imap. apply sort_desc_stable.
Qed.

(** C9, as stated, fails for scoring: the ranking is computed for the
    whole batch outside the per-file handler, so one document on which
    the model raises aborts the request although another one survives. *)
Lemma scoring_failure_aborts_batch :
  Fixtures.sort_resumes_with (Fixtures.encode_unless "poison") (95 # 100)
    (Fixtures.env_at 0 1) "python developer"
    [Fixtures.upload_of "a.pdf" "Java engineer.";
     Fixtures.upload_of "b.pdf" "Some poison here."]
  = Api.HttpError 500 "Internal server error"
  /\ exists resp,
       Fixtures.sort_resumes_with (Fixtures.encode_unless "poison") (95 # 100)
         (Fixtures.env_at 0 1) "python developer"
         [Fixtures.upload_of "a.pdf" "Java engineer."]
       = Api.Ok resp
       /\ List.map Api.filename (Api.candidates resp) = ["a.pdf"].
Proof.
  split; [vm_compute; reflexivity|].
  eexists. split; vm_compute; reflexivity.
Qed.

Lemma filenames_of_candidates (ids : nat -> text) l :
  List.map Api.filename
    (imap (fun idx score_data => Api.to_candidate (ids idx) score_data) l)
  = List.map Scorer.filename l.
Proof.
  rewrite <- (ApiFacts.score_data_of_imap ids l) at 2.
  rewrite List.map_map. reflexivity.
Qed.

(** C9 (amended): a document that fails extraction or enrichment (or has
    no name, no content or no text) is skipped, and the response is the
    one the remaining uploads get on their own; with a job description
    that is not blank the request ends in a 400 exactly when no document
    survives; a successful response holds one candidate per surviving
    document; and a failure while scoring any survivor aborts the whole
    request with a 500. *)
Theorem failed_documents_are_skipped (env : Api.request_env)
    (job_description : text) :
  (forall pre f post,
      process_upload f = None -> pre ++ post <> [] ->
      sort_resumes env job_description (pre ++ f :: post)
      = sort_resumes env job_description (pre ++ post))
  /\ (forall resumes,
        is_empty (strip job_description) = false ->
        (omap process_upload resumes = []
         <-> exists detail,
             sort_resumes env job_description resumes = Api.HttpError 400 detail))
  /\ (forall resumes resp,
        sort_resumes env job_description resumes = Api.Ok resp ->
        Permutation (List.map Api.filename (Api.candidates resp))
                    (List.map Scorer.pr_filename (omap process_upload resumes)))
  /\ (forall resumes,
        is_empty (strip job_description) = false ->
        omap process_upload resumes <> [] ->
        Scorer.score_resumes encode cos_sim job_description
          (omap process_upload resumes) = None ->
        sort_resumes env job_description resumes
        = Api.HttpError 500 "Internal server error").
Proof.
  assert (Hblank : is_empty (strip job_description) = false ->
                   is_empty job_description || is_empty (strip job_description)
                   = false).
  { intros Hs. destruct job_description; [discriminate Hs|]. exact Hs. }
  split; [|split; [|split]].
  - intros pre f post Hf Hne.
    rewrite !ApiFacts.sort_resumes_cases.
    assert (Hsame : omap process_upload (pre ++ f :: post)
                    = omap process_upload (pre ++ post)).
    { rewrite !omap_app. simpl. now rewrite Hf. }
    rewrite Hsame.
    apply is_empty_false in Hne. rewrite Hne.
    assert (Hne' : is_empty (pre ++ f :: post) = false)
      by (destruct pre; reflexivity).
    now rewrite Hne'.
  - intros resumes Hs. rewrite ApiFacts.sort_resumes_cases, (Hblank Hs).
    split.
    + intros Hnone. rewrite Hnone. simpl.
      destruct (is_empty resumes); eexists; reflexivity.
    + intros [detail H].
      destruct (is_empty resumes) eqn:Hr.
      * apply is_empty_true in Hr. now subst.
      * destruct (is_empty (omap process_upload resumes)) eqn:Ho;
          [now apply is_empty_true in Ho|].
        destruct (Scorer.score_resumes encode cos_sim job_description
                    (omap process_upload resumes)); discriminate.
  - intros resumes resp. rewrite ApiFacts.sort_resumes_cases. intros H.
    destruct (is_empty job_description || is_empty (strip job_description));
      [discriminate|].
    destruct (is_empty resumes); [discriminate|].
    destruct (is_empty (omap process_upload resumes)); [discriminate|].
    destruct (Scorer.score_resumes encode cos_sim job_description
                (omap process_upload resumes)) as [scores_data|] eqn:Hsc;
      [|discriminate].
    injection H as <-. simpl. rewrite filenames_of_candidates.
    apply ScorerFacts.score_resumes_inv in Hsc as (e & scored & _ & Hall & ->).
    rewrite (Permutation_map Scorer.filename (sort_desc_perm _ scored)).
    assert (Heq : List.map Scorer.filename scored
                  = List.map Scorer.pr_filename (omap process_upload resumes)).
    { induction Hall as [|d r ds rs' Hd _ IH]; [reflexivity|]. simpl.
      apply ScorerFacts.score_one_inv in Hd as (cs & _ & _ & _ & _ & Hf & _).
      now rewrite Hf, IH. }
    now rewrite Heq.
  - intros resumes Hs Hne Hnone.
    rewrite ApiFacts.sort_resumes_cases, (Hblank Hs).
    apply is_empty_false in Hne. rewrite Hne, Hnone.
    destruct resumes; [now apply is_empty_false in Hne|reflexivity].
Qed.

End RankingClaims.

Lemma ranking_sorted_and_stable_witness :
  exists resp,
    Fixtures.sort_resumes_with Fixtures.encode_text (95 # 100)
      (Fixtures.env_at 0 1) "python and sql"
      [Fixtures.upload_of "a.pdf" "Java engineer.";
       Fixtures.upload_of "b.pdf" "Python engineer.";
       Fixtures.upload_of "c.pdf" "Ruby engineer."]
    = Api.Ok resp
    /\ List.map Api.filename (Api.candidates resp) = ["b.pdf"; "a.pdf"; "c.pdf"]
    /\ List.map Api.matchPercentage (Api.candidates resp) = [88; 80; 80]%Z
    /\ StronglySorted
         (fun a b => (Api.matchPercentage b <= Api.matchPercentage a)%Z)
         (Api.candidates resp).
Proof.
  destruct (ranking_sorted_and_stable Fixtures.encode_text
              (Fixtures.flat_similarity (95 # 100)) Fixtures.read_bytes
              Fixtures.no_entities Fixtures.first_words Fixtures.no_list
              Fixtures.no_list Fixtures.name_of_file
              (Fixtures.env_at 0 1) "python and sql"
              [Fixtures.upload_of "a.pdf" "Java engineer.";
               Fixtures.upload_of "b.pdf" "Python engineer.";
               Fixtures.upload_of "c.pdf" "Ruby engineer."])
    as [Hreturns Hranked].
  destruct Hreturns as [resp Hresp].
  - intros t. eexists. reflexivity.
  - reflexivity.
  - vm_compute. discriminate.
  - exists resp. split; [exact Hresp|].
    destruct (Hranked resp Hresp) as (e & scored & _ & Hsorted & _).
    split; [|split; [|exact Hsorted]].
    + vm_compute in Hresp. injection Hresp as <-. reflexivity.
    + vm_compute in Hresp. injection Hresp as <-. reflexivity.
Defined.

Lemma failed_documents_are_skipped_witness :
  Fixtures.sort_resumes_with Fixtures.encode_text (95 # 100)
    (Fixtures.env_at 0 1) "python and sql"
    [Fixtures.upload_of "a.pdf" "Java engineer.";
     Fixtures.upload_of "corrupt.pdf" "Python engineer.";
     Fixtures.upload_of "c.pdf" "Ruby engineer."]
  = Fixtures.sort_resumes_with Fixtures.encode_text (95 # 100)
      (Fixtures.env_at 0 1) "python and sql"
      [Fixtures.upload_of "a.pdf" "Java engineer.";
       Fixtures.upload_of "c.pdf" "Ruby engineer."]
  /\ (exists detail,
        Fixtures.sort_resumes_with Fixtures.encode_text (95 # 100)
          (Fixtures.env_at 0 1) "python and sql"
          [Fixtures.upload_of "corrupt.pdf" "Python engineer."]
        = Api.HttpError 400 detail)
  /\ (exists resp,
        Fixtures.sort_resumes_with Fixtures.encode_text (95 # 100)
          (Fixtures.env_at 0 1) "python and sql"
          [Fixtures.upload_of "a.pdf" "Java engineer.";
           Fixtures.upload_of "corrupt.pdf" "Python engineer.";
           Fixtures.upload_of "c.pdf" "Ruby engineer."]
        = Api.Ok resp
        /\ Permutation (List.map Api.filename (Api.candidates resp))
                       ["a.pdf"; "c.pdf"])
  /\ Fixtures.sort_resumes_with (Fixtures.encode_unless "poison") (95 # 100)
       (Fixtures.env_at 0 1) "python and sql"
       [Fixtures.upload_of "a.pdf" "Java engineer.";
        Fixtures.upload_of "b.pdf" "Some poison here."]
     = Api.HttpError 500 "Internal server error".
Proof.
  destruct (failed_documents_are_skipped Fixtures.encode_text
              (Fixtures.flat_similarity (95 # 100)) Fixtures.read_bytes
              Fixtures.no_entities Fixtures.first_words Fixtures.no_list
              Fixtures.no_list Fixtures.name_of_file
              (Fixtures.env_at 0 1) "python and sql")
    as (Hskip & Hnone & Hevery & _).
  split; [|split; [|split]].
  - apply (Hskip [Fixtures.upload_of "a.pdf" "Java engineer."]
             (Fixtures.upload_of "corrupt.pdf" "Python engineer.")
             [Fixtures.upload_of "c.pdf" "Ruby engineer."]).
    + reflexivity.
    + discriminate.
  - apply (Hnone [Fixtures.upload_of "corrupt.pdf" "Python engineer."]).
    + reflexivity.
    + reflexivity.
  - destruct (Fixtures.sort_resumes_with Fixtures.encode_text (95 # 100)
                (Fixtures.env_at 0 1) "python and sql"
                [Fixtures.upload_of "a.pdf" "Java engineer.";
                 Fixtures.upload_of "corrupt.pdf" "Python engineer.";
                 Fixtures.upload_of "c.pdf" "Ruby engineer."])
      as [resp|status_code detail] eqn:Hresp;
      [|vm_compute in Hresp; discriminate].
    exists resp. split; [reflexivity|].
    exact (Hevery _ resp Hresp).
  - apply (proj2 (proj2 (proj2 (failed_documents_are_skipped
                    (Fixtures.encode_unless "poison")
                    (Fixtures.flat_similarity (95 # 100)) Fixtures.read_bytes
                    Fixtures.no_entities Fixtures.first_words Fixtures.no_list
                    Fixtures.no_list Fixtures.name_of_file
                    (Fixtures.env_at 0 1) "python and sql")))
             [Fixtures.upload_of "a.pdf" "Java engineer.";
              Fixtures.upload_of "b.pdf" "Some poison here."]).
    + reflexivity.
    + vm_compute. discriminate.
    + vm_compute. reflexivity.
Defined.

(** ** Evidence: claim C5 *)

Module EvidenceFacts.
Import Scorer.













End EvidenceFacts.




(** ** Conversation cache: claim C8 *)

Module ChatStoreFacts.
Import ChatStore.

Lemma slice_from_last {A} (n : Z) (l : list A) :
  (0 < n < Z.of_nat (length l))%Z ->
  slice_from (- n) l = skipn (length l - Z.to_nat n) l.
Proof.
  intros Hn. unfold slice_from.
  destruct (- n <? 0)%Z eqn:Hneg; [|apply Z.ltb_ge in Hneg; lia].
  f_equal. lia.
Qed.

Lemma add_lookup now cid role text s :
  data (add now cid role text s) !! cid
  = Some {| messages :=
              kept s (messages (default {| messages := []; updated := 0 |}
                                        (data s !! cid)))
                   {| role := role; body := text; ts := now |};
            updated := now |}.
Proof. unfold add. simpl. now rewrite lookup_insert_eq. Qed.

Lemma kept_length s old m :
  (0 < max_messages s)%Z ->
  (Z.of_nat (length (kept s old m)) <= max_messages s)%Z.
Proof.
  intros Hmax. unfold kept.
  destruct (max_messages s <? Z.of_nat (length (old ++ [m])))%Z eqn:Hover.
  - apply Z.ltb_lt in Hover.
    rewrite slice_from_last by lia. rewrite length_skipn. lia.
  - apply Z.ltb_ge in Hover. exact Hover.
Qed.

Lemma kept_room s old m :
  (Z.of_nat (length old) < max_messages s)%Z -> kept s old m = old ++ [m].
Proof.
  intros Hroom. unfold kept.
  destruct (max_messages s <? Z.of_nat (length (old ++ [m])))%Z eqn:Hover;
    [|reflexivity].
  apply Z.ltb_lt in Hover. rewrite length_app in Hover. simpl in Hover. lia.
Qed.

Lemma kept_full s old m :
  (0 < max_messages s)%Z ->
  Z.of_nat (length old) = max_messages s -> kept s old m = tl old ++ [m].
Proof.
  intros Hmax Hfull. unfold kept.
  assert (Hlen : length (old ++ [m]) = S (length old))
    by (rewrite length_app; simpl; lia).
  destruct (max_messages s <? Z.of_nat (length (old ++ [m])))%Z eqn:Hover;
    [|apply Z.ltb_ge in Hover; lia].
  rewrite slice_from_last by lia.
  replace (length (old ++ [m]) - Z.to_nat (max_messages s))%nat with 1%nat
    by lia.
  destruct old as [|x old]; [simpl in Hfull; lia|reflexivity].
Qed.

End ChatStoreFacts.

(** C8: the conversation cache keeps every record it writes within the
    window of [max_messages] entries (60 by default), dropping the oldest
    first; a read more than [ttl] seconds (86400 by default) after the
    last update answers the empty transcript and removes the record; a
    read within the [ttl] answers the entries in order and leaves the
    store as it is.  Only a read evicts: a write keeps the messages
    already there whatever their age. *)
Theorem chat_store_window_and_ttl (s : ChatStore.t) (cid : text) :
  (0 < ChatStore.max_messages s)%Z ->
  let old :=
    match ChatStore.data s !! cid with
    | Some e => ChatStore.messages e
    | None => []
    end in
  (forall now role text,
      let m := {| ChatStore.role := role; ChatStore.body := text;
                  ChatStore.ts := now |} in
      exists e',
        ChatStore.data (ChatStore.add now cid role text s) !! cid = Some e'
        /\ ChatStore.updated e' = now
        /\ (Z.of_nat (length (ChatStore.messages e')) <= ChatStore.max_messages s)%Z
        /\ ((Z.of_nat (length old) < ChatStore.max_messages s)%Z ->
            ChatStore.messages e' = old ++ [m])
        /\ (Z.of_nat (length old) = ChatStore.max_messages s ->
            ChatStore.messages e' = tl old ++ [m])
        /\ (forall other, other <> cid ->
              ChatStore.data (ChatStore.add now cid role text s) !! other
              = ChatStore.data s !! other))
  /\ (forall now e,
        ChatStore.data s !! cid = Some e ->
        (inject_Z (ChatStore.ttl s) < now - ChatStore.updated e)%Q ->
        fst (ChatStore.get now cid s) = []
        /\ ChatStore.data (snd (ChatStore.get now cid s)) !! cid = None)
  /\ (forall now e,
        ChatStore.data s !! cid = Some e ->
        (now - ChatStore.updated e <= inject_Z (ChatStore.ttl s))%Q ->
        ChatStore.get now cid s
        = (List.map (fun m => (ChatStore.role m, ChatStore.body m))
                    (ChatStore.messages e), s))
  /\ (ChatStore.data s !! cid = None ->
      forall now, ChatStore.get now cid s = ([], s)).
Proof.
  intros Hmax old. split; [|split; [|split]].
  - intros now role text m.
    eexists. split; [apply ChatStoreFacts.add_lookup|]. simpl.
    assert (Hold : ChatStore.messages
                     (default {| ChatStore.messages := []; ChatStore.updated := 0 |}
                              (ChatStore.data s !! cid)) = old).
    { subst old. now destruct (ChatStore.data s !! cid). }
    rewrite Hold.
    split; [reflexivity|].
    split; [now apply ChatStoreFacts.kept_length|].
    split; [apply ChatStoreFacts.kept_room|].
    split; [now apply ChatStoreFacts.kept_full|].
    intros other Hne. unfold ChatStore.add. simpl.
    now rewrite lookup_insert_ne.
  - intros now e He Hlate. unfold ChatStore.get. rewrite He.
    apply Qltb_lt in Hlate. rewrite Hlate. simpl.
    split; [reflexivity|apply lookup_delete_eq].
  - intros now e He Hfresh. unfold ChatStore.get. rewrite He.
    apply Qltb_ge in Hfresh. now rewrite Hfresh.
  - intros Hnone now. unfold ChatStore.get. now rewrite Hnone.
Qed.

Lemma chat_store_window_and_ttl_witness :
  (exists e',
      ChatStore.data
        (ChatStore.add 10 "c1" "user" "msg-60" (Fixtures.filled_store 60))
      !! ("c1" : text) = Some e'
      /\ Fixtures.bodies e'
         = List.map (fun i => "msg-" ++ text_of_nat i) (seq 1 60))
  /\ fst (ChatStore.get 86401 "c1" (Fixtures.filled_store 60)) = []
  /\ List.map snd (fst (ChatStore.get 86400 "c1" (Fixtures.filled_store 60)))
     = List.map (fun i => "msg-" ++ text_of_nat i) (seq 0 60).
Proof.
  assert (Hmax : (0 < ChatStore.max_messages (Fixtures.filled_store 60))%Z)
    by (vm_compute; reflexivity).
  destruct (chat_store_window_and_ttl (Fixtures.filled_store 60) "c1" Hmax)
    as (Hadd & Hlate & Hfresh & _).
  destruct (ChatStore.data (Fixtures.filled_store 60) !! ("c1" : text))
    as [e|] eqn:He; [|vm_compute in He; discriminate].
  assert (Hbodies : Fixtures.bodies e
                    = List.map (fun i => "msg-" ++ text_of_nat i) (seq 0 60)
                    /\ ChatStore.updated e = 0%Q).
  { vm_compute in He. injection He as <-. split; vm_compute; reflexivity. }
  destruct Hbodies as [Hb Hu].
  split; [|split].
  - destruct (Hadd 10%Q "user" "msg-60") as (e' & Hlookup & _ & _ & _ & Hfull & _).
    exists e'. split; [exact Hlookup|].
    unfold Fixtures.bodies. rewrite Hfull.
    + rewrite List.map_app. simpl List.map at 2.
      assert (Htl : List.map ChatStore.body (tl (ChatStore.messages e))
                    = tl (List.map ChatStore.body (ChatStore.messages e)))
        by (destruct (ChatStore.messages e); reflexivity).
      rewrite Htl. fold (Fixtures.bodies e). rewrite Hb.
      vm_compute. reflexivity.
    + assert (Hlen : length (Fixtures.bodies e) = 60%nat)
        by (rewrite Hb; reflexivity).
      unfold Fixtures.bodies in Hlen. rewrite length_map in Hlen.
      rewrite Hlen. reflexivity.
  - apply (Hlate 86401%Q e eq_refl). rewrite Hu. reflexivity.
  - rewrite (Hfresh 86400%Q e eq_refl).
    + simpl fst. rewrite List.map_map. simpl. exact Hb.
    + rewrite Hu. vm_compute. discriminate.
Defined.

(** ** Regular expression lemmas *)

Module ReFacts.
Import Re.

Section Forward.

Context {R : Type}.

Lemma rep_loop_forward
    (body : mstate -> (mstate -> option R) -> option R) lo hi :
  forward body ->
  forall fuel n k st x,
    rep_loop body lo hi k fuel n st = Some x ->
    exists st', rest st' `suffix_of` rest st /\ k st' = Some x.
Proof.
  intros Hbody.
  assert (Hstop : forall n (k : mstate -> option R) st x,
             (if (lo <=? n)%nat then k st else None) = Some x ->
             exists st', rest st' `suffix_of` rest st /\ k st' = Some x).
  { intros n k st x H. destruct (lo <=? n)%nat; [|discriminate].
    now exists st. }
  induction fuel as [|fuel IH]; intros n k st x H.
  - now apply (Hstop n).
  - cbn [rep_loop] in H. destruct (below n hi); [|now apply (Hstop n)].
    match type of H with
    | match body st ?k' with _ => _ end = _ =>
        destruct (body st k') as [y|] eqn:Hrun
    end; [|now apply (Hstop n)].
    injection H as ->.
    apply Hbody in Hrun as (st1 & Hsuf1 & Hk).
    destruct (length (rest st1) <? length (rest st))%nat; [|discriminate].
    apply IH in Hk as (st' & Hsuf & Hk).
    exists st'. split; [now transitivity (rest st1)|exact Hk].
Qed.

Lemma run_forward r : forward (run (R := R) r).
Proof.
  induction r as [|p|r1 IH1 r2 IH2|r1 IH1 r2 IH2|lo hi r1 IH1| | |n r1 IH1];
    intros st k x H; cbn [run] in H.
  - now exists st.
  - destruct (rest st) as [|c cs] eqn:Hrest; [discriminate|].
    destruct (p c); [|discriminate].
    eexists. split; [|exact H]. cbn [rest]. now apply suffix_cons_r.
  - apply IH1 in H as (st1 & Hsuf1 & H).
    apply IH2 in H as (st2 & Hsuf2 & H).
    exists st2. split; [now transitivity (rest st1)|exact H].
  - destruct (run r1 st k) as [y|] eqn:Hleft.
    + injection H as ->. now apply IH1.
    + now apply IH2.
  - now apply (rep_loop_forward (run r1) lo hi IH1) in H.
  - destruct (at_boundary st); [|discriminate]. now exists st.
  - destruct (prev st); [discriminate|]. now exists st.
  - apply IH1 in H as (st1 & Hsuf1 & H).
    eexists. split; [|exact H]. exact Hsuf1.
Qed.

End Forward.

Lemma match_at_forward r st st' :
  match_at r st = Some st' -> rest st' `suffix_of` rest st.
Proof.
  intros H. apply run_forward in H as (st1 & Hsuf & H).
  now injection H as <-.
Qed.

Lemma consumed_rest st st' :
  rest st' `suffix_of` rest st -> consumed st st' ++ rest st' = rest st.
Proof.
  intros [p Hp]. unfold consumed. rewrite Hp, length_app.
  replace (length p + length (rest st') - length (rest st'))%nat
    with (length p) by lia.
  now rewrite take_app_length.
Qed.

(** A scan loses nothing of its subject: the skipped characters and the
    matched texts, in order, make it up again. *)
Lemma scan_cover r fuel before s :
  (length s < fuel)%nat -> source_of (scan fuel r before s) = s.
Proof.
  revert before s. induction fuel as [|fuel IH]; intros before s Hfuel; [lia|].
  assert (Hskip :
    source_of match s with
              | [] => []
              | c :: s' => Skip c :: scan fuel r (Some c) s'
              end = s).
  { destruct s as [|c s']; [reflexivity|].
    unfold source_of. cbn [flat_map]. fold (source_of (scan fuel r (Some c) s')).
    rewrite IH by (simpl in Hfuel; lia). reflexivity. }
  cbn [scan].
  destruct (match_at r {| prev := before; rest := s; groups := [] |})
    as [st'|] eqn:Hm; [|exact Hskip].
  destruct (length (rest st') <? length s)%nat eqn:Hlt; [|exact Hskip].
  apply Nat.ltb_lt in Hlt.
  unfold source_of. cbn [flat_map].
  fold (source_of (scan fuel r (prev st') (rest st'))).
  rewrite IH by lia.
  apply match_at_forward in Hm.
  now apply (consumed_rest {| prev := before; rest := s; groups := [] |}).
Qed.

Lemma pieces_cover r s : source_of (pieces r s) = s.
Proof. apply scan_cover. lia. Qed.

(** Replacing by the matched text itself changes nothing, and a
    substitution by the empty text only removes characters. *)
Lemma sub_length r s : (length (sub r "" s) <= length s)%nat.
Proof.
  rewrite <- (pieces_cover r s) at 2. unfold sub, source_of.
  induction (pieces r s) as [|[c|m st] ps IH]; cbn [flat_map];
    rewrite ?length_app; simpl; lia.
Qed.

End ReFacts.

(** ** Question answering lemmas *)

Module AskFacts.
Import Ask.

(** *** The word pattern [[A-Za-z]{4,}] *)

Lemma split_run_app s : fst (split_run s) ++ snd (split_run s) = s.
Proof.
  induction s as [|c s IH]; simpl; [reflexivity|].
  destruct (is_ascii_letter c); simpl; [now rewrite IH|reflexivity].
Qed.

Lemma split_run_length s :
  (length (snd (split_run s)) = length s - length (fst (split_run s)))%nat.
Proof.
  rewrite <- (split_run_app s) at 2. rewrite length_app. lia.
Qed.

Lemma rep_loop_step {R} body lo hi (k : Re.mstate -> option R) fuel n st :
  Re.rep_loop body lo hi k (S fuel) n st
  = if Re.below n hi then
      match body st
              (fun st' =>
                 if (length (Re.rest st') <? length (Re.rest st))%nat
                 then Re.rep_loop body lo hi k fuel (S n) st' else None) with
      | Some x => Some x
      | None => if (lo <=? n)%nat then k st else None
      end
    else if (lo <=? n)%nat then k st else None.
Proof. reflexivity. Qed.

Lemma run_chr {R} p st (k : Re.mstate -> option R) :
  Re.run (Re.Chr p) st k
  = match Re.rest st with
    | c :: cs =>
        if p c
        then k {| Re.prev := Some c; Re.rest := cs; Re.groups := Re.groups st |}
        else None
    | [] => None
    end.
Proof. reflexivity. Qed.














(** The CGPA/GPA rule, once the earlier rules are out of the way. *)
Lemma dispatch_gpa question txt lines headings kw scored top_sents :
  asks_gpa question = true ->
  dispatch (strip question) txt lines headings kw scored top_sents
  = match Re.finditer p_gpa_value txt with
    | first :: _ =>
        ("CGPA/GPA: " ++ Re.group 2 (snd first),
         match List.find (fun l => Re.search p_gpa_word l) lines with
         | Some l => if is_empty l then [] else [(1%Q, prefix_slice 200 l)]
         | None => []
         end)
    | [] => ("CGPA/GPA not explicitly mentioned.", [])
    end.
Proof.
  unfold asks_gpa. intros H.
  apply andb_true_iff in H as [H Hgpa].
  apply andb_true_iff in H as [Hlead Hexp].
  apply negb_true_iff in Hlead, Hexp.
  unfold dispatch. now rewrite Hlead, Hexp, Hgpa.
Qed.

(** The lines kept by [lines_of] are never empty. *)
Lemma lines_of_nonempty txt l : In l (lines_of txt) -> is_empty l = false.
Proof.
  unfold lines_of. intros H. apply List.filter_In in H as [_ H].
  apply andb_true_iff in H as [H _]. now apply negb_true_iff in H.
Qed.

Section WithModel.

Context {embedding : Type}.
Variable encode : text -> option embedding.
Variable cos_sim : embedding -> embedding -> Q.

(** [candidate_ask] is a cache read, the response computed from the
    transcript read, and two cache writes. *)
Lemma candidate_ask_respond env chat_store question resume_text candidate_id
    history :
  candidate_ask encode cos_sim env chat_store question resume_text
    candidate_id history
  = match respond encode cos_sim
            (transcript_read env chat_store candidate_id)
            question resume_text history with
    | None => (None, snd (cache_read env chat_store candidate_id))
    | Some (answer, result) =>
        (Some result,
         cache_write env candidate_id (strip question) answer
           (snd (cache_read env chat_store candidate_id)))
    end.
Proof.
  unfold candidate_ask, respond, transcript_read, cache_read, cache_write.
  cbv zeta.
  destruct candidate_id as [c|]; [destruct (is_empty c)|];
    cbn [negb default from_option id];
    try destruct (ChatStore.get (now_read env) c chat_store)
      as [server_hist store1];
    cbn [fst snd];
    (destruct (encode (query_of (context_of _ history) (strip question)))
      as [q_emb|]; [|reflexivity]);
    cbn [mbind option_bind];
    (destruct (score_chunks encode cos_sim q_emb _ _) as [scored|];
     [|reflexivity]);
    cbn [mbind option_bind];
    destruct (dispatch _ _ _ _ _ _ _) as [answer top_sents];
    reflexivity.
Qed.

Lemma candidate_ask_response env chat_store question resume_text candidate_id
    history :
  fst (candidate_ask encode cos_sim env chat_store question resume_text
         candidate_id history)
  = option_map snd
      (respond encode cos_sim (transcript_read env chat_store candidate_id)
         question resume_text history).
Proof.
  rewrite candidate_ask_respond.
  destruct (respond encode cos_sim _ question resume_text history)
    as [[answer result]|]; reflexivity.
Qed.

(** With a model that never raises the endpoint answers. *)
Lemma respond_total server_hist question resume_text history :
  (forall t, is_Some (encode t)) ->
  is_Some (respond encode cos_sim server_hist question resume_text history).
Proof.
  intros Htotal. unfold respond. cbv zeta.
  destruct (Htotal (query_of (context_of server_hist history) (strip question)))
    as [q_emb ->].
  cbn [mbind option_bind].
  assert (Hs : is_Some
                 (score_chunks encode cos_sim q_emb
                    (keywords_of
                       (query_of (context_of server_hist history)
                                 (strip question)))
                    (Chunker._create_chunks (clean_text resume_text) 400))).
  { unfold score_chunks.
    match goal with
    | |- is_Some (mapM ?f ?l ≫= _) =>
        assert (Hm : is_Some (mapM f l))
    end.
    { apply mapM_is_Some_2, List.Forall_forall. intros ch _. simpl.
      destruct (Htotal ch) as [e ->]. now eexists. }
    destruct Hm as [per_chunk ->]. now eexists. }
  destruct Hs as [scored ->]. cbn [mbind option_bind].
  destruct (dispatch _ _ _ _ _ _ _). now eexists.
Qed.

Lemma respond_gpa server_hist question resume_text history answer result :
  asks_gpa question = true ->
  respond encode cos_sim server_hist question resume_text history
  = Some (answer, result) ->
  match gpa_values resume_text with
  | [] =>
      Ask.answer result = "CGPA/GPA not explicitly mentioned."
      /\ snippets result = []
  | val :: _ =>
      Ask.answer result = strip ("CGPA/GPA: " ++ val)
      /\ snippets result
         = match gpa_line resume_text with
           | Some l => [strip (prefix_slice 200 l)]
           | None => []
           end
  end.
Proof.
  intros Hgpa. unfold respond. cbv zeta.
  destruct (encode _) as [q_emb|]; [|discriminate].
  cbn [mbind option_bind].
  destruct (score_chunks encode cos_sim q_emb _ _) as [scored|]; [|discriminate].
  cbn [mbind option_bind].
  rewrite (dispatch_gpa _ _ _ _ _ _ _ Hgpa).
  unfold gpa_values, gpa_line.
  destruct (Re.finditer p_gpa_value (clean_text resume_text)) as [|first rest].
  - intros H. injection H as _ <-. split; reflexivity.
  - cbn [List.map].
    destruct (List.find (fun l => Re.search p_gpa_word l)
                        (lines_of (clean_text resume_text))) as [l|] eqn:Hfind.
    + apply List.find_some in Hfind as [Hin _].
      rewrite (lines_of_nonempty _ _ Hin).
      intros H. injection H as _ <-. split; reflexivity.
    + intros H. injection H as _ <-. split; reflexivity.
Qed.

End WithModel.

End AskFacts.

(** ** Question answering: claim C7 *)

(** C7, as stated, fails in its second half: the line shown is taken from
    the lines that survive the noise filter, and a line of fewer than 25
    characters does not.  The value is found and no evidence is shown. *)
Lemma gpa_value_without_evidence :
  Ask.asks_gpa "What is their CGPA?" = true
  /\ Ask.gpa_values "CGPA: 9.1" = ["9.1"]
  /\ fst (Ask.candidate_ask Fixtures.encode_text
            (Fixtures.flat_similarity (1 # 2))
            {| Ask.now_read := 0; Ask.now_user := 0; Ask.now_assistant := 0 |}
            ChatStore.create "What is their CGPA?" "CGPA: 9.1" None
            Ask.NoHistory)
     = Some {| Ask.answer := "CGPA/GPA: 9.1";
               Ask.snippets := [];
               Ask.scores := [] |}.
Proof. repeat split; vm_compute; reflexivity. Qed.

(** C7 (amended): for every question that names "cgpa" or "gpa" and
    triggers no earlier rule, if the cleaned text holds no CGPA/GPA value
    the answer is exactly "CGPA/GPA not explicitly mentioned." and the
    evidence is empty; if it holds one the answer states the first value
    found, and the evidence is the first line kept by the noise filter
    that names CGPA or GPA, cut to 200 characters, or nothing when no
    such line is kept.  With a model that never raises, the question is
    answered. *)
Theorem gpa_rule {embedding : Type}
    (encode : text -> option embedding) (cos_sim : embedding -> embedding -> Q)
    (env : Ask.ask_env) (chat_store : ChatStore.t)
    (question resume_text : text) (candidate_id : option text)
    (history : Ask.history_field) :
  Ask.asks_gpa question = true ->
  ((forall t, is_Some (encode t)) ->
   is_Some (fst (Ask.candidate_ask encode cos_sim env chat_store question
                   resume_text candidate_id history)))
  /\ forall result,
       fst (Ask.candidate_ask encode cos_sim env chat_store question
              resume_text candidate_id history) = Some result ->
       match Ask.gpa_values resume_text with
       | [] =>
           Ask.answer result = "CGPA/GPA not explicitly mentioned."
           /\ Ask.snippets result = []
       | val :: _ =>
           Ask.answer result = strip ("CGPA/GPA: " ++ val)
           /\ Ask.snippets result
              = match Ask.gpa_line resume_text with
                | Some l => [strip (prefix_slice 200 l)]
                | None => []
                end
       end.
Proof.
  intros Hgpa. rewrite AskFacts.candidate_ask_response. split.
  - intros Htotal.
    destruct (AskFacts.respond_total encode cos_sim
                (Ask.transcript_read env chat_store candidate_id)
                question resume_text history Htotal) as [[answer result] ->].
    now eexists.
  - intros result Hres.
    destruct (Ask.respond encode cos_sim
                (Ask.transcript_read env chat_store candidate_id)
                question resume_text history)
      as [[answer result']|] eqn:Hr; [|discriminate].
    injection Hres as <-.
    exact (AskFacts.respond_gpa encode cos_sim _ _ _ _ _ _ Hgpa Hr).
Qed.

Lemma gpa_rule_witness :
  exists result,
    fst (Ask.candidate_ask Fixtures.encode_text
           (Fixtures.flat_similarity (1 # 2))
           {| Ask.now_read := 0; Ask.now_user := 0; Ask.now_assistant := 0 |}
           ChatStore.create "What is their CGPA?"
           "Led a team of 5 engineers to deliver the platform." None
           Ask.NoHistory) = Some result
    /\ Ask.answer result = "CGPA/GPA not explicitly mentioned."
    /\ Ask.snippets result = [].
Proof.
  destruct (gpa_rule Fixtures.encode_text (Fixtures.flat_similarity (1 # 2))
              {| Ask.now_read := 0; Ask.now_user := 0; Ask.now_assistant := 0 |}
              ChatStore.create "What is their CGPA?"
              "Led a team of 5 engineers to deliver the platform." None
              Ask.NoHistory eq_refl) as [Hanswered Hrule].
  destruct Hanswered as [result Hres]; [intros t; eexists; reflexivity|].
  exists result. split; [exact Hres|].
  exact (Hrule result Hres).
Defined.

(** ** Question answering: claim C6 *)




(** ** Determinism: claim C2 *)




(** ** Substrings, case and membership *)

Section ContainsFacts.

Lemma starts_with_spec p s :
  starts_with p s = true <-> exists post, s = p ++ post.
Proof.
  revert s. induction p as [|a p IH]; intros s; simpl.
  - split; [intros _; now exists s|reflexivity].
  - destruct s as [|b s].
    + split; [discriminate|]. intros [post H]. discriminate.
    + rewrite andb_true_iff, Ascii.eqb_eq, IH. split.
      * intros [-> [post ->]]. now exists post.
      * intros [post H]. injection H as -> ->. split; [reflexivity|].
        now exists post.
Qed.

Lemma contains_spec hay needle :
  contains hay needle = true <-> exists pre post, hay = pre ++ needle ++ post.
Proof.
  induction hay as [|c hay IH]; simpl.
  - rewrite orb_false_r, starts_with_spec. split.
    + intros [post H]. now exists [], post.
    + intros (pre & post & H). symmetry in H.
      apply app_eq_nil in H as [-> H]. apply app_eq_nil in H as [-> ->].
      now exists [].
  - rewrite orb_true_iff, starts_with_spec, IH. split.
    + intros [[post H]|(pre & post & H)].
      * now exists [], post.
      * exists (c :: pre), post. now rewrite H.
    + intros (pre & post & H). destruct pre as [|x pre].
      * left. now exists post.
      * right. injection H as -> H. now exists pre, post.
Qed.

Lemma contains_trans hay a b :
  contains hay a = true -> contains a b = true -> contains hay b = true.
Proof.
  rewrite !contains_spec.
  intros (pre & post & ->) (pre' & post' & ->).
  exists (pre ++ pre'), (post' ++ post). now rewrite <- !app_assoc.
Qed.

Lemma mem_In k l : Scorer.mem k l = true <-> In k l.
Proof.
  unfold Scorer.mem. rewrite existsb_exists. split.
  - intros (x & Hx & Heq). unfold text_eqb in Heq.
    apply bool_decide_eq_true in Heq. now subst.
  - intros H. exists k. split; [exact H|].
    unfold text_eqb. now apply bool_decide_eq_true.
Qed.

Lemma mem_not_In k l : Scorer.mem k l = false <-> ~ In k l.
Proof.
  rewrite <- mem_In. destruct (Scorer.mem k l).
  - split; [discriminate|]. intros H. now destruct H.
  - split; [intros _ H; discriminate|reflexivity].
Qed.

(** The "unique, preserve order" loop changes nothing in a list without
    repetition. *)
Lemma unique_from_fixed seen l :
  NoDup l -> (forall x, In x l -> ~ In x seen) ->
  Scorer.unique_from seen l = l.
Proof.
  revert seen. induction l as [|k l IH]; intros seen Hnd Hseen; simpl;
    [reflexivity|].
  apply NoDup_cons in Hnd as [Hk Hnd]. rewrite list_elem_of_In in Hk.
  destruct (Scorer.mem k seen) eqn:Hmem.
  - apply mem_In in Hmem. destruct (Hseen k); [now left|exact Hmem].
  - f_equal. apply IH; [exact Hnd|].
    intros x Hx [<-|Hin]; [contradiction|].
    apply (Hseen x); [now right|exact Hin].
Qed.

Lemma NoDup_list_filter {A} (p : A -> bool) l :
  NoDup l -> NoDup (List.filter p l).
Proof.
  induction 1 as [|x l Hx Hnd IH]; simpl; [constructor|].
  destruct (p x); [|exact IH].
  constructor; [|exact IH].
  rewrite list_elem_of_In, List.filter_In, <- list_elem_of_In. tauto.
Qed.

Lemma filter_sublist {A} (p : A -> bool) l : List.filter p l `sublist_of` l.
Proof.
  induction l as [|x l IH]; simpl; [constructor|].
  destruct (p x); now constructor.
Qed.

Lemma In_firstn {A} (n : nat) (l : list A) x : In x (firstn n l) -> In x l.
Proof.
  revert l. induction n as [|n IH]; intros [|y l]; simpl; try tauto.
  intros [->|H]; [now left|right; now apply IH].
Qed.

Lemma lower_char_idem c : lower_char (lower_char c) = lower_char c.
Proof.
  destruct c as [[] [] [] [] [] [] [] []]; vm_compute; reflexivity.
Qed.

Lemma lower_idem s : lower (lower s) = lower s.
Proof.
  unfold lower. rewrite List.map_map. apply List.map_ext.
  intros c. apply lower_char_idem.
Qed.

End ContainsFacts.

(** ** Keyword and skill extraction *)

Module KeywordFacts.
Import Scorer.

Lemma keywords_db_nodup : NoDup keywords_db.
Proof. apply (bool_decide_unpack _). vm_compute. exact I. Qed.

Lemma skills_db_nodup : NoDup skills_db.
Proof. apply (bool_decide_unpack _). vm_compute. exact I. Qed.

(** The keywords found are the entries of the table that pass the test,
    in the order of the table. *)
Lemma extract_keywords_filter txt :
  _extract_keywords txt
  = List.filter
      (fun keyword =>
         contains (lower txt) keyword
         || existsb (contains (lower txt)) (aliases keyword))
      keywords_db.
Proof.
  unfold _extract_keywords. apply unique_from_fixed.
  - apply NoDup_list_filter, keywords_db_nodup.
  - intros x _ [].
Qed.

Lemma extract_keywords_nodup txt : NoDup (_extract_keywords txt).
Proof.
  rewrite extract_keywords_filter. apply NoDup_list_filter, keywords_db_nodup.
Qed.

End KeywordFacts.

(** X1: the keywords of a text are the entries of the keyword table that
    occur in the lower-cased text, themselves or through one of their
    aliases; they come in the order of the table, each once, and the
    case of the text plays no part. *)
Theorem extract_keywords_characterised (txt : text) :
  NoDup (Scorer._extract_keywords txt)
  /\ Scorer._extract_keywords txt `sublist_of` Scorer.keywords_db
  /\ (forall k,
        In k (Scorer._extract_keywords txt)
        <-> In k Scorer.keywords_db
            /\ (contains (lower txt) k = true
                \/ exists alt, In alt (Scorer.aliases k)
                               /\ contains (lower txt) alt = true))
  /\ Scorer._extract_keywords (lower txt) = Scorer._extract_keywords txt.
Proof.
  split; [apply KeywordFacts.extract_keywords_nodup|].
  split; [rewrite KeywordFacts.extract_keywords_filter; apply filter_sublist|].
  split.
  - intros k. rewrite KeywordFacts.extract_keywords_filter.
    rewrite List.filter_In, orb_true_iff, existsb_exists. reflexivity.
  - unfold Scorer._extract_keywords. now rewrite lower_idem.
Qed.

Module SkillFacts.
Import Scorer.

Lemma firstn_app_short {A} (n : nat) (l k : list A) x :
  (length l <= n)%nat -> In x l -> In x (firstn n (l ++ k)).
Proof.
  intros Hlen Hin. rewrite firstn_app. apply in_or_app. left.
  now rewrite firstn_all2.
Qed.

(** The only skill of the table whose title is "Javascript". *)
Lemma title_javascript skill :
  In skill skills_db -> title skill = "Javascript" -> skill = "javascript".
Proof.
  intros Hin. unfold skills_db in Hin. simpl in Hin.
  repeat (destruct Hin as [<-|Hin];
          [vm_compute; intros H; (reflexivity || discriminate H)|]).
  contradiction.
Qed.

End SkillFacts.

(** X2: the matching skills are the same whichever of the two texts is
    the resume; there are at most ten of them, and each is the title-cased
    form of a skill of the table that occurs, as a substring, in both
    lower-cased texts. *)
Theorem matching_skills_symmetric (resume_text job_description : text) :
  Scorer._extract_matching_skills resume_text job_description
  = Scorer._extract_matching_skills job_description resume_text
  /\ (length (Scorer._extract_matching_skills resume_text job_description)
      <= 10)%nat
  /\ forall s,
       In s (Scorer._extract_matching_skills resume_text job_description) ->
       exists skill,
         s = Scorer.title skill /\ In skill Scorer.skills_db
         /\ contains (lower resume_text) skill = true
         /\ contains (lower job_description) skill = true.
Proof.
  unfold Scorer._extract_matching_skills. split; [|split].
  - do 2 f_equal. apply List.filter_ext. intros skill. apply andb_comm.
  - apply firstn_le_length.
  - intros s Hin. apply In_firstn in Hin.
    apply List.in_map_iff in Hin as (skill & <- & Hin).
    apply List.filter_In in Hin as [Hdb Hboth].
    apply andb_true_iff in Hboth as [Hr Hj].
    now exists skill.
Qed.

(** X3: skills are matched as substrings, so a shorter skill is reported
    with every longer one that holds it: whenever "Javascript" is among
    the matching skills, "Java" is too. *)
Theorem javascript_brings_java (resume_text job_description : text) :
  In "Javascript" (Scorer._extract_matching_skills resume_text job_description) ->
  In "Java" (Scorer._extract_matching_skills resume_text job_description).
Proof.
  unfold Scorer._extract_matching_skills.
  set (p := fun skill : text =>
              contains (lower resume_text) skill
              && contains (lower job_description) skill).
  intros Hin. apply In_firstn in Hin.
  apply List.in_map_iff in Hin as (skill & Htitle & Hin).
  apply List.filter_In in Hin as [Hdb Hboth].
  apply SkillFacts.title_javascript in Htitle; [|exact Hdb]. subst skill.
  assert (Hjava : p "java" = true).
  { unfold p in Hboth |- *. apply andb_true_iff in Hboth as [Hr Hj].
    apply andb_true_iff. split.
    - apply (contains_trans _ "javascript"); [exact Hr|reflexivity].
    - apply (contains_trans _ "javascript"); [exact Hj|reflexivity]. }
  change Scorer.skills_db
    with (["python"; "javascript"; "typescript"; "java"]
          ++ skipn 4 Scorer.skills_db).
  rewrite List.filter_app, List.map_app.
  apply SkillFacts.firstn_app_short.
  - rewrite length_map.
    pose proof (List.filter_length_le p
                  ["python"; "javascript"; "typescript"; "java"]) as H.
    change (length ["python"; "javascript"; "typescript"; "java"])
      with 4%nat in H.
    etransitivity; [exact H|lia].
  - apply (List.in_map Scorer.title _ "java").
    apply List.filter_In. split; [|exact Hjava]. simpl. tauto.
Qed.

Lemma javascript_brings_java_witness :
  In "Javascript"
     (Scorer._extract_matching_skills "JavaScript and SQL" "javascript, go")
  /\ In "Java"
        (Scorer._extract_matching_skills "JavaScript and SQL" "javascript, go").
Proof.
  assert (H : In "Javascript"
                (Scorer._extract_matching_skills "JavaScript and SQL"
                   "javascript, go"))
    by (vm_compute; left; reflexivity).
  split; [exact H|]. exact (javascript_brings_java _ _ H).
Defined.

(** X4: the improvement suggestions are never empty and never more than
    six; the single "Great alignment" entry is given exactly when no job
    keyword is missing from the resume and the matched skills number at
    least [max(3, len(job_keywords) // 2)]. *)
Theorem improvements_bounded
    (job_keywords resume_keywords matched_skills : list text) :
  let improvements :=
    Scorer._generate_improvements job_keywords resume_keywords matched_skills in
  (1 <= length improvements <= 6)%nat
  /\ (improvements
      = ["Great alignment. Emphasize recent work matching the job requirements."]
      <-> (forall k, In k job_keywords -> In k resume_keywords)
          /\ (Nat.max 3 (length job_keywords / 2) <= length matched_skills)%nat).
Proof.
  cbv zeta. unfold Scorer._generate_improvements.
  match goal with
  | |- context [List.map ?f (firstn 5 ?g)] =>
      set (gaps := g);
      assert (Hhead : forall a l, List.map f (firstn 5 gaps) = a :: l ->
                a <> "Great alignment. Emphasize recent work matching the job requirements."
                /\ gaps <> [])
        by (intros a l Hl; destruct gaps as [|g0 gs]; [discriminate|];
            cbn [firstn List.map] in Hl; injection Hl as <- _;
            split; discriminate);
      assert (Hnil : List.map f (firstn 5 gaps) = [] -> gaps = [])
        by (now destruct gaps);
      assert (Hfive : (length (List.map f (firstn 5 gaps)) <= 5)%nat)
        by (rewrite length_map, length_firstn; lia);
      set (suggestions := List.map f (firstn 5 gaps)) in *
  end.
  clearbody suggestions.
  assert (Hgaps : gaps = [] <-> forall k, In k job_keywords -> In k resume_keywords).
  { split.
    - intros Hno k Hk.
      destruct (Scorer.mem k resume_keywords) eqn:Hmem; [now apply mem_In|].
      assert (Hin : In k gaps)
        by (apply List.filter_In; split; [exact Hk|now rewrite Hmem]).
      rewrite Hno in Hin. contradiction.
    - intros Hall. destruct gaps as [|g gs] eqn:Hg; [reflexivity|].
      assert (Hin : In g gaps) by (rewrite Hg; now left).
      apply List.filter_In in Hin as [Hk Hmem].
      apply negb_true_iff, mem_not_In in Hmem. destruct Hmem. now apply Hall. }
  destruct (length matched_skills <? Nat.max 3 (length job_keywords / 2))%nat
    eqn:Hfew.
  - apply Nat.ltb_lt in Hfew.
    destruct suggestions as [|a l].
    + cbn [app is_empty length]. split; [lia|].
      split; [discriminate|]. intros [_ H]. lia.
    + cbn [app is_empty]. split.
      * cbn [length] in Hfive |- *. rewrite length_app. cbn [length]. lia.
      * split; [|intros [_ H]; lia].
        intros H. injection H as _ H. now destruct l.
  - apply Nat.ltb_ge in Hfew.
    destruct suggestions as [|a l].
    + cbn [is_empty length]. split; [lia|].
      split; [intros _|reflexivity]. split; [|exact Hfew].
      apply Hgaps. now apply Hnil.
    + cbn [is_empty]. split; [cbn [length] in Hfive |- *; unfold text in *; lia|].
      destruct (Hhead a l eq_refl) as [Ha Hne].
      split.
      * intros H. injection H as -> _. now destruct Ha.
      * intros [Hall _]. apply Hgaps in Hall. contradiction.
Qed.

(** ** The fields of a scored resume *)

Module ScoreFacts.
Import Scorer.




(** A ratio of two counts. *)
Lemma count_ratio_bounds (a b : nat) :
  (a <= b)%nat -> (0 < b)%nat ->
  (0 <= inject_Z (Z.of_nat a) / inject_Z (Z.of_nat b)
   /\ inject_Z (Z.of_nat a) / inject_Z (Z.of_nat b) <= 1)%Q.
Proof.
  intros Hab Hb.
  assert (Hpos : (0 < inject_Z (Z.of_nat b))%Q).
  { change 0%Q with (inject_Z 0). rewrite <- Zlt_Qlt. lia. }
  split.
  - apply Qle_shift_div_l; [exact Hpos|]. ring_simplify.
    change 0%Q with (inject_Z 0). rewrite <- Zle_Qle. lia.
  - apply Qle_shift_div_r; [exact Hpos|]. ring_simplify.
    rewrite <- Zle_Qle. lia.
Qed.

Lemma py_min_one_bounds x :
  (0 <= x)%Q -> (0 <= py_min 1 x /\ py_min 1 x <= 1)%Q.
Proof.
  intros Hx. unfold py_min. destruct (Qltb x 1) eqn:H.
  - apply Qltb_lt in H. split; [exact Hx|now apply Qlt_le_weak].
  - split; [discriminate|apply Qle_refl].
Qed.

(** The snippet recorded for a keyword is never empty and never longer
    than 200 characters. *)
Lemma skill_snippet_bounds raw_text chunks k :
  skill_snippet raw_text chunks k <> []
  /\ (length (skill_snippet raw_text chunks k) <= 200)%nat.
Proof.
  unfold skill_snippet.
  set (by_line :=
         match List.find (fun line => contains (lower line) k)
                         (splitlines raw_text) with
         | Some line => prefix_slice 200 (strip line)
         | None => ""
         end).
  assert (Hline : (length by_line <= 200)%nat).
  { unfold by_line. destruct (List.find _ _); [|simpl; lia].
    unfold prefix_slice. rewrite length_firstn. lia. }
  clearbody by_line.
  set (snippet :=
         if is_empty by_line && negb (is_empty chunks)
         then match List.find (fun ch => contains (lower ch) k) chunks with
              | Some ch => prefix_slice 200 (strip ch)
              | None => by_line
              end
         else by_line).
  assert (Hsnippet : (length snippet <= 200)%nat).
  { unfold snippet. destruct (is_empty by_line && negb (is_empty chunks));
      [|exact Hline].
    destruct (List.find _ chunks); [|exact Hline].
    unfold prefix_slice. rewrite length_firstn. lia. }
  clearbody snippet.
  destruct snippet as [|c s]; cbn [is_empty].
  - split; [discriminate|simpl; lia].
  - split; [discriminate|exact Hsnippet].
Qed.

(** The dictionary built from a list of keys without repetition. *)
Lemma lookup_keyed (f : text -> text) l k :
  (list_to_map (List.map (fun k => (k, f k)) l) : gmap text text) !! k
  = if mem k l then Some (f k) else None.
Proof.
  induction l as [|x l IH]; [reflexivity|].
  cbn [List.map list_to_map foldr fst snd].
  unfold mem in *. cbn [existsb]. unfold text_eqb at 1.
  destruct (decide (k = x)) as [->|Hne].
  - rewrite bool_decide_eq_true_2 by reflexivity.
    now rewrite lookup_insert_eq.
  - rewrite bool_decide_eq_false_2 by exact Hne.
    rewrite lookup_insert_ne by congruence. exact IH.
Qed.

Lemma clamp_monotone lo hi x y :
  (x <= y)%Z -> (clamp lo hi x <= clamp lo hi y)%Z.
Proof. unfold clamp. lia. Qed.

Lemma match_percentage_of_monotone c1 c2 :
  (c1 <= c2)%Q -> (match_percentage_of c1 <= match_percentage_of c2)%Z.
Proof.
  intros H. rewrite !ScorerFacts.match_percentage_of_floor.
  apply clamp_monotone, Qfloor_resp_le.
  apply Qmult_le_l; [reflexivity|exact H].
Qed.

Section WithModel.

Context {embedding : Type}.
Variable encode : text -> option embedding.
Variable cos_sim : embedding -> embedding -> Q.

(** What [score_one] puts in the fields that the claims do not look at. *)
Lemma score_one_fields jd e d r :
  score_one encode cos_sim jd e d = Some r ->
  let chunks := Chunker._create_chunks (pr_raw_text d) 500 in
  let job_keywords := _extract_keywords jd in
  let resume_keywords := _extract_keywords (pr_raw_text d) in
  let common := List.filter (fun k => mem k resume_keywords) job_keywords in
  raw_text r = pr_raw_text d
  /\ jd_skills r = job_keywords
  /\ missing_skills r
     = List.filter (fun k => negb (mem k resume_keywords)) job_keywords
  /\ skill_match_ratio r
     = (if is_empty job_keywords then 0%Q
        else (inject_Z (Z.of_nat (length common))
              / inject_Z (Z.of_nat (length job_keywords)))%Q)
  /\ skill_evidence r
     = list_to_map
         (List.map (fun k => (k, skill_snippet (pr_raw_text d) chunks k)) common)
  /\ experience r = firstn 5 (entity_list (pr_entities d) "ORG")
  /\ education r
     = firstn 3 (if is_empty (pr_education d)
                 then entity_list (pr_entities d) "EDUCATION"
                 else pr_education d)
  /\ experience_signal r
     = py_min 1 (inject_Z (Z.of_nat (length (entity_list (pr_entities d) "ORG")))
                 / 8)
  /\ score r = combined_score_of (semantic_score r) (skill_match_ratio r)
  /\ exists chunk_scores,
       chunk_similarities encode cos_sim e chunks = Some chunk_scores
       /\ semantic_score r
          = (if is_empty chunk_scores then 0%Q else np_mean chunk_scores).
Proof.
  unfold score_one. intros H.
  destruct (chunk_similarities encode cos_sim e
              (Chunker._create_chunks (pr_raw_text d) 500))
    as [chunk_scores|] eqn:Hs; [|discriminate].
  simpl in H. injection H as <-. cbv zeta. cbn [raw_text jd_skills
    missing_skills skill_match_ratio skill_evidence experience education
    experience_signal score semantic_score].
  repeat (split; [reflexivity|]).
  exists chunk_scores. split; reflexivity.
Qed.


(** The job keywords split into those found in the resume and the missing
    ones, and the ratio is the found share. *)
Lemma score_one_ratio jd e d r :
  score_one encode cos_sim jd e d = Some r ->
  let n := length (jd_skills r) in
  let m := length (missing_skills r) in
  jd_skills r = _extract_keywords jd
  /\ (forall k,
        In k (missing_skills r)
        <-> In k (jd_skills r) /\ ~ In k (_extract_keywords (raw_text r)))
  /\ (m <= n)%nat
  /\ skill_match_ratio r
     = (if is_empty (jd_skills r) then 0
        else inject_Z (Z.of_nat (n - m)) / inject_Z (Z.of_nat n))%Q
  /\ (0 <= skill_match_ratio r)%Q
  /\ (skill_match_ratio r <= 1)%Q.
Proof.
  intros Hone n m.
  destruct (score_one_fields _ _ _ _ Hone)
    as (Hraw & Hjd & Hmiss & Hratio & _).
  set (job_keywords := _extract_keywords jd) in *.
  set (resume_keywords := _extract_keywords (pr_raw_text d)) in *.
  pose proof (List.filter_length (fun k => mem k resume_keywords)
                job_keywords) as Hsplit.
  assert (Hm : m = length (List.filter
                             (fun k => negb (mem k resume_keywords))
                             job_keywords))
    by (subst m; now rewrite Hmiss).
  assert (Hn : n = length job_keywords) by (subst n; now rewrite Hjd).
  assert (Hfound : length (List.filter (fun k => mem k resume_keywords)
                                       job_keywords) = (n - m)%nat)
    by (unfold text in *; lia).
  split; [exact Hjd|]. split; [|split; [unfold text in *; lia|]].
  - intros k. rewrite Hmiss, Hjd, Hraw, List.filter_In, negb_true_iff.
    fold resume_keywords. now rewrite mem_not_In.
  - rewrite Hratio, Hjd, Hfound, <- Hn.
    split; [reflexivity|].
    destruct job_keywords as [|k ks] eqn:Hk; cbn [is_empty].
    + split; [apply Qle_refl|discriminate].
    + apply count_ratio_bounds; [lia|].
      rewrite Hn. simpl. lia.
Qed.

End WithModel.

End ScoreFacts.

(** X5: in every entry of a ranking the job keywords split into the
    keywords found in the resume and the missing skills; the skill match
    ratio is the found share of them, a number from 0 to 1, and 0 when
    the job description names no keyword. *)
Theorem skill_ratio_counts_found {embedding : Type}
    (encode : text -> option embedding) (cos_sim : embedding -> embedding -> Q)
    (job_description : text) (processed_resumes : list Scorer.processed_resume)
    (ranking : list Scorer.scored_resume) (r : Scorer.scored_resume) :
  Scorer.score_resumes encode cos_sim job_description processed_resumes
  = Some ranking ->
  In r ranking ->
  let n := length (Scorer.jd_skills r) in
  let m := length (Scorer.missing_skills r) in
  Scorer.jd_skills r = Scorer._extract_keywords job_description
  /\ (forall k,
        In k (Scorer.missing_skills r)
        <-> In k (Scorer.jd_skills r)
            /\ ~ In k (Scorer._extract_keywords (Scorer.raw_text r)))
  /\ (m <= n)%nat
  /\ Scorer.skill_match_ratio r
     = (if is_empty (Scorer.jd_skills r) then 0
        else inject_Z (Z.of_nat (n - m)) / inject_Z (Z.of_nat n))%Q
  /\ (0 <= Scorer.skill_match_ratio r)%Q
  /\ (Scorer.skill_match_ratio r <= 1)%Q.
Proof.
  intros Hrank Hin.
  destruct (ScorerFacts.score_resumes_entry _ _ _ _ _ _ Hrank Hin)
    as (e & d & _ & Hone).
  exact (ScoreFacts.score_one_ratio _ _ _ _ _ _ Hone).
Qed.

Lemma skill_ratio_counts_found_witness :
  exists ranking r,
    Scorer.score_resumes Fixtures.encode_text
      (Fixtures.flat_similarity (1 # 2)) "python and react developer"
      [Fixtures.plain_resume "a.pdf" "I write Python."] = Some ranking
    /\ In r ranking
    /\ Scorer.jd_skills r = Scorer._extract_keywords "python and react developer"
    /\ (length (Scorer.missing_skills r) <= length (Scorer.jd_skills r))%nat
    /\ (0 <= Scorer.skill_match_ratio r)%Q
    /\ (Scorer.skill_match_ratio r <= 1)%Q.
Proof.
  destruct (ScorerFacts.score_resumes_total Fixtures.encode_text
              (Fixtures.flat_similarity (1 # 2)) "python and react developer"
              [Fixtures.plain_resume "a.pdf" "I write Python."])
    as [ranking Hrank]; [intros t; now eexists|].
  assert (Hin : exists r, In r ranking).
  { vm_compute in Hrank. injection Hrank as <-. eexists. now left. }
  destruct Hin as [r Hin].
  exists ranking, r. split; [exact Hrank|]. split; [exact Hin|].
  destruct (skill_ratio_counts_found _ _ _ _ _ r Hrank Hin)
    as (Hjd & _ & Hle & _ & H0 & H1).
  split; [exact Hjd|]. split; [exact Hle|]. split; [exact H0|exact H1].
Defined.



(** X7: the match percentage never decreases with the combined score:
    of two entries, of one ranking or of two, the one with the higher
    score never has the lower percentage. *)
Theorem match_percentage_follows_score {embedding : Type}
    (encode : text -> option embedding) (cos_sim : embedding -> embedding -> Q)
    (jd1 jd2 : text) (docs1 docs2 : list Scorer.processed_resume)
    (ranking1 ranking2 : list Scorer.scored_resume)
    (r1 r2 : Scorer.scored_resume) :
  Scorer.score_resumes encode cos_sim jd1 docs1 = Some ranking1 ->
  Scorer.score_resumes encode cos_sim jd2 docs2 = Some ranking2 ->
  In r1 ranking1 -> In r2 ranking2 ->
  (Scorer.score r1 <= Scorer.score r2)%Q ->
  (Scorer.match_percentage r1 <= Scorer.match_percentage r2)%Z.
Proof.
  intros Hrank1 Hrank2 Hin1 Hin2 Hle.
  destruct (ScorerFacts.score_resumes_entry _ _ _ _ _ _ Hrank1 Hin1)
    as (e1 & d1 & _ & Hone1).
  destruct (ScorerFacts.score_resumes_entry _ _ _ _ _ _ Hrank2 Hin2)
    as (e2 & d2 & _ & Hone2).
  destruct (ScorerFacts.score_one_inv _ _ _ _ _ _ Hone1) as (_ & _ & _ & -> & _).
  destruct (ScorerFacts.score_one_inv _ _ _ _ _ _ Hone2) as (_ & _ & _ & -> & _).
  now apply ScoreFacts.match_percentage_of_monotone.
Qed.

Lemma match_percentage_follows_score_witness :
  exists ranking1 ranking2 r1 r2,
    Scorer.score_resumes Fixtures.encode_text
      (Fixtures.flat_similarity (1 # 2)) "python and react developer"
      [Fixtures.plain_resume "a.pdf" "I write Python."] = Some ranking1
    /\ Scorer.score_resumes Fixtures.encode_text
         (Fixtures.flat_similarity (1 # 2)) "python developer"
         [Fixtures.plain_resume "a.pdf" "I write Python."] = Some ranking2
    /\ In r1 ranking1 /\ In r2 ranking2
    /\ (Scorer.score r1 <= Scorer.score r2)%Q
    /\ (Scorer.match_percentage r1 <= Scorer.match_percentage r2)%Z.
Proof.
  destruct (ScorerFacts.score_resumes_total Fixtures.encode_text
              (Fixtures.flat_similarity (1 # 2)) "python and react developer"
              [Fixtures.plain_resume "a.pdf" "I write Python."])
    as [ranking1 Hrank1]; [intros t; now eexists|].
  destruct (ScorerFacts.score_resumes_total Fixtures.encode_text
              (Fixtures.flat_similarity (1 # 2)) "python developer"
              [Fixtures.plain_resume "a.pdf" "I write Python."])
    as [ranking2 Hrank2]; [intros t; now eexists|].
  assert (H : exists r1 r2,
             In r1 ranking1 /\ In r2 ranking2
             /\ (Scorer.score r1 <= Scorer.score r2)%Q).
  { vm_compute in Hrank1, Hrank2.
    injection Hrank1 as <-. injection Hrank2 as <-.
    eexists. eexists. split; [now left|]. split; [now left|].
    vm_compute. discriminate. }
  destruct H as (r1 & r2 & Hin1 & Hin2 & Hle).
  exists ranking1, ranking2, r1, r2.
  repeat (split; [assumption|]).
  exact (match_percentage_follows_score _ _ _ _ _ _ _ _ r1 r2
           Hrank1 Hrank2 Hin1 Hin2 Hle).
Defined.

(** X8: the skill evidence of an entry has one record for each job
    keyword found in the resume and for nothing else; a record is never
    empty and never longer than 200 characters. *)
Theorem skill_evidence_covers_found {embedding : Type}
    (encode : text -> option embedding) (cos_sim : embedding -> embedding -> Q)
    (job_description : text) (processed_resumes : list Scorer.processed_resume)
    (ranking : list Scorer.scored_resume) (r : Scorer.scored_resume) :
  Scorer.score_resumes encode cos_sim job_description processed_resumes
  = Some ranking ->
  In r ranking ->
  (forall k,
     is_Some (Scorer.skill_evidence r !! k)
     <-> In k (Scorer.jd_skills r) /\ ~ In k (Scorer.missing_skills r))
  /\ (forall k v,
        Scorer.skill_evidence r !! k = Some v ->
        v <> [] /\ (length v <= 200)%nat).
Proof.
  intros Hrank Hin.
  destruct (ScorerFacts.score_resumes_entry _ _ _ _ _ _ Hrank Hin)
    as (e & d & _ & Hone).
  destruct (ScoreFacts.score_one_fields _ _ _ _ _ _ Hone)
    as (_ & Hjd & Hmiss & _ & Hev & _).
  set (resume_keywords := Scorer._extract_keywords (Scorer.pr_raw_text d)) in *.
  split.
  - intros k. rewrite Hev, ScoreFacts.lookup_keyed, Hjd, Hmiss.
    destruct (Scorer.mem k _) eqn:Hmem.
    + apply mem_In, List.filter_In in Hmem as [Hk Hres].
      split; [intros _|intros _; now eexists].
      split; [exact Hk|]. rewrite List.filter_In, Hres. intros [_ H].
      discriminate.
    + apply mem_not_In in Hmem. split; [intros [v Hv]; discriminate|].
      intros [Hk Hnot]. destruct Hmem.
      apply List.filter_In. split; [exact Hk|].
      destruct (Scorer.mem k resume_keywords) eqn:Hres; [reflexivity|].
      destruct Hnot. apply List.filter_In. split; [exact Hk|].
      now rewrite Hres.
  - intros k v. rewrite Hev, ScoreFacts.lookup_keyed.
    destruct (Scorer.mem k _); [|discriminate].
    intros H. injection H as <-. apply ScoreFacts.skill_snippet_bounds.
Qed.

Lemma skill_evidence_covers_found_witness :
  exists ranking r,
    Scorer.score_resumes Fixtures.encode_text
      (Fixtures.flat_similarity (1 # 2)) "python and react developer"
      [Fixtures.plain_resume "a.pdf" "I write Python."] = Some ranking
    /\ In r ranking
    /\ is_Some (Scorer.skill_evidence r !! ("python" : text))
    /\ Scorer.skill_evidence r !! ("react" : text) = None.
Proof.
  destruct (ScorerFacts.score_resumes_total Fixtures.encode_text
              (Fixtures.flat_similarity (1 # 2)) "python and react developer"
              [Fixtures.plain_resume "a.pdf" "I write Python."])
    as [ranking Hrank]; [intros t; now eexists|].
  assert (Hin : exists r, In r ranking
                          /\ Scorer.jd_skills r = ["python"; "react"]
                          /\ Scorer.missing_skills r = ["react"]).
  { vm_compute in Hrank. injection Hrank as <-. eexists.
    split; [now left|split; reflexivity]. }
  destruct Hin as (r & Hin & Hjd & Hmiss).
  exists ranking, r. split; [exact Hrank|]. split; [exact Hin|].
  destruct (skill_evidence_covers_found _ _ _ _ _ r Hrank Hin) as [Hdom _].
  split.
  - apply Hdom. rewrite Hjd, Hmiss. split; [now left|].
    intros [H|[]]. discriminate.
  - destruct (Scorer.skill_evidence r !! ("react" : text)) eqn:Hlook;
      [|reflexivity].
    assert (Hs : is_Some (Scorer.skill_evidence r !! ("react" : text)))
      by (rewrite Hlook; now eexists).
    apply Hdom in Hs as [_ Hnot]. destruct Hnot. rewrite Hmiss. now left.
Defined.

(** ** The conversation cache in use *)

Module CacheFacts.
Import ChatStore Cache.

Lemma add_settings now cid role text s :
  ttl (add now cid role text s) = ttl s
  /\ max_messages (add now cid role text s) = max_messages s.
Proof. split; reflexivity. Qed.

Lemma get_settings now cid s :
  ttl (snd (get now cid s)) = ttl s
  /\ max_messages (snd (get now cid s)) = max_messages s.
Proof.
  unfold get. destruct (data s !! cid) as [e|]; [|split; reflexivity].
  destruct (Qltb _ _); split; reflexivity.
Qed.

Lemma add_windowed now cid role text s :
  (0 < max_messages s)%Z -> windowed s -> windowed (add now cid role text s).
Proof.
  intros Hmax Hs other e He.
  destruct (decide (other = cid)) as [->|Hne].
  - rewrite ChatStoreFacts.add_lookup in He. injection He as <-.
    cbn [messages max_messages add]. now apply ChatStoreFacts.kept_length.
  - unfold add in He. cbn [data] in He.
    rewrite lookup_insert_ne in He by congruence.
    cbn [max_messages add]. now apply (Hs other).
Qed.

Lemma get_windowed now cid s : windowed s -> windowed (snd (get now cid s)).
Proof.
  intros Hs other e. unfold get.
  destruct (data s !! cid) as [e0|] eqn:He0; [|apply Hs].
  destruct (Qltb _ _); [|apply Hs].
  cbn [snd data max_messages]. intros He.
  apply lookup_delete_Some in He as [_ He]. now apply (Hs other).
Qed.

Lemma after_calls_settings calls s :
  ttl (after_calls s calls) = ttl s
  /\ max_messages (after_calls s calls) = max_messages s.
Proof.
  revert s. induction calls as [|c calls IH]; intros s; [split; reflexivity|].
  cbn [after_calls fold_left]. fold (after_calls (after_call s c) calls).
  destruct (IH (after_call s c)) as [-> ->].
  destruct c; cbn [after_call]; [apply add_settings|apply get_settings].
Qed.

Lemma after_calls_windowed calls s :
  (0 < max_messages s)%Z -> windowed s -> windowed (after_calls s calls).
Proof.
  revert s. induction calls as [|c calls IH]; intros s Hmax Hs; [exact Hs|].
  cbn [after_calls fold_left]. fold (after_calls (after_call s c) calls).
  apply IH.
  - destruct c; cbn [after_call]; [exact Hmax|].
    now rewrite (proj2 (get_settings _ _ _)).
  - destruct c; cbn [after_call]; [now apply add_windowed|now apply get_windowed].
Qed.

(** What a read just after a write answers. *)
Lemma get_after_add now now' cid role text s :
  (now' - now <= inject_Z (ttl s))%Q ->
  get now' cid (add now cid role text s)
  = (List.map (fun m => (ChatStore.role m, body m))
       (kept s (messages (default {| messages := []; updated := 0 |}
                                  (data s !! cid)))
             {| ChatStore.role := role; body := text; ts := now |}),
     add now cid role text s).
Proof.
  intros Hfresh. unfold get.
  rewrite ChatStoreFacts.add_lookup. cbn [updated ttl add].
  apply Qltb_ge in Hfresh. now rewrite Hfresh.
Qed.

Lemma kept_last s old m :
  (0 < max_messages s)%Z -> exists earlier, kept s old m = earlier ++ [m].
Proof.
  intros Hmax. unfold kept.
  destruct (max_messages s <? Z.of_nat (length (old ++ [m])))%Z eqn:Hover;
    [|now exists old].
  apply Z.ltb_lt in Hover. rewrite ChatStoreFacts.slice_from_last by lia.
  rewrite length_app in *. cbn [length] in *.
  rewrite skipn_app.
  replace (length old + 1 - Z.to_nat (max_messages s) - length old)%nat
    with 0%nat by lia.
  cbn [skipn]. now eexists.
Qed.

End CacheFacts.

(** X9: however the default store is used, no conversation in it ever
    holds more than 60 messages: the window is an invariant of every
    sequence of writes and reads, on any conversation ids and at any
    times. *)
Theorem chat_store_never_exceeds_window (calls : list Cache.call)
    (cid : text) (e : ChatStore.entry) :
  ChatStore.data (Cache.after_calls ChatStore.create calls) !! cid = Some e ->
  (length (ChatStore.messages e) <= 60)%nat.
Proof.
  intros He.
  assert (Hw : Cache.windowed (Cache.after_calls ChatStore.create calls)).
  { apply CacheFacts.after_calls_windowed; [reflexivity|].
    intros c e0 H. unfold ChatStore.create in H. cbn [ChatStore.data] in H.
    now rewrite lookup_empty in H. }
  apply Hw in He.
  rewrite (proj2 (CacheFacts.after_calls_settings calls ChatStore.create)) in He.
  cbn [ChatStore.max_messages ChatStore.create] in He. lia.
Qed.

Lemma chat_store_never_exceeds_window_witness :
  exists e,
    ChatStore.data
      (Cache.after_calls ChatStore.create
         (List.map (fun i => Cache.Add 0 "c1" "user" ("msg-" ++ text_of_nat i))
                   (seq 0 70)))
    !! ("c1" : text) = Some e
    /\ (length (ChatStore.messages e) <= 60)%nat.
Proof.
  destruct (ChatStore.data
              (Cache.after_calls ChatStore.create
                 (List.map (fun i => Cache.Add 0 "c1" "user"
                                       ("msg-" ++ text_of_nat i))
                           (seq 0 70)))
            !! ("c1" : text)) as [e|] eqn:He;
    [|vm_compute in He; discriminate].
  exists e. split; [reflexivity|].
  exact (chat_store_never_exceeds_window _ _ _ He).
Defined.

(** X10: a write is read back: a read of the conversation within the
    time to live of a write answers a transcript that ends with the
    message written, and leaves the store as it is; and once a read has
    found a conversation expired, the next write starts its transcript
    afresh. *)
Theorem chat_store_read_your_writes (s : ChatStore.t) (now now' : Q)
    (cid role text : text) :
  (0 < ChatStore.max_messages s)%Z ->
  (now' - now <= inject_Z (ChatStore.ttl s))%Q ->
  (exists earlier,
     ChatStore.get now' cid (ChatStore.add now cid role text s)
     = (earlier ++ [(role, text)], ChatStore.add now cid role text s))
  /\ forall before e,
       ChatStore.data s !! cid = Some e ->
       (inject_Z (ChatStore.ttl s) < before - ChatStore.updated e)%Q ->
       ChatStore.get now' cid
         (ChatStore.add now cid role text (snd (ChatStore.get before cid s)))
       = ([(role, text)],
          ChatStore.add now cid role text (snd (ChatStore.get before cid s))).
Proof.
  intros Hmax Hfresh. split.
  - rewrite CacheFacts.get_after_add by exact Hfresh.
    destruct (CacheFacts.kept_last s
                (ChatStore.messages
                   (default {| ChatStore.messages := []; ChatStore.updated := 0 |}
                            (ChatStore.data s !! cid)))
                {| ChatStore.role := role; ChatStore.body := text;
                   ChatStore.ts := now |} Hmax) as [earlier ->].
    exists (List.map (fun m => (ChatStore.role m, ChatStore.body m)) earlier).
    now rewrite List.map_app.
  - intros before e He Hlate.
    assert (Hgone : ChatStore.data (snd (ChatStore.get before cid s)) !! cid
                    = None).
    { unfold ChatStore.get. rewrite He. apply Qltb_lt in Hlate.
      rewrite Hlate. cbn [snd ChatStore.data]. apply lookup_delete_eq. }
    assert (Hset := CacheFacts.get_settings before cid s).
    destruct Hset as [Httl Hwin].
    rewrite CacheFacts.get_after_add by (now rewrite Httl).
    rewrite Hgone. cbn [default]. f_equal.
    rewrite ChatStoreFacts.kept_room; [reflexivity|].
    rewrite Hwin. simpl. lia.
Qed.

Lemma chat_store_read_your_writes_witness :
  (exists earlier,
     ChatStore.get 100 "c1"
       (ChatStore.add 10 "c1" "user" "hello" (Fixtures.filled_store 3))
     = (earlier ++ [("user" : text, "hello" : text)],
        ChatStore.add 10 "c1" "user" "hello" (Fixtures.filled_store 3)))
  /\ fst (ChatStore.get 90100 "c1"
            (ChatStore.add 90010 "c1" "user" "hello"
               (snd (ChatStore.get 90000 "c1" (Fixtures.filled_store 3)))))
     = [("user" : text, "hello" : text)].
Proof.
  assert (Hmax : (0 < ChatStore.max_messages (Fixtures.filled_store 3))%Z)
    by (vm_compute; reflexivity).
  split.
  - assert (Hfresh : (100 - 10
                      <= inject_Z (ChatStore.ttl (Fixtures.filled_store 3)))%Q)
      by (vm_compute; discriminate).
    exact (proj1 (chat_store_read_your_writes (Fixtures.filled_store 3)
                    10%Q 100%Q "c1" "user" "hello" Hmax Hfresh)).
  - assert (Hfresh : (90100 - 90010
                      <= inject_Z (ChatStore.ttl (Fixtures.filled_store 3)))%Q)
      by (vm_compute; discriminate).
    destruct (ChatStore.data (Fixtures.filled_store 3) !! ("c1" : text))
      as [e|] eqn:He; [|vm_compute in He; discriminate].
    assert (Hlate : (inject_Z (ChatStore.ttl (Fixtures.filled_store 3))
                     < 90000 - ChatStore.updated e)%Q).
    { vm_compute in He. injection He as <-. vm_compute. reflexivity. }
    rewrite (proj2 (chat_store_read_your_writes (Fixtures.filled_store 3)
                      90010%Q 90100%Q "c1" "user" "hello" Hmax Hfresh)
               90000%Q e He Hlate).
    reflexivity.
Defined.

(** X11: a store created with [max_messages = 0] has no window at all:
    the slice [messages[-0:]] is the whole list, so every write appends
    and nothing is ever dropped. *)
Theorem chat_store_zero_window_keeps_all (s : ChatStore.t) (now : Q)
    (cid role text : text) :
  ChatStore.max_messages s = 0%Z ->
  let old :=
    match ChatStore.data s !! cid with
    | Some e => ChatStore.messages e
    | None => []
    end in
  ChatStore.data (ChatStore.add now cid role text s) !! cid
  = Some {| ChatStore.messages :=
              old ++ [{| ChatStore.role := role; ChatStore.body := text;
                         ChatStore.ts := now |}];
            ChatStore.updated := now |}.
Proof.
  intros Hzero old. rewrite ChatStoreFacts.add_lookup. do 2 f_equal.
  assert (Hold : ChatStore.messages
                   (default {| ChatStore.messages := []; ChatStore.updated := 0 |}
                            (ChatStore.data s !! cid)) = old).
  { subst old. now destruct (ChatStore.data s !! cid). }
  rewrite Hold. unfold ChatStore.kept. rewrite Hzero.
  destruct (0 <? Z.of_nat (length (old ++ [_])))%Z; reflexivity.
Qed.

Lemma chat_store_zero_window_keeps_all_witness :
  let s := {| ChatStore.ttl := 86400; ChatStore.max_messages := 0;
              ChatStore.data := ∅ |} in
  ChatStore.data
    (ChatStore.add 2 "c1" "user" "two" (ChatStore.add 1 "c1" "user" "one" s))
  !! ("c1" : text)
  = Some {| ChatStore.messages :=
              [{| ChatStore.role := "user"; ChatStore.body := "one";
                  ChatStore.ts := 1 |};
               {| ChatStore.role := "user"; ChatStore.body := "two";
                  ChatStore.ts := 2 |}];
            ChatStore.updated := 2 |}.
Proof.
  intros s.
  rewrite (chat_store_zero_window_keeps_all
             (ChatStore.add 1 "c1" "user" "one" s) 2%Q "c1" "user" "two"
             eq_refl).
  rewrite (chat_store_zero_window_keeps_all s 1%Q "c1" "user" "one" eq_refl).
  reflexivity.
Defined.

(** ** Display names *)

Module NamingFacts.
Import Naming.

(** What [lstrip] and [rstrip] remove is white space. *)
Lemma lstrip_split s :
  exists sp, s = sp ++ lstrip s /\ forallb py_isspace sp = true.
Proof.
  induction s as [|c s (sp & Hs & Hsp)]; [now exists []|].
  simpl. destruct (py_isspace c) eqn:Hc.
  - exists (c :: sp). simpl. rewrite Hc, Hsp. split; [now f_equal|reflexivity].
  - now exists [].
Qed.

Lemma rstrip_split s :
  exists sp, s = rstrip s ++ sp /\ forallb py_isspace sp = true.
Proof.
  destruct (lstrip_split (rev s)) as (sp & Hs & Hsp).
  exists (rev sp). split.
  - unfold rstrip. rewrite <- rev_app_distr, <- Hs. now rewrite rev_involutive.
  - rewrite forallb_forall in *. intros c Hc. apply Hsp.
    now apply in_rev.
Qed.

Lemma words_from_space c s :
  py_isspace c = true -> words_from [] (c :: s) = words_from [] s.
Proof. intros Hc. cbn [words_from]. now rewrite Hc. Qed.

Lemma words_lstrip s : words (lstrip s) = words s.
Proof.
  unfold words. induction s as [|c s IH]; [reflexivity|].
  cbn [lstrip]. destruct (py_isspace c) eqn:Hc; [|reflexivity].
  now rewrite words_from_space.
Qed.

Lemma words_from_snoc_space current s c :
  py_isspace c = true -> words_from current (s ++ [c]) = words_from current s.
Proof.
  intros Hc. revert current. induction s as [|x s IH]; intros current.
  - cbn [app words_from is_empty]. rewrite Hc. apply app_nil_r.
  - cbn [app words_from]. destruct (py_isspace x); now rewrite IH.
Qed.

Lemma words_from_trailing current s sp :
  forallb py_isspace sp = true ->
  words_from current (s ++ sp) = words_from current s.
Proof.
  revert s. induction sp as [|c sp IH] using rev_ind; intros s Hsp.
  - now rewrite app_nil_r.
  - rewrite forallb_app in Hsp. apply andb_true_iff in Hsp as [Hsp Hc].
    cbn [forallb] in Hc. rewrite andb_true_r in Hc.
    rewrite app_assoc, words_from_snoc_space by exact Hc. now apply IH.
Qed.

(** The words of a text are those of the stripped text. *)
Lemma words_strip s : words (strip s) = words s.
Proof.
  unfold strip. rewrite <- (words_lstrip s).
  destruct (rstrip_split (lstrip s)) as (sp & Hs & Hsp).
  rewrite Hs at 2. unfold words. now rewrite words_from_trailing.
Qed.

(** A line picked by the loop is a stripped line that looks like a name. *)
Lemma first_name_line_some lines clean :
  first_name_line lines = Some clean ->
  name_like clean = true /\ exists line, In line lines /\ clean = strip line.
Proof.
  induction lines as [|line lines IH]; [discriminate|].
  cbn [first_name_line]. intros H.
  assert (Hrest : first_name_line lines = Some clean ->
                  name_like clean = true
                  /\ exists l, In l (line :: lines) /\ clean = strip l).
  { intros Hr. destruct (IH Hr) as (Hlike & l & Hin & Hl).
    split; [exact Hlike|]. exists l. split; [now right|exact Hl]. }
  destruct (is_empty (strip line)); [now apply Hrest|].
  destruct (contains_any_of _ _); [now apply Hrest|].
  destruct (name_like (strip line)) eqn:Hlike; [|now apply Hrest].
  injection H as <-. split; [exact Hlike|]. exists line. split; [now left|reflexivity].
Qed.

Lemma name_like_words clean :
  name_like clean = true -> (2 <= length (words clean) <= 5)%nat.
Proof.
  unfold name_like. intros H.
  apply andb_true_iff in H as [H _]. apply andb_true_iff in H as [H2 H5].
  apply Nat.leb_le in H2, H5. lia.
Qed.

(** The last index of a character: nothing after it is that character. *)
Lemma rfind_from_spec c s i found :
  match rfind_from c s i found with
  | None => found = None /\ Forall (fun x => x <> c) s
  | Some j =>
      (found = Some j /\ Forall (fun x => x <> c) s)
      \/ ((i <= j)%nat /\ Forall (fun x => x <> c) (skipn (S (j - i)) s))
  end.
Proof.
  revert i found. induction s as [|x s IH]; intros i found.
  - cbn [rfind_from]. destruct found; [left|]; now repeat constructor.
  - cbn [rfind_from]. specialize (IH (S i) (if Ascii.eqb x c then Some i else found)).
    destruct (rfind_from c s (S i) _) as [j|].
    + destruct IH as [[Hf Hall]|[Hle Hall]].
      * destruct (Ascii.eqb x c) eqn:Hx.
        -- injection Hf as <-. right. split; [lia|].
           now rewrite Nat.sub_diag.
        -- left. split; [exact Hf|]. constructor; [|exact Hall].
           now apply Ascii.eqb_neq.
      * right. split; [lia|].
        replace (S (j - i)) with (S (S (j - S i))) by lia. exact Hall.
    + destruct IH as [Hf Hall]. destruct (Ascii.eqb x c) eqn:Hx; [discriminate|].
      split; [exact Hf|]. constructor; [|exact Hall]. now apply Ascii.eqb_neq.
Qed.

Lemma basename_no_slash p : Forall (fun x => x <> "/"%char) (basename p).
Proof.
  unfold basename, rfind.
  pose proof (rfind_from_spec "/" p 0 None) as H.
  destruct (rfind_from "/" p 0 None) as [j|].
  - destruct H as [[H _]|[_ H]]; [discriminate|].
    now rewrite Nat.sub_0_r in H.
  - apply H.
Qed.

Lemma Forall_firstn {A} (P : A -> Prop) n l : Forall P l -> Forall P (firstn n l).
Proof.
  intros H. revert n. induction H as [|x l Hx Hl IH]; intros [|n]; simpl;
    constructor; auto.
Qed.

Lemma splitext_root_Forall (P : ascii -> Prop) p :
  Forall P p -> Forall P (splitext_root p).
Proof.
  intros H. unfold splitext_root.
  destruct (rfind "." p) as [dot|]; [|exact H].
  destruct (_ <=? dot)%nat; [|exact H].
  destruct (forallb _ _); [exact H|]. now apply Forall_firstn.
Qed.

Lemma replace_char_Forall (P : ascii -> Prop) a b s :
  P b -> Forall P s -> Forall P (replace_char a b s).
Proof.
  intros Hb H. unfold replace_char. induction H as [|c s Hc Hs IH]; simpl;
    constructor; [|exact IH].
  now destruct (Ascii.eqb c a).
Qed.

Lemma replace_char_gone a b s :
  b <> a -> Forall (fun c => c <> a) (replace_char a b s).
Proof.
  intros Hb. unfold replace_char. induction s as [|c s IH]; simpl;
    constructor; [|exact IH].
  destruct (Ascii.eqb c a) eqn:Hc; [exact Hb|now apply Ascii.eqb_neq].
Qed.

Lemma file_name_clean filename :
  Forall (fun c => c <> "_"%char /\ c <> "-"%char /\ c <> "/"%char)
         (file_name filename).
Proof.
  unfold file_name. apply Forall_strip.
  set (base := splitext_root (basename filename)).
  assert (Hbase : Forall (fun c => c <> "/"%char) base)
    by apply splitext_root_Forall, basename_no_slash.
  assert (H1 : Forall (fun c => c <> "_"%char /\ c <> "/"%char)
                      (replace_char "_" " " base)).
  { apply Forall_and. split.
    - apply replace_char_gone. discriminate.
    - apply replace_char_Forall; [discriminate|exact Hbase]. }
  apply Forall_and in H1 as [Hu Hs].
  apply Forall_and. split; [|apply Forall_and; split].
  - apply replace_char_Forall; [discriminate|exact Hu].
  - apply replace_char_gone. discriminate.
  - apply replace_char_Forall; [discriminate|exact Hs].
Qed.

End NamingFacts.

(** X12: the display name of a candidate is never padded with white
    space; when it is not the one made from the file name it has two to
    five words; and the name made from the file name holds no directory
    part, no underscore and no hyphen. *)
Theorem infer_name_is_clean (entities : gmap string (list text))
    (txt filename : text) :
  let name := Naming._infer_name entities txt filename in
  strip name = name
  /\ (name = Naming.file_name filename
      \/ (2 <= length (Naming.words name) <= 5)%nat)
  /\ Forall (fun c => c <> "_"%char /\ c <> "-"%char /\ c <> "/"%char)
            (Naming.file_name filename).
Proof.
  cbv zeta. split; [|split; [|apply NamingFacts.file_name_clean]].
  - unfold Naming._infer_name, Naming.person_name.
    destruct (Scorer.entity_list entities "PERSON") as [|p ps].
    + destruct (Naming.first_name_line _) as [clean|] eqn:Hline.
      * apply NamingFacts.first_name_line_some in Hline
          as (_ & line & _ & ->).
        apply strip_idem.
      * apply strip_idem.
    + destruct (_ && _).
      * apply strip_idem.
      * destruct (Naming.first_name_line _) as [clean|] eqn:Hline.
        -- apply NamingFacts.first_name_line_some in Hline
             as (_ & line & _ & ->).
           apply strip_idem.
        -- apply strip_idem.
  - unfold Naming._infer_name, Naming.person_name.
    assert (Hline : forall clean,
               Naming.first_name_line
                 (firstn 8 (Scorer.splitlines txt)) = Some clean ->
               (2 <= length (Naming.words clean) <= 5)%nat).
    { intros clean H. apply NamingFacts.first_name_line_some in H as [H _].
      now apply NamingFacts.name_like_words. }
    destruct (Scorer.entity_list entities "PERSON") as [|p ps].
    + destruct (Naming.first_name_line _) as [clean|]; [|now left].
      right. now apply Hline.
    + destruct (_ && _) eqn:Hn.
      * right. rewrite NamingFacts.words_strip.
        apply andb_true_iff in Hn as [H2 H5].
        apply Nat.leb_le in H2, H5. lia.
      * destruct (Naming.first_name_line _) as [clean|]; [|now left].
        right. now apply Hline.
Qed.

(** ** Resume processing: summaries, experience and entities *)

Module ProcessorFacts.
Import Processor.

Lemma find_char_spec c s :
  match find_char c s with
  | Some i => (i < length s)%nat /\ nth_error s i = Some c
  | None => Forall (fun x => x <> c) s
  end.
Proof.
  induction s as [|x s IH]; cbn [find_char]; [constructor|].
  destruct (Ascii.eqb x c) eqn:Hx.
  - apply Ascii.eqb_eq in Hx as ->. cbn. split; [lia|reflexivity].
  - destruct (find_char c s) as [i|]; cbn [option_map].
    + destruct IH as [Hlt Hnth]. cbn. split; [lia|exact Hnth].
    + constructor; [now apply Ascii.eqb_neq|exact IH].
Qed.

(** The heuristic summary of a text that is short once stripped is that
    text. *)
Lemma heuristic_summary_short txt :
  (length (strip txt) <= 300)%nat -> heuristic_summary txt = strip txt.
Proof.
  intros H. unfold heuristic_summary.
  destruct (300 <? length (strip txt))%nat eqn:Hlen; [|reflexivity].
  apply Nat.ltb_lt in Hlen. lia.
Qed.

(** The organizations named by spaCy come each once. *)
Lemma append_new_nodup l x : NoDup l -> NoDup (append_new l x).
Proof.
  intros Hl. unfold append_new. destruct (Scorer.mem x l) eqn:Hx; [exact Hl|].
  apply mem_not_In in Hx. apply NoDup_app. repeat split.
  - exact Hl.
  - intros y Hy Hy'. apply list_elem_of_In in Hy.
    apply list_elem_of_In in Hy'. destruct Hy' as [<-|[]]. now apply Hx.
  - apply NoDup_singleton.
Qed.

Lemma organizations_from_nodup ents acc :
  NoDup acc ->
  NoDup (fold_left
           (fun experience (ent : string * text) =>
              if String.eqb (fst ent) "ORG"
              then append_new experience (snd ent) else experience)
           ents acc).
Proof.
  revert acc. induction ents as [|ent ents IH]; intros acc Hacc; [exact Hacc|].
  cbn [fold_left]. apply IH. destruct (String.eqb _ _); [|exact Hacc].
  now apply append_new_nodup.
Qed.

Lemma organizations_of_nodup ents : NoDup (organizations_of ents).
Proof. apply organizations_from_nodup. constructor. Qed.

(** One line of the text adds at most one entry, and none once ten are
    there. *)
Lemma experience_step_cases experience line :
  experience_step experience line = experience
  \/ (experience_step experience line = experience ++ [firstn 100 (strip line)]
      /\ ~ In (strip line) experience
      /\ (length experience < 10)%nat
      /\ (5 < length (strip line))%nat).
Proof.
  unfold experience_step.
  destruct (existsb _ job_titles) eqn:Htitle; [|now left].
  destruct (negb (Scorer.mem (strip line) experience)) eqn:Hmem; [|now left].
  destruct (length experience <? 10)%nat eqn:Hlen; [|now left].
  right. cbn [andb]. split; [reflexivity|].
  apply negb_true_iff, mem_not_In in Hmem. apply Nat.ltb_lt in Hlen.
  apply existsb_exists in Htitle as (title & _ & Ht).
  apply andb_true_iff in Ht as [_ Ht]. apply Nat.ltb_lt in Ht.
  now repeat split.
Qed.

Lemma experience_fold_length lines experience :
  (length experience <= 10)%nat ->
  (length (fold_left experience_step lines experience) <= 10)%nat.
Proof.
  revert experience. induction lines as [|line lines IH]; intros experience H;
    [exact H|].
  cbn [fold_left]. apply IH.
  destruct (experience_step_cases experience line) as [->|(-> & _ & Hlen & _)];
    [exact H|].
  rewrite length_app. cbn [length]. lia.
Qed.

Lemma experience_fold_prefix lines experience :
  exists added, fold_left experience_step lines experience = experience ++ added.
Proof.
  revert experience. induction lines as [|line lines IH]; intros experience.
  - exists []. cbn. now rewrite app_nil_r.
  - cbn [fold_left].
    destruct (experience_step_cases experience line) as [->|(-> & _)];
      [apply IH|].
    destruct (IH (experience ++ [firstn 100 (strip line)])) as [added ->].
    exists (firstn 100 (strip line) :: added). now rewrite <- app_assoc.
Qed.

Lemma experience_fold_sizes lines experience :
  Forall (fun e => 6 <= length e <= 100)%nat experience ->
  Forall (fun e => 6 <= length e <= 100)%nat
         (fold_left experience_step lines experience).
Proof.
  revert experience. induction lines as [|line lines IH]; intros experience H;
    [exact H|].
  cbn [fold_left]. apply IH.
  destruct (experience_step_cases experience line) as [->|(-> & _ & _ & Hlen)];
    [exact H|].
  apply Forall_app. split; [exact H|]. constructor; [|constructor].
  rewrite length_firstn. unfold text in *. lia.
Qed.

Lemma experience_fold_nodup lines experience :
  Forall (fun line => length (strip line) <= 100)%nat lines ->
  NoDup experience ->
  NoDup (fold_left experience_step lines experience).
Proof.
  revert experience.
  induction lines as [|line lines IH]; intros experience Hshort Hnd; [exact Hnd|].
  apply Forall_cons in Hshort as [Hline Hshort].
  cbn [fold_left]. apply IH; [exact Hshort|].
  destruct (experience_step_cases experience line) as [->|(-> & Hnew & _)];
    [exact Hnd|].
  rewrite firstn_all2 by exact Hline.
  apply NoDup_app. repeat split; [exact Hnd| |apply NoDup_singleton].
  intros y Hy Hy'. apply list_elem_of_In in Hy.
  apply list_elem_of_In in Hy'. destruct Hy' as [<-|[]]. now apply Hnew.
Qed.

Lemma NoDup_firstn {A} n (l : list A) : NoDup l -> NoDup (firstn n l).
Proof.
  intros H. eapply sublist_NoDup; [exact H|apply sublist_take].
Qed.

(** A text without the separator is one part. *)
Lemma split_on_none d s :
  Forall (fun c => c <> d) s -> split_on d s = [s].
Proof.
  induction 1 as [|c s Hc Hs IH]; [reflexivity|].
  cbn [split_on]. apply Ascii.eqb_neq in Hc. rewrite Hc, IH. reflexivity.
Qed.

Lemma split_on_app d a b :
  Forall (fun c => c <> d) a ->
  split_on d (a ++ d :: b) = a :: split_on d b.
Proof.
  induction 1 as [|c a Hc Ha IH]; cbn [app split_on].
  - now rewrite Ascii.eqb_refl.
  - apply Ascii.eqb_neq in Hc. rewrite Hc, IH. reflexivity.
Qed.

(** *** Entities *)

Lemma no_entities_lookup label :
  no_entities !! label = if bool_decide (In label labels) then Some [] else None.
Proof.
  unfold no_entities, labels. cbn [List.map list_to_map foldr uncurry fst snd].
  destruct (bool_decide _) eqn:H.
  - apply bool_decide_eq_true in H. cbn in H.
    destruct H as [<-|[<-|[<-|[<-|[<-|[]]]]]]; reflexivity.
  - apply bool_decide_eq_false in H. cbn in H.
    rewrite !lookup_insert_ne by (intros <-; tauto). apply lookup_empty.
Qed.

Lemma no_entities_well_formed : well_formed no_entities.
Proof.
  split.
  - intros label. rewrite no_entities_lookup.
    destruct (bool_decide (In label labels)) eqn:H.
    + apply bool_decide_eq_true in H. split; [now intros _|now eexists].
    + apply bool_decide_eq_false in H. split; [intros [? [=]]|tauto].
  - intros label l. rewrite no_entities_lookup.
    destruct (bool_decide _); intros [= <-]. constructor.
Qed.

Lemma add_entity_well_formed label val entities :
  In label labels -> well_formed entities ->
  well_formed (add_entity label val entities).
Proof.
  intros Hlabel [Hkeys Hnd]. unfold add_entity. split.
  - intros label'. destruct (decide (label = label')) as [<-|Hne].
    + rewrite lookup_insert_eq. split; [now intros _|now eexists].
    + rewrite lookup_insert_ne by exact Hne. apply Hkeys.
  - intros label' l. destruct (decide (label = label')) as [<-|Hne].
    + rewrite lookup_insert_eq. intros [= <-]. apply append_new_nodup.
      unfold Scorer.entity_list. destruct (entities !! label) as [l|] eqn:Hl.
      * cbn. now apply (Hnd label).
      * constructor.
    + rewrite lookup_insert_ne by exact Hne. apply Hnd.
Qed.

Lemma hf_step_well_formed entities ent :
  well_formed entities -> well_formed (hf_step entities ent).
Proof.
  intros H. unfold hf_step. destruct (is_empty _); [exact H|].
  repeat (destruct (String.eqb _ _);
          [apply add_entity_well_formed; [cbn; tauto|exact H]|]).
  exact H.
Qed.

Lemma spacy_step_well_formed entities ent :
  well_formed entities -> well_formed (spacy_step entities ent).
Proof.
  intros H. unfold spacy_step. destruct (entities !! fst ent) eqn:Hl; [|exact H].
  apply add_entity_well_formed; [|exact H].
  destruct H as [Hkeys _]. apply Hkeys. rewrite Hl. now eexists.
Qed.

Lemma fold_well_formed {A} (step : gmap string (list text) -> A
                                   -> gmap string (list text)) l entities :
  (forall e x, well_formed e -> well_formed (step e x)) ->
  well_formed entities -> well_formed (fold_left step l entities).
Proof.
  intros Hstep. revert entities. induction l as [|x l IH]; intros entities H;
    [exact H|].
  cbn [fold_left]. apply IH, Hstep, H.
Qed.

Lemma add_matches_well_formed label patterns txt entities :
  In label labels -> well_formed entities ->
  well_formed (add_matches label patterns txt entities).
Proof.
  intros Hlabel. unfold add_matches. apply fold_well_formed.
  intros e pat. apply fold_well_formed.
  intros e' m. now apply add_entity_well_formed.
Qed.

(** What the fall-back patterns leave alone. *)
Lemma add_entity_other label label' val entities :
  label <> label' -> add_entity label val entities !! label' = entities !! label'.
Proof. intros H. unfold add_entity. now rewrite lookup_insert_ne. Qed.

Lemma add_matches_other label label' patterns txt entities :
  label <> label' ->
  add_matches label patterns txt entities !! label' = entities !! label'.
Proof.
  intros Hne. unfold add_matches. revert entities.
  induction patterns as [|pat patterns IH]; intros entities; [reflexivity|].
  cbn [fold_left]. rewrite IH. generalize (Re.finditer pat txt). intros ms.
  revert entities. induction ms as [|m ms IHm]; intros entities; [reflexivity|].
  cbn [fold_left]. rewrite IHm. now apply add_entity_other.
Qed.

End ProcessorFacts.

(** X13: a text of at most 100 characters, once stripped, is its own
    summary, whether a summarizer is loaded or not and whatever it would
    answer: the summarizer is not asked. *)
Theorem summary_of_short_text (summarizer : option (text -> option text))
    (txt : text) :
  (length (strip txt) <= 100)%nat ->
  Processor.generate_summary summarizer txt = strip txt.
Proof.
  intros Hlen. unfold Processor.generate_summary.
  assert (Hh : Processor.heuristic_summary txt = strip txt)
    by (apply ProcessorFacts.heuristic_summary_short; lia).
  destruct summarizer as [summarize|]; [|exact Hh].
  cbv zeta.
  destruct (100 <? length (firstn 1500 (strip txt)))%nat eqn:Hc; [|exact Hh].
  apply Nat.ltb_lt in Hc. rewrite length_firstn in Hc. unfold text in *. lia.
Qed.

Lemma summary_of_short_text_witness :
  Processor.generate_summary (Some (fun _ => Some "A summary."))
    "  Jane Doe, engineer.  "
  = strip "  Jane Doe, engineer.  ".
Proof. apply summary_of_short_text. vm_compute. lia. Defined.

(** X14: without a summarizer the summary has at most 303 characters.
    It is the stripped text when that has at most 300 characters;
    otherwise it is either the first 300 characters followed by three
    dots, or the text up to and with its first period, which then lies
    after the first 51 characters and within the first 300. *)
Theorem heuristic_summary_shape (txt : text) :
  let full := strip txt in
  let summary := Processor.generate_summary None txt in
  (length summary <= 303)%nat
  /\ ((length full <= 300)%nat -> summary = full)
  /\ ((300 < length full)%nat ->
      summary = firstn 300 full ++ "..."
      \/ exists period_index,
           (50 < period_index < 300)%nat
           /\ nth_error full period_index = Some "."%char
           /\ Forall (fun c => c <> "."%char) (firstn period_index full)
           /\ summary = firstn (period_index + 1) full).
Proof.
  cbv zeta. cbn [Processor.generate_summary].
  split; [|split].
  - unfold Processor.heuristic_summary.
    destruct (300 <? length (strip txt))%nat eqn:Hlen.
    + destruct (Processor.find_char "." (strip txt)) as [i|].
      * destruct ((50 <? i)%nat && (i <? 300)%nat) eqn:Hi.
        -- apply andb_true_iff in Hi as [_ Hi]. apply Nat.ltb_lt in Hi.
           rewrite length_firstn. lia.
        -- rewrite length_app, length_firstn. cbn [length]. lia.
      * rewrite length_app, length_firstn. cbn [length]. lia.
    + apply Nat.ltb_ge in Hlen. unfold text in *. lia.
  - apply ProcessorFacts.heuristic_summary_short.
  - intros Hlen. unfold Processor.heuristic_summary.
    apply Nat.ltb_lt in Hlen. rewrite Hlen.
    pose proof (ProcessorFacts.find_char_spec "." (strip txt)) as Hfind.
    assert (Hfirst : forall i, Processor.find_char "." (strip txt) = Some i ->
              Forall (fun c => c <> "."%char) (firstn i (strip txt))).
    { generalize (strip txt). intros s. induction s as [|x s IH]; intros i.
      - discriminate.
      - cbn [Processor.find_char]. destruct (Ascii.eqb x ".") eqn:Hx.
        + intros [= <-]. constructor.
        + destruct (Processor.find_char "." s) as [j|]; [|discriminate].
          intros [= <-]. cbn [firstn]. constructor.
          * now apply Ascii.eqb_neq.
          * now apply IH. }
    destruct (Processor.find_char "." (strip txt)) as [i|]; [|now left].
    destruct ((50 <? i)%nat && (i <? 300)%nat) eqn:Hi; [|now left].
    right. exists i. apply andb_true_iff in Hi as [H50 H300].
    apply Nat.ltb_lt in H50, H300. destruct Hfind as [_ Hnth].
    repeat split; try assumption. now apply Hfirst.
Qed.
(** X15: [extract_experience] answers at most ten entries.  Without
    spaCy every entry has between 6 and 100 characters.  When no line of
    the text has more than 100 characters once stripped, no entry is
    repeated. *)
Theorem experience_entries_bounded
    (nlp : option (text -> option (list (string * text)))) (txt : text) :
  let experience := Processor.extract_experience nlp txt in
  (length experience <= 10)%nat
  /\ (nlp = None -> Forall (fun e => 6 <= length e <= 100)%nat experience)
  /\ (Forall (fun line => length (strip line) <= 100)%nat
             (split_on Processor.newline txt) ->
      NoDup experience).
Proof.
  cbv zeta. unfold Processor.extract_experience. split; [|split].
  - rewrite length_firstn. lia.
  - intros ->. apply NamingFacts.Forall_firstn.
    apply ProcessorFacts.experience_fold_sizes. constructor.
  - intros Hshort. apply ProcessorFacts.NoDup_firstn.
    apply ProcessorFacts.experience_fold_nodup; [exact Hshort|].
    destruct nlp as [parse|]; [|constructor].
    destruct (parse _); [apply ProcessorFacts.organizations_of_nodup|constructor].
Qed.

(** X16: the guard against repeats compares the whole line with entries
    that were cut to 100 characters: a line that names a job title and
    has more than 100 characters once stripped is listed again each time
    the text repeats it. *)
Theorem experience_repeats_long_lines (line : text) :
  Forall (fun c => c <> Processor.newline) line ->
  (100 < length (strip line))%nat ->
  existsb (fun title => contains (lower line) title) Processor.job_titles
  = true ->
  Processor.extract_experience None (line ++ Processor.newline :: line)
  = [firstn 100 (strip line); firstn 100 (strip line)].
Proof.
  intros Hline Hlen Htitle. unfold Processor.extract_experience.
  rewrite ProcessorFacts.split_on_app by exact Hline.
  rewrite ProcessorFacts.split_on_none by exact Hline.
  assert (Hstep : forall experience,
             (length experience < 10)%nat ->
             ~ In (strip line) experience ->
             Processor.experience_step experience line
             = experience ++ [firstn 100 (strip line)]).
  { intros experience Hroom Hnew. unfold Processor.experience_step.
    replace (existsb _ Processor.job_titles) with true.
    - apply mem_not_In in Hnew. rewrite Hnew.
      apply Nat.ltb_lt in Hroom. now rewrite Hroom.
    - symmetry. apply existsb_exists in Htitle as (title & Hin & Ht).
      apply existsb_exists. exists title. split; [exact Hin|].
      rewrite Ht. apply Nat.ltb_lt. unfold text in *. lia. }
  cbn [fold_left]. rewrite (Hstep []) by (cbn; first [lia|tauto]).
  cbn [app]. rewrite Hstep.
  - reflexivity.
  - cbn. lia.
  - intros [Heq|[]]. apply (f_equal (@length ascii)) in Heq.
    rewrite length_firstn in Heq. unfold text in *. lia.
Qed.

Lemma experience_repeats_long_lines_witness :
  let line :=
    "Senior software engineer in charge of the payment platform, the billing services and the internal tooling of the company" in
  Processor.extract_experience None (line ++ Processor.newline :: line)
  = [firstn 100 (strip line); firstn 100 (strip line)].
Proof.
  cbv zeta. apply experience_repeats_long_lines.
  - apply (bool_decide_unpack _). vm_compute. exact I.
  - vm_compute. lia.
  - vm_compute. reflexivity.
Defined.

(** X17: [extract_entities] raises exactly when spaCy is loaded and
    raises; a failure of the Hugging Face pipeline is absorbed.  The
    dictionary answered always has its five keys and no others, and no
    list of it repeats a value.  With neither pipeline the persons, the
    places and the products are empty. *)
Theorem entities_well_formed
    (hf_ner nlp : option (text -> option (list (string * text))))
    (txt : text) :
  (Processor.extract_entities hf_ner nlp txt = None
   <-> exists parse, nlp = Some parse
                     /\ parse (Processor.trimmed txt) = None)
  /\ forall entities,
       Processor.extract_entities hf_ner nlp txt = Some entities ->
       (forall label,
           is_Some (entities !! label) <-> In label Processor.labels)
       /\ (forall label l, entities !! label = Some l -> NoDup l)
       /\ (hf_ner = None -> nlp = None ->
           entities !! "PERSON"%string = Some []
           /\ entities !! "GPE"%string = Some []
           /\ entities !! "PRODUCT"%string = Some []).
Proof.
  unfold Processor.extract_entities. cbv zeta.
  set (start := match hf_ner with
                | Some recognize =>
                    match recognize (Processor.trimmed txt) with
                    | Some hf_entities =>
                        fold_left Processor.hf_step hf_entities
                                  Processor.no_entities
                    | None => Processor.no_entities
                    end
                | None => Processor.no_entities
                end).
  assert (Hstart : Processor.well_formed start).
  { subst start. destruct hf_ner as [recognize|];
      [|apply ProcessorFacts.no_entities_well_formed].
    destruct (recognize _);
      [|apply ProcessorFacts.no_entities_well_formed].
    apply ProcessorFacts.fold_well_formed;
      [|apply ProcessorFacts.no_entities_well_formed].
    intros e x. apply ProcessorFacts.hf_step_well_formed. }
  assert (Hfinal : forall e,
             Processor.well_formed e ->
             Processor.well_formed
               (Processor.add_matches "DATE" Processor.date_patterns
                  (Processor.trimmed txt)
                  (Processor.add_matches "ORG" Processor.org_patterns
                     (Processor.trimmed txt) e))).
  { intros e He.
    apply ProcessorFacts.add_matches_well_formed; [cbn; tauto|].
    apply ProcessorFacts.add_matches_well_formed; [cbn; tauto|exact He]. }
  destruct nlp as [parse|].
  - destruct (parse (Processor.trimmed txt)) as [ents|] eqn:Hparse;
      cbn -[Processor.add_matches Processor.trimmed].
    + split.
      * split; [discriminate|]. intros (parse' & [= <-] & H). congruence.
      * intros entities [= <-].
        destruct (Hfinal (fold_left Processor.spacy_step ents start))
          as [Hkeys Hnd].
        { apply ProcessorFacts.fold_well_formed; [|exact Hstart].
          intros e x. apply ProcessorFacts.spacy_step_well_formed. }
        split; [exact Hkeys|]. split; [exact Hnd|]. discriminate.
    + split.
      * split; [|reflexivity]. intros _. now exists parse.
      * discriminate.
  - cbn -[Processor.add_matches Processor.trimmed]. split.
    + split; [discriminate|]. intros (parse & [=] & _).
    + intros entities Heq. apply (inj Some) in Heq as <-.
      destruct (Hfinal start Hstart) as [Hkeys Hnd].
      split; [exact Hkeys|]. split; [exact Hnd|].
      intros -> _. subst start.
      rewrite !ProcessorFacts.add_matches_other by discriminate.
      rewrite !ProcessorFacts.no_entities_lookup. now vm_compute.
Qed.

(** ** Regular expressions: where a search matches, and how much *)

Module MatchingFacts.
Import Re Matching.

Lemma prev_after_app before a b :
  prev_after before (a ++ b) = prev_after (prev_after before a) b.
Proof. apply fold_left_app. Qed.

Section Advance.

Context {R : Type}.

Lemma rep_loop_advances
    (body : mstate -> (mstate -> option R) -> option R) lo hi :
  advances body ->
  forall fuel n k st x,
    rep_loop body lo hi k fuel n st = Some x ->
    exists st' read,
      k st' = Some x
      /\ rest st = read ++ rest st'
      /\ prev st' = prev_after (prev st) read.
Proof.
  intros Hbody.
  assert (Hstop : forall n (k : mstate -> option R) st x,
             (if (lo <=? n)%nat then k st else None) = Some x ->
             exists st' read,
               k st' = Some x
               /\ rest st = read ++ rest st'
               /\ prev st' = prev_after (prev st) read).
  { intros n k st x H. destruct (lo <=? n)%nat; [|discriminate].
    now exists st, []. }
  induction fuel as [|fuel IH]; intros n k st x H.
  - now apply (Hstop n).
  - rewrite AskFacts.rep_loop_step in H.
    destruct (below n hi); [|now apply (Hstop n)].
    match type of H with
    | match body st ?k' with _ => _ end = _ =>
        destruct (body st k') as [y|] eqn:Hrun
    end; [|now apply (Hstop n)].
    injection H as ->.
    apply Hbody in Hrun as (st1 & read1 & Hk & Hrest1 & Hprev1).
    destruct (length (rest st1) <? length (rest st))%nat; [|discriminate].
    apply IH in Hk as (st' & read & Hk & Hrest & Hprev).
    exists st', (read1 ++ read). split; [exact Hk|]. split.
    + now rewrite Hrest1, Hrest, app_assoc.
    + now rewrite prev_after_app, <- Hprev1.
Qed.

Lemma run_advances r : advances (run (R := R) r).
Proof.
  induction r as [|p|r1 IH1 r2 IH2|r1 IH1 r2 IH2|lo hi r1 IH1| | |n r1 IH1];
    intros st k x H; cbn [run] in H.
  - now exists st, [].
  - destruct (rest st) as [|c cs] eqn:Hrest; [discriminate|].
    destruct (p c); [|discriminate].
    eexists _, [c]. split; [exact H|]. now split.
  - apply IH1 in H as (st1 & read1 & H & Hrest1 & Hprev1).
    apply IH2 in H as (st2 & read2 & H & Hrest2 & Hprev2).
    exists st2, (read1 ++ read2). split; [exact H|]. split.
    + now rewrite Hrest1, Hrest2, app_assoc.
    + now rewrite prev_after_app, <- Hprev1.
  - destruct (run r1 st k) as [y|] eqn:Hleft.
    + injection H as ->. now apply IH1.
    + now apply IH2.
  - now apply (rep_loop_advances (run r1) lo hi IH1) in H.
  - destruct (at_boundary st); [|discriminate]. now exists st, [].
  - destruct (prev st) eqn:Hprev; [discriminate|]. now exists st, [].
  - apply IH1 in H as (st1 & read1 & H & Hrest1 & Hprev1).
    eexists _, read1. split; [exact H|]. now split.
Qed.

End Advance.

Lemma match_at_advances r st st' :
  match_at r st = Some st' ->
  exists read, rest st = read ++ rest st'
               /\ prev st' = prev_after (prev st) read.
Proof.
  intros H. apply run_advances in H as (st1 & read & [= ->] & Hrest & Hprev).
  now exists read.
Qed.

(** Every match of a scan starts at a position of the subject. *)
Lemma scan_hit r fuel before s m st' :
  In (Hit m st') (scan fuel r before s) ->
  exists pre post,
    s = pre ++ post
    /\ match_at r {| prev := prev_after before pre; rest := post;
                     groups := [] |} = Some st'
    /\ (length (rest st') < length post)%nat.
Proof.
  revert before s. induction fuel as [|fuel IH]; intros before s H; [destruct H|].
  assert (Hskip :
    In (Hit m st') match s with
                   | [] => []
                   | c :: s' => Skip c :: scan fuel r (Some c) s'
                   end ->
    exists pre post,
      s = pre ++ post
      /\ match_at r {| prev := prev_after before pre; rest := post;
                       groups := [] |} = Some st'
      /\ (length (rest st') < length post)%nat).
  { destruct s as [|c s']; [intros []|]. intros [Heq|Hin]; [discriminate|].
    apply IH in Hin as (pre & post & -> & Hm & Hlt).
    now exists (c :: pre), post. }
  cbn [scan] in H.
  destruct (match_at r {| prev := before; rest := s; groups := [] |})
    as [st1|] eqn:Hm; [|now apply Hskip].
  destruct (length (rest st1) <? length s)%nat eqn:Hlt; [|now apply Hskip].
  destruct H as [Heq|Hin].
  - injection Heq as _ <-. exists [], s. apply Nat.ltb_lt in Hlt.
    now repeat split.
  - apply IH in Hin as (pre & post & Hrest & Hm' & Hlt').
    apply match_at_advances in Hm as (read & Hs & Hprev).
    cbn [rest prev] in Hs, Hprev.
    exists (read ++ pre), post. split; [|split; [|exact Hlt']].
    + now rewrite Hs, Hrest, app_assoc.
    + now rewrite prev_after_app, <- Hprev.
Qed.

(** A scan passes over no position where the pattern matches: it finds
    that match, or one that starts before it. *)
Lemma scan_finds r post st' pre :
  forall fuel before,
    (length (pre ++ post) < fuel)%nat ->
    match_at r {| prev := prev_after before pre; rest := post;
                  groups := [] |} = Some st' ->
    (length (rest st') < length post)%nat ->
    exists m st, In (Hit m st) (scan fuel r before (pre ++ post)).
Proof.
  induction pre as [|c pre IH]; intros fuel before Hfuel Hm Hlt;
    (destruct fuel as [|fuel]; [lia|]); cbn [scan app].
  - cbn in Hm. rewrite Hm. apply Nat.ltb_lt in Hlt. rewrite Hlt.
    eexists _, _. now left.
  - assert (Hskip :
      exists m st, In (Hit m st)
                      (Skip c :: scan fuel r (Some c) (pre ++ post))).
    { destruct (IH fuel (Some c)) as (m & st & Hin);
        [cbn in Hfuel; lia|exact Hm|exact Hlt|].
      exists m, st. now right. }
    destruct (match_at r {| prev := before; rest := c :: pre ++ post;
                            groups := [] |}) as [st1|]; [|exact Hskip].
    destruct (length (rest st1) <? length (c :: pre ++ post))%nat;
      [|exact Hskip].
    eexists _, _. now left.
Qed.

Lemma finditer_nonempty r s :
  search r s = true <-> exists m st, In (Hit m st) (pieces r s).
Proof.
  unfold search, finditer. induction (pieces r s) as [|[c|m st] ps IH].
  - cbn. split; [discriminate|]. now intros (? & ? & []).
  - cbn [omap list_omap]. rewrite IH. split.
    + intros (m & st & H). exists m, st. now right.
    + intros (m & st & [H|H]); [discriminate|]. now exists m, st.
  - cbn. split; [|reflexivity]. intros _. exists m, st. now left.
Qed.

(** [re.search] succeeds exactly when the pattern matches, on something,
    at some position of the subject. *)
Lemma search_spec r s :
  search r s = true
  <-> exists pre post st',
        s = pre ++ post
        /\ match_at r (position pre post) = Some st'
        /\ (length (rest st') < length post)%nat.
Proof.
  rewrite finditer_nonempty. unfold pieces, position. split.
  - intros (m & st & H). apply scan_hit in H as (pre & post & H).
    now exists pre, post, st.
  - intros (pre & post & st' & -> & Hm & Hlt).
    apply (scan_finds r post st' pre); [lia|exact Hm|exact Hlt].
Qed.

(** A literal matches where the subject starts with it. *)
Lemma run_lit {R} w st (k : mstate -> option R) :
  run (lit w) st k
  = if starts_with w (rest st)
    then k {| prev := prev_after (prev st) w;
              rest := skipn (length w) (rest st);
              groups := groups st |}
    else None.
Proof.
  revert st k. induction w as [|c w IH]; intros st k.
  - now destruct st.
  - assert (Hone : forall (k' : mstate -> option R),
               run (chr c) st k'
               = match rest st with
                 | x :: xs =>
                     if Ascii.eqb c x
                     then k' {| prev := Some c; rest := xs;
                                groups := groups st |}
                     else None
                 | [] => None
                 end).
    { intros k'. unfold chr. rewrite AskFacts.run_chr.
      destruct (rest st) as [|x xs]; [reflexivity|].
      destruct (Ascii.eqb c x) eqn:Hx; [|reflexivity].
      now apply Ascii.eqb_eq in Hx as <-. }
    destruct w as [|c' w].
    + cbn [lit]. rewrite Hone. destruct (rest st) as [|x xs]; [reflexivity|].
      cbn [starts_with]. destruct (Ascii.eqb c x); reflexivity.
    + change (lit (c :: c' :: w)) with (Seq (chr c) (lit (c' :: w))).
      cbn [run]. rewrite Hone. destruct (rest st) as [|x xs]; [reflexivity|].
      cbn [starts_with]. destruct (Ascii.eqb c x); [|reflexivity].
      rewrite IH. cbn [rest prev groups andb]. reflexivity.
Qed.

Lemma starts_with_skipn (w post : text) : skipn (length w) (w ++ post) = post.
Proof. induction w as [|c w IH]; [reflexivity|exact IH]. Qed.

Lemma starts_with_app w post : starts_with w (w ++ post) = true.
Proof. apply starts_with_spec. now exists post. Qed.

(** Searching for a literal is the substring test. *)
Lemma search_lit w s : w <> [] -> search (lit w) s = contains s w.
Proof.
  intros Hw. apply eq_true_iff_eq. rewrite search_spec, contains_spec. split.
  - intros (pre & post & st' & -> & Hm & _). unfold match_at in Hm.
    rewrite run_lit in Hm. cbn [rest position] in Hm.
    destruct (starts_with w post) eqn:Hstart; [|discriminate].
    apply starts_with_spec in Hstart as [post' ->]. now exists pre, post'.
  - intros (pre & post & ->). exists pre, (w ++ post). eexists.
    split; [reflexivity|]. unfold match_at. rewrite run_lit.
    cbn [rest position]. rewrite starts_with_app. split; [reflexivity|].
    cbn [rest]. rewrite starts_with_skipn, length_app.
    destruct w; [congruence|cbn; lia].
Qed.

(** *** Widths *)

Section Width.

Context {R : Type}.

Lemma rep_loop_within
    (body : mstate -> (mstate -> option R) -> option R) w lo h :
  within w body ->
  forall fuel n k st x,
    rep_loop body lo (Some h) k fuel n st = Some x ->
    exists st', k st' = Some x
                /\ (length (rest st) <= length (rest st') + (h - n) * w)%nat.
Proof.
  intros Hbody.
  assert (Hstop : forall n (k : mstate -> option R) st x,
             (if (lo <=? n)%nat then k st else None) = Some x ->
             exists st', k st' = Some x
               /\ (length (rest st) <= length (rest st') + (h - n) * w)%nat).
  { intros n k st x H. destruct (lo <=? n)%nat; [|discriminate].
    exists st. split; [exact H|apply Nat.le_add_r]. }
  induction fuel as [|fuel IH]; intros n k st x H.
  - now apply (Hstop n).
  - rewrite AskFacts.rep_loop_step in H. cbn [below] in H.
    destruct (n <? h)%nat eqn:Hn; [|now apply (Hstop n)].
    match type of H with
    | match body st ?k' with _ => _ end = _ =>
        destruct (body st k') as [y|] eqn:Hrun
    end; [|now apply (Hstop n)].
    injection H as ->.
    apply Hbody in Hrun as (st1 & Hk & Hlen1).
    destruct (length (rest st1) <? length (rest st))%nat; [|discriminate].
    apply IH in Hk as (st' & Hk & Hlen).
    exists st'. split; [exact Hk|].
    apply Nat.ltb_lt in Hn.
    replace (h - n)%nat with (S (h - S n)) by lia. cbn [Nat.mul]. lia.
Qed.

Lemma run_within r : forall w, max_width r = Some w -> within w (run (R := R) r).
Proof.
  induction r as [|p|r1 IH1 r2 IH2|r1 IH1 r2 IH2|lo hi r1 IH1| | |n r1 IH1];
    intros w Hw st k x H; cbn [run] in H; cbn [max_width] in Hw.
  - exists st. split; [exact H|lia].
  - injection Hw as <-.
    destruct (rest st) as [|c cs] eqn:Hrest; [discriminate|].
    destruct (p c); [|discriminate].
    eexists. split; [exact H|]. cbn [rest length]. lia.
  - destruct (max_width r1) as [w1|]; [|discriminate].
    destruct (max_width r2) as [w2|]; [|discriminate]. injection Hw as <-.
    apply (IH1 w1 eq_refl) in H as (st1 & H & Hlen1).
    apply (IH2 w2 eq_refl) in H as (st2 & H & Hlen2).
    exists st2. split; [exact H|lia].
  - destruct (max_width r1) as [w1|]; [|discriminate].
    destruct (max_width r2) as [w2|]; [|discriminate]. injection Hw as <-.
    destruct (run r1 st k) as [y|] eqn:Hleft.
    + injection H as ->. apply (IH1 w1 eq_refl) in Hleft as (st1 & Hk & Hlen).
      exists st1. split; [exact Hk|lia].
    + apply (IH2 w2 eq_refl) in H as (st1 & Hk & Hlen).
      exists st1. split; [exact Hk|lia].
  - destruct hi as [h|]; [|discriminate].
    destruct (max_width r1) as [w1|]; [|discriminate]. injection Hw as <-.
    apply (rep_loop_within (run r1) w1 lo h (IH1 w1 eq_refl)) in H
      as (st' & Hk & Hlen).
    exists st'. split; [exact Hk|]. now rewrite Nat.sub_0_r in Hlen.
  - injection Hw as <-. destruct (at_boundary st); [|discriminate].
    exists st. split; [exact H|lia].
  - injection Hw as <-. destruct (prev st); [discriminate|].
    exists st. split; [exact H|lia].
  - apply (IH1 w Hw) in H as (st1 & H & Hlen).
    eexists. split; [exact H|exact Hlen].
Qed.

End Width.

(** A text that a pattern matches in full is no longer than the
    pattern allows. *)
Lemma fullmatch_width r w s :
  max_width r = Some w -> fullmatch r s = true -> (length s <= w)%nat.
Proof.
  intros Hw H. unfold fullmatch in H.
  match type of H with
  | match run r ?st ?k with _ => _ end = _ =>
      destruct (run r st k) as [x|] eqn:Hrun
  end; [|discriminate].
  apply (run_within r w Hw) in Hrun as (st' & Hk & Hlen).
  destruct (rest st') as [|c cs]; [|discriminate]. cbn in Hlen. lia.
Qed.

End MatchingFacts.

(** ** Resume processing: skills and education *)

Module ExtractionFacts.
Import Re Matching Processor.

(** The skill pattern matches the skill between two word boundaries. *)
Lemma match_at_skill skill st :
  match_at (p_skill skill) st
  = if at_boundary st then
      if starts_with skill (rest st) then
        if at_boundary {| prev := prev_after (prev st) skill;
                          rest := skipn (length skill) (rest st);
                          groups := groups st |}
        then Some {| prev := prev_after (prev st) skill;
                     rest := skipn (length skill) (rest st);
                     groups := groups st |}
        else None
      else None
    else None.
Proof.
  unfold match_at, p_skill. cbn [seq_of run].
  destruct (at_boundary st); [|reflexivity].
  rewrite MatchingFacts.run_lit.
  destruct (starts_with skill (rest st)); reflexivity.
Qed.

(** An occurrence of [w] as a whole word: after [pre] and before
    [post], with a word boundary on each side. *)
Lemma search_skill skill s :
  skill <> [] ->
  search (p_skill skill) s = true
  <-> exists pre post,
        s = pre ++ skill ++ post
        /\ at_boundary (position pre (skill ++ post)) = true
        /\ at_boundary (position (pre ++ skill) post) = true.
Proof.
  intros Hskill. rewrite MatchingFacts.search_spec. split.
  - intros (pre & post & st' & -> & Hm & _).
    rewrite match_at_skill in Hm.
    destruct (at_boundary (position pre post)) eqn:Hleft; [|discriminate].
    cbn [prev rest groups position] in Hm.
    destruct (starts_with skill post) eqn:Hstart; [|discriminate].
    apply starts_with_spec in Hstart as [post' ->].
    rewrite MatchingFacts.starts_with_skipn in Hm.
    rewrite <- MatchingFacts.prev_after_app in Hm.
    fold (position (pre ++ skill) post') in Hm.
    destruct (at_boundary (position (pre ++ skill) post')) eqn:Hright;
      [|discriminate].
    now exists pre, post'.
  - intros (pre & post & -> & Hleft & Hright).
    exists pre, (skill ++ post). eexists. split; [reflexivity|].
    rewrite match_at_skill, Hleft. cbn [prev rest groups position].
    rewrite MatchingFacts.starts_with_app, MatchingFacts.starts_with_skipn.
    rewrite <- MatchingFacts.prev_after_app.
    fold (position (pre ++ skill) post). rewrite Hright.
    split; [reflexivity|]. cbn [rest position]. rewrite length_app.
    destruct skill; [congruence|cbn; lia].
Qed.

Lemma technical_skills_nodup : NoDup technical_skills.
Proof. apply (bool_decide_unpack _). vm_compute. exact I. Qed.

Lemma technical_skills_nonempty skill :
  In skill technical_skills -> skill <> [].
Proof.
  assert (H : Forall (fun s : text => s <> []) technical_skills)
    by (apply (bool_decide_unpack _); vm_compute; exact I).
  rewrite Forall_forall in H. intros Hin. apply H. now apply list_elem_of_In.
Qed.

(** The skills found are the entries of the table that the text holds as
    whole words, in the order of the table, cut to twenty. *)
Lemma extract_skills_filter txt :
  extract_skills txt
  = firstn 20 (List.filter (fun skill => search (p_skill skill) (lower txt))
                           technical_skills).
Proof.
  unfold extract_skills. cbv zeta. f_equal. apply unique_from_fixed.
  - apply NoDup_list_filter, technical_skills_nodup.
  - intros x _ [].
Qed.

Lemma In_firstn_or_full {A} n (l : list A) x :
  In x l -> In x (firstn n l) \/ length (firstn n l) = n.
Proof.
  intros Hin. destruct (Nat.le_gt_cases (length l) n) as [Hle|Hgt].
  - left. now rewrite firstn_all2.
  - right. rewrite length_firstn. lia.
Qed.

(** *** Education *)

Lemma rep_loop_done {R} body lo hi (k : mstate -> option R) fuel n st :
  below n hi = false ->
  rep_loop body lo hi k fuel n st = if (lo <=? n)%nat then k st else None.
Proof. intros H. destruct fuel; cbn [rep_loop]; now rewrite ?H. Qed.

(** An optional character: read it if it is there and the rest then
    matches, else go on without it. *)
Lemma run_opt_chr {R} c st (k : mstate -> option R) :
  run (opt (chr c)) st k
  = match rest st with
    | x :: xs =>
        if Ascii.eqb c x
        then match k {| prev := Some x; rest := xs; groups := groups st |} with
             | Some y => Some y
             | None => k st
             end
        else k st
    | [] => k st
    end.
Proof.
  unfold opt, chr.
  change (run (Rep 0 (Some 1%nat) (Chr (Ascii.eqb c))) st k)
    with (rep_loop (run (Chr (Ascii.eqb c))) 0 (Some 1%nat) k
            (length (rest st)) 0 st).
  destruct (rest st) as [|x xs] eqn:Hrest.
  - reflexivity.
  - cbn [length]. rewrite AskFacts.rep_loop_step. cbn [below].
    change (0 <? 1)%nat with true. change (0 <=? 0)%nat with true. cbv iota.
    rewrite AskFacts.run_chr, Hrest. destruct (Ascii.eqb c x); [|reflexivity].
    cbn [rest length].
    replace (length xs <? S (length xs))%nat with true
      by (symmetry; apply Nat.ltb_lt; lia).
    rewrite rep_loop_done by reflexivity. reflexivity.
Qed.

Lemma run_chr_eq {R} c st (k : mstate -> option R) :
  run (chr c) st k
  = match rest st with
    | x :: xs =>
        if Ascii.eqb c x
        then k {| prev := Some x; rest := xs; groups := groups st |}
        else None
    | [] => None
    end.
Proof. unfold chr. apply AskFacts.run_chr. Qed.

(** The pattern of two initials matches where the subject starts with
    them, with or without a period between them. *)
Lemma match_at_initials a b st :
  Ascii.eqb b "." = false ->
  (exists st', match_at (p_initials a b) st = Some st'
               /\ (length (rest st') < length (rest st))%nat)
  <-> starts_with [a; b] (rest st) = true
      \/ starts_with [a; "."%char; b] (rest st) = true.
Proof.
  intros Hb. unfold match_at, p_initials. cbn [seq_of run].
  assert (Htail : forall st1,
             exists st', run (opt (chr ".")) st1 Some = Some st'
                         /\ (length (rest st') <= length (rest st1))%nat).
  { intros st1. rewrite run_opt_chr. destruct (rest st1) as [|x xs] eqn:Hrest.
    - exists st1. split; [reflexivity|]. rewrite Hrest. cbn. lia.
    - destruct (Ascii.eqb "." x).
      + eexists. split; [reflexivity|]. cbn [rest length]. lia.
      + exists st1. split; [reflexivity|]. rewrite Hrest. lia. }
  rewrite run_chr_eq. destruct (rest st) as [|c1 s1] eqn:Hrest.
  { cbn. split; [intros (? & [=] & _)|intros [[=]|[=]]]. }
  cbn [starts_with]. destruct (Ascii.eqb a c1); cbn [andb];
    [|split; [intros (? & [=] & _)|intros [[=]|[=]]]].
  rewrite run_opt_chr. cbn [rest groups].
  destruct s1 as [|c2 s2].
  { rewrite run_chr_eq. cbn.
    split; [intros (? & [=] & _)|intros [[=]|[=]]]. }
  rewrite !run_chr_eq. cbn [rest groups].
  destruct (Ascii.eqb "." c2) eqn:Hdot.
  - apply Ascii.eqb_eq in Hdot as <-. rewrite Hb.
    destruct s2 as [|c3 s3].
    + cbn. split; [intros (? & [=] & _)|intros [[=]|[=]]].
    + destruct (Ascii.eqb b c3).
      * match goal with
        | |- context [run (opt (chr ".")) ?st1 Some] =>
            destruct (Htail st1) as (st' & -> & Hlen)
        end.
        cbn [rest length] in Hlen. split; [intros _; now right|].
        intros _. exists st'. split; [reflexivity|]. cbn [length]. lia.
      * cbn. split; [intros (? & [=] & _)|intros [[=]|[=]]].
  - destruct (Ascii.eqb b c2).
    + match goal with
      | |- context [run (opt (chr ".")) ?st1 Some] =>
          destruct (Htail st1) as (st' & -> & Hlen)
      end.
      cbn [rest length] in Hlen. split; [intros _; now left|].
      intros _. exists st'. split; [reflexivity|]. cbn [length]. lia.
    + cbn. split; [intros (? & [=] & _)|intros [[=]|[=]]].
Qed.

Lemma search_initials a b s :
  Ascii.eqb b "." = false ->
  search (p_initials a b) s
  = contains s [a; b] || contains s [a; "."%char; b].
Proof.
  intros Hb. apply eq_true_iff_eq.
  rewrite MatchingFacts.search_spec, orb_true_iff, !contains_spec. split.
  - intros (pre & post & st' & -> & Hm & Hlt).
    assert (H : exists st', match_at (p_initials a b) (position pre post)
                            = Some st'
                            /\ (length (rest st')
                                < length (rest (position pre post)))%nat)
      by now exists st'.
    apply (match_at_initials a b _ Hb) in H. cbn [rest position] in H.
    destruct H as [H|H]; apply starts_with_spec in H as [post' ->].
    + left. now exists pre, post'.
    + right. now exists pre, post'.
  - intros H.
    assert (Hpos : exists pre post,
               s = pre ++ post
               /\ (starts_with [a; b] post = true
                   \/ starts_with [a; "."%char; b] post = true)).
    { destruct H as [(pre & post & ->)|(pre & post & ->)].
      - exists pre, ([a; b] ++ post). split; [reflexivity|]. left.
        apply MatchingFacts.starts_with_app.
      - exists pre, ([a; "."%char; b] ++ post). split; [reflexivity|]. right.
        apply MatchingFacts.starts_with_app. }
    destruct Hpos as (pre & post & -> & Hstart).
    apply (match_at_initials a b (position pre post) Hb) in Hstart
      as (st' & Hm & Hlt).
    now exists pre, post, st'.
Qed.

(** The test on a line, pattern by pattern, is a substring test. *)
Lemma degree_test s :
  existsb (fun pattern => search pattern s) degree_patterns
  = contains_any_of s
      ["bachelor"; "master"; "phd"; "diploma"; "certificate";
       "bs"; "b.s"; "ms"; "m.s"; "ba"; "b.a"; "ma"; "m.a"].
Proof.
  unfold degree_patterns, contains_any_of. cbn [existsb].
  rewrite !MatchingFacts.search_lit by discriminate.
  rewrite !search_initials by reflexivity.
  rewrite <- !orb_assoc. reflexivity.
Qed.

Lemma unique_from_ext l :
  forall seen seen',
    (forall x, In x seen <-> In x seen') ->
    Scorer.unique_from seen l = Scorer.unique_from seen' l.
Proof.
  induction l as [|k l IH]; intros seen seen' Hsame; [reflexivity|].
  cbn [Scorer.unique_from].
  assert (Hmem : Scorer.mem k seen = Scorer.mem k seen').
  { apply eq_true_iff_eq. rewrite !mem_In. apply Hsame. }
  rewrite Hmem. destruct (Scorer.mem k seen'); [now apply IH|].
  f_equal. apply IH. intros x. cbn. now rewrite Hsame.
Qed.

Lemma unique_from_nodup l :
  forall seen,
    NoDup (Scorer.unique_from seen l)
    /\ forall x, In x (Scorer.unique_from seen l) -> ~ In x seen /\ In x l.
Proof.
  induction l as [|k l IH]; intros seen.
  - split; [constructor|intros x []].
  - cbn [Scorer.unique_from]. destruct (Scorer.mem k seen) eqn:Hk.
    + destruct (IH seen) as [Hnd Hin]. split; [exact Hnd|].
      intros x Hx. destruct (Hin x Hx). split; [assumption|now right].
    + apply mem_not_In in Hk. destruct (IH (k :: seen)) as [Hnd Hin]. split.
      * apply NoDup_cons. split; [|exact Hnd].
        intros Hk'. apply list_elem_of_In in Hk'.
        destruct (Hin k Hk') as [Hnot _]. apply Hnot. now left.
      * intros x [<-|Hx]; [split; [exact Hk|now left]|].
        destruct (Hin x Hx) as [Hnot Hl]. split; [|now right].
        intros Hs. apply Hnot. now right.
Qed.

(** The loop over the lines keeps, in order and each once, the stripped
    lines that pass the test. *)
Lemma education_fold test lines :
  (forall line,
      test line
      = (5 <? length line)%nat
        && existsb (fun pattern => search pattern (strip (lower line)))
                   degree_patterns) ->
  forall education,
    fold_left education_step lines education
    = education
      ++ Scorer.unique_from education
           (List.map strip (List.filter test lines)).
Proof.
  intros Htest. induction lines as [|line lines IH]; intros education.
  - cbn. now rewrite app_nil_r.
  - cbn [fold_left List.filter]. rewrite IH, Htest. unfold education_step.
    destruct (5 <? length line)%nat; cbn [andb]; [|reflexivity].
    destruct (existsb _ degree_patterns); [|reflexivity].
    cbn [List.map Scorer.unique_from]. unfold append_new.
    destruct (Scorer.mem (strip line) education); [reflexivity|].
    rewrite <- app_assoc. cbn [app]. do 2 f_equal.
    apply unique_from_ext. intros x. rewrite in_app_iff. cbn. tauto.
Qed.

End ExtractionFacts.

(** X18: the skills reported are entries of the table, in the order of
    the table, each once and at most twenty; each occurs in the
    lower-cased text as a whole word, with a word boundary before it and
    one after it; and an entry of the table that so occurs is reported
    unless twenty are reported already. *)
Theorem skills_are_whole_words (txt : text) :
  let skills := Processor.extract_skills txt in
  let whole_word skill :=
    exists pre post,
      lower txt = pre ++ skill ++ post
      /\ Re.at_boundary (Matching.position pre (skill ++ post)) = true
      /\ Re.at_boundary (Matching.position (pre ++ skill) post) = true in
  NoDup skills
  /\ skills `sublist_of` Processor.technical_skills
  /\ (length skills <= 20)%nat
  /\ (forall skill, In skill skills -> whole_word skill)
  /\ (forall skill,
         In skill Processor.technical_skills -> whole_word skill ->
         In skill skills \/ length skills = 20%nat).
Proof.
  cbv zeta. rewrite ExtractionFacts.extract_skills_filter.
  split; [|split; [|split; [|split]]].
  - apply ProcessorFacts.NoDup_firstn, NoDup_list_filter,
      ExtractionFacts.technical_skills_nodup.
  - etransitivity; [apply sublist_take|apply filter_sublist].
  - rewrite length_firstn. lia.
  - intros skill Hin. apply In_firstn, List.filter_In in Hin as [Hin Hs].
    apply ExtractionFacts.search_skill in Hs; [exact Hs|].
    now apply ExtractionFacts.technical_skills_nonempty.
  - intros skill Hin Hword. apply ExtractionFacts.In_firstn_or_full.
    apply List.filter_In. split; [exact Hin|].
    apply ExtractionFacts.search_skill; [|exact Hword].
    now apply ExtractionFacts.technical_skills_nonempty.
Qed.

(** X19: a skill that ends with a symbol is reported only when a word
    character follows it: "c++" and "c#" are not found in a text where
    each of their occurrences is followed by white space or punctuation,
    or ends the text. *)
Theorem symbol_skills_need_a_word_after (txt skill : text) :
  In skill ["c++"; "c#"] ->
  In skill (Processor.extract_skills txt) ->
  exists pre c post,
    lower txt = pre ++ skill ++ c :: post /\ Re.is_word c = true.
Proof.
  intros Hskill Hin. rewrite ExtractionFacts.extract_skills_filter in Hin.
  apply In_firstn, List.filter_In in Hin as [Hin Hs].
  apply ExtractionFacts.search_skill in Hs
    as (pre & post & Hlow & _ & Hright);
    [|now apply ExtractionFacts.technical_skills_nonempty].
  exists pre. unfold Re.at_boundary, Matching.position in Hright.
  cbn [Re.prev Re.rest] in Hright.
  rewrite MatchingFacts.prev_after_app in Hright.
  assert (Hlast : match Matching.prev_after (Matching.prev_after None pre) skill
                  with Some c => Re.is_word c | None => false end = false).
  { destruct Hskill as [<-|[<-|[]]]; reflexivity. }
  rewrite Hlast in Hright. destruct post as [|c post]; [discriminate|].
  exists c, post. split; [exact Hlow|exact Hright].
Qed.

Lemma symbol_skills_need_a_word_after_witness :
  exists pre c post,
    lower "Modern C++11 and templates" = pre ++ "c++" ++ c :: post
    /\ Re.is_word c = true.
Proof.
  apply (symbol_skills_need_a_word_after "Modern C++11 and templates" "c++").
  - now left.
  - vm_compute. now left.
Defined.

(** X20: the degree patterns are searched without anchors, so the test
    on a line is a substring test: a line of more than five characters
    is an education line exactly when its lower-cased form holds one of
    "bachelor", "master", "phd", "diploma", "certificate", "bs", "b.s",
    "ms", "m.s", "ba", "b.a", "ma", "m.a".  The entries are the stripped
    forms of these lines, in order and each once, cut to five. *)
Theorem education_by_substring (txt : text) :
  let education := Processor.extract_education txt in
  education
  = firstn 5
      (Scorer.unique_from []
         (List.map strip
            (List.filter
               (fun line =>
                  (5 <? length line)%nat
                  && contains_any_of (strip (lower line))
                       ["bachelor"; "master"; "phd"; "diploma"; "certificate";
                        "bs"; "b.s"; "ms"; "m.s"; "ba"; "b.a"; "ma"; "m.a"])
               (split_on Processor.newline txt))))
  /\ NoDup education
  /\ (length education <= 5)%nat.
Proof.
  cbv zeta. unfold Processor.extract_education.
  rewrite (ExtractionFacts.education_fold
             (fun line =>
                (5 <? length line)%nat
                && contains_any_of (strip (lower line))
                     ["bachelor"; "master"; "phd"; "diploma"; "certificate";
                      "bs"; "b.s"; "ms"; "m.s"; "ba"; "b.a"; "ma"; "m.a"]))
    by (intros line; now rewrite ExtractionFacts.degree_test).
  cbn [app]. split; [reflexivity|]. split.
  - apply ProcessorFacts.NoDup_firstn, ExtractionFacts.unique_from_nodup.
  - rewrite length_firstn. lia.
Qed.
